(** * timesync: the room registry, membership, timer and broadcast engine

    A shallow embedding of the Express server of the repository (the second
    document of [src/script.js]: [sendSSE], [broadcast], [generateRoomCode]
    and the five routes), followed by theorems about it.

    Conventions of the embedding.
    - Room objects live in a heap and are named by reference; the registry
      [rooms] maps a code to a reference, and the closure installed by
      [req.on("close", ...)] keeps the reference it captured.
    - A JavaScript [Map] is an association list in insertion order, a [Set]
      a duplicate-free list in insertion order.
    - [Date.now()], [crypto.randomBytes], [crypto.randomUUID] and the success
      of [res.write] are inputs from the environment: every call reads the
      next value of an oracle.
    - Timestamps are integers, in milliseconds; the fields of a request
      have the types of the API: a code or member id is a string when
      present, a start time a number when present.  Strings are ASCII. *)

From Stdlib Require Import ZArith Ascii String.
From Stdlib.Strings Require Import Byte.
From stdpp Require Import gmap strings list pretty.

Local Open Scope string_scope.
Local Open Scope Z_scope.
Local Open Scope list_scope.

(** ** Data model *)

(** A response object ([res]), identified by the connection it belongs to. *)
Definition handle := nat.

(** The address of a room object. *)
Definition ref := nat.

Bind Scope nat_scope with handle ref.

Module Member.
Record t := mk {
  id : string;
  name : string;
  timezone : string;
  locale : string;
  joinedAt : Z
}.
End Member.

Module Room.
Record t := mk {
  code : string;
  createdAt : Z;
  startTime : Z;
  previousStartTime : Z;
  members : list (string * Member.t);
  streams : list handle
}.

Definition with_startTime (v : Z) (r : t) : t :=
  mk (code r) (createdAt r) v (previousStartTime r) (members r) (streams r).

Definition with_previousStartTime (v : Z) (r : t) : t :=
  mk (code r) (createdAt r) (startTime r) v (members r) (streams r).

Definition with_members (v : list (string * Member.t)) (r : t) : t :=
  mk (code r) (createdAt r) (startTime r) (previousStartTime r) v (streams r).

Definition with_streams (v : list handle) (r : t) : t :=
  mk (code r) (createdAt r) (startTime r) (previousStartTime r) (members r) v.
End Room.

(** The object sent as [init] and returned as [roomState]. *)
Record snapshot := Snapshot {
  snap_createdAt : Z;
  snap_startTime : Z;
  snap_previousStartTime : Z;
  snap_code : string;
  snap_members : list Member.t
}.

(** The [data] argument of [sendSSE], before [JSON.stringify]. *)
Inductive payload :=
| PInit (s : snapshot)
| PMember (m : Member.t)
| PMemberLeft (memberId : option string)
| PTimer (startTime previousStartTime : Z).

(** One [res.write]: the [event:] line or the [data:] line. *)
Inductive chunk :=
| EventLine (event : string)
| DataLine (data : payload).

(** What can be thrown: by [res.write] on a dead stream, by [toISOString]
    on an invalid date, by reading a property of [undefined].  [Dangling]
    stands for a reference to no object; JavaScript has none, and no
    reachable state produces it (see [reachable_raises]). *)
Inductive exn :=
| WriteError
| RangeError
| TypeError
| Dangling.

Inductive outcome (A : Type) :=
| Ok (a : A)
| Throw (e : exn).
Arguments Ok {A} a.
Arguments Throw {A} e.

Inductive logline :=
| LogSSEError (event : string)
| LogBroadcast (code event : string)
| LogSSENotFound (code : option string)
| LogSSEConnected (code : string) (memberId : option string)
| LogSSEDisconnected (code : string)
| LogDisconnectRemoved (code name : string)
| LogCleanup (code : string)
| LogCreateFailed (code : string)
| LogRoomCreated (code : string)
| LogJoinFailed (code : string)
| LogReconnected (code name id : string)
| LogJoined (code name id : string)
| LogTimerReset (code : string) (startTime : Z)
| LogMemberLeft (code name : string) (memberId : option string).

Inductive body :=
| Created (code : string) (createdAt : Z)
| Joined (member : Member.t) (roomState : snapshot)
| ResetTo (startTime : Z)
| ErrorMsg (error : string).

Inductive response :=
| Status (status : nat)
| Json (status : nat) (b : body)
| EventStream.

(** What the [close] listener of a stream request has captured. *)
Record closure := Closure {
  cl_code : string;
  cl_memberId : option string;
  cl_room : ref;
  cl_res : handle
}.

Record world := World {
  heap : list Room.t;
  rooms : gmap string ref;
  listeners : list closure;
  wire : list (handle * chunk);
  console : list logline;
  ticks : nat;
  drawn : nat;
  minted : nat
}.

Definition with_heap (v : list Room.t) (w : world) : world :=
  World v (rooms w) (listeners w) (wire w) (console w) (ticks w) (drawn w) (minted w).

Definition with_rooms (v : gmap string ref) (w : world) : world :=
  World (heap w) v (listeners w) (wire w) (console w) (ticks w) (drawn w) (minted w).

Definition with_listeners (v : list closure) (w : world) : world :=
  World (heap w) (rooms w) v (wire w) (console w) (ticks w) (drawn w) (minted w).

Definition with_wire (v : list (handle * chunk)) (w : world) : world :=
  World (heap w) (rooms w) (listeners w) v (console w) (ticks w) (drawn w) (minted w).

Definition with_console (v : list logline) (w : world) : world :=
  World (heap w) (rooms w) (listeners w) (wire w) v (ticks w) (drawn w) (minted w).

Definition with_ticks (v : nat) (w : world) : world :=
  World (heap w) (rooms w) (listeners w) (wire w) (console w) v (drawn w) (minted w).

Definition with_drawn (v : nat) (w : world) : world :=
  World (heap w) (rooms w) (listeners w) (wire w) (console w) (ticks w) v (minted w).

Definition with_minted (v : nat) (w : world) : world :=
  World (heap w) (rooms w) (listeners w) (wire w) (console w) (ticks w) (drawn w) v.

(** The server at start-up: [const rooms = new Map()]. *)
Definition boot : world := World [] ∅ [] [] [] 0 0 0.

(** The environment of a run. *)
Record env := Env {
  clock : nat -> Z;
  entropy : nat -> byte;
  uuid : nat -> string;
  throws : handle -> chunk -> bool
}.

(** ** The monad of handlers: state, and exceptions that keep the state *)

Definition M (A : Type) : Type := world -> outcome A * world.

Definition ret {A} (a : A) : M A := fun w => (Ok a, w).

Definition bind {A B} (m : M A) (k : A -> M B) : M B :=
  fun w =>
    match m w with
    | (Ok a, w') => k a w'
    | (Throw e, w') => (Throw e, w')
    end.

Definition throw {A} (e : exn) : M A := fun w => (Throw e, w).

Definition try_catch {A} (m : M A) (h : exn -> M A) : M A :=
  fun w =>
    match m w with
    | (Ok a, w') => (Ok a, w')
    | (Throw e, w') => h e w'
    end.

Declare Scope js_scope.
Delimit Scope js_scope with js.
Notation "'let*' x := m 'in' k" := (bind m (fun x => k))
  (at level 10, x name, m at level 100, k at level 200) : js_scope.
Notation "m ;; k" := (bind m (fun _ => k))
  (at level 100, k at level 200, right associativity) : js_scope.

Fixpoint for_of {A} (xs : list A) (f : A -> M unit) : M unit :=
  match xs with
  | [] => ret tt
  | x :: xs' => (f x ;; for_of xs' f)%js
  end.

(** ** JavaScript values and containers *)

(** Truthiness of a possibly absent string and of a possibly absent number. *)
Definition truthy_string (v : option string) : bool :=
  match v with
  | None => false
  | Some s => negb (String.eqb s "")
  end.

Definition truthy_number (v : option Z) : bool :=
  match v with
  | None => false
  | Some z => negb (z =? 0)
  end.

(** [a || b] where [a] may be absent. *)
Definition or_number (a : option Z) (b : Z) : Z :=
  match a with
  | Some z => if truthy_number a then z else b
  | None => b
  end.

Definition is_lower (c : ascii) : bool :=
  let n := nat_of_ascii c in ((97 <=? n) && (n <=? 122))%nat.

Definition is_upper (c : ascii) : bool :=
  let n := nat_of_ascii c in ((65 <=? n) && (n <=? 90))%nat.

Definition is_digit (c : ascii) : bool :=
  let n := nat_of_ascii c in ((48 <=? n) && (n <=? 57))%nat.

Definition upper_char (c : ascii) : ascii :=
  if is_lower c then ascii_of_nat (nat_of_ascii c - 32) else c.

(** [s.toUpperCase()] on ASCII text: the letters [a] to [z] become [A] to
    [Z] and every other character stays.  [String.prototype.toUpperCase]
    also maps letters outside ASCII, some to ASCII capitals; on a string
    with such a character this function is not the code's, and the
    statements that depend on how a given text is upper-cased restrict the
    text to ASCII ([ascii_text], [plain_code], letters and digits). *)
Fixpoint toUpperCase (s : string) : string :=
  match s with
  | EmptyString => EmptyString
  | String c s' => String (upper_char c) (toUpperCase s')
  end.

(** Whether every character of a string is an ASCII character. *)
Definition ascii_text (s : string) : bool :=
  forallb (fun c => (nat_of_ascii c <? 128)%nat) (list_ascii_of_string s).

(** A requested room code, if there is one, is ASCII text. *)
Definition ascii_code (roomCode : option string) : bool :=
  match roomCode with
  | Some requested => ascii_text requested
  | None => true
  end.

(** [s.replace(/[^A-Z0-9]/g, "")] *)
Fixpoint strip_non_alnum (s : string) : string :=
  match s with
  | EmptyString => EmptyString
  | String c s' =>
      if is_upper c || is_digit c then String c (strip_non_alnum s')
      else strip_non_alnum s'
  end.

Definition hex_digit (n : N) : ascii :=
  match String.get (N.to_nat n) "0123456789abcdef" with
  | Some c => c
  | None => "0"%char
  end.

(** [buf.toString("hex")] *)
Fixpoint to_hex (bs : list byte) : string :=
  match bs with
  | [] => EmptyString
  | b :: bs' =>
      let n := Byte.to_N b in
      String (hex_digit (n / 16)%N) (String (hex_digit (n mod 16)%N) (to_hex bs'))
  end.

(** The time values of a valid [Date]: at most 8.64e15 ms from the epoch. *)
Definition valid_time (t : Z) : bool :=
  (-8640000000000000 <=? t) && (t <=? 8640000000000000).

(** [Map]: [has], [get], [set], [delete], [size], [values()]. *)
Section JsMap.
Context {V : Type}.

Fixpoint map_get (k : string) (m : list (string * V)) : option V :=
  match m with
  | [] => None
  | (k', v) :: m' => if String.eqb k' k then Some v else map_get k m'
  end.

Definition map_has (k : string) (m : list (string * V)) : bool :=
  match map_get k m with Some _ => true | None => false end.

Fixpoint map_set (k : string) (v : V) (m : list (string * V)) : list (string * V) :=
  match m with
  | [] => [(k, v)]
  | (k', v') :: m' =>
      if String.eqb k' k then (k, v) :: m' else (k', v') :: map_set k v m'
  end.

Fixpoint map_delete (k : string) (m : list (string * V)) : list (string * V) :=
  match m with
  | [] => []
  | (k', v') :: m' =>
      if String.eqb k' k then m' else (k', v') :: map_delete k m'
  end.

Definition map_values (m : list (string * V)) : list V := map snd m.
End JsMap.

(** [Set]: [add], [delete]; [size] is the length. *)
Definition set_add (x : handle) (s : list handle) : list handle :=
  if existsb (Nat.eqb x) s then s else s ++ [x].

Definition set_delete (x : handle) (s : list handle) : list handle :=
  filter (fun y => y ≠ x) s.

(** [room.members] under a key that comes from a request and may be
    [undefined]: no member has that key. *)
Definition has_member (k : option string) (m : list (string * Member.t)) : bool :=
  match k with
  | Some k => map_has k m
  | None => false
  end.

Definition get_member (k : option string) (m : list (string * Member.t)) : option Member.t :=
  match k with
  | Some k => map_get k m
  | None => None
  end.

Definition delete_member (k : option string) (m : list (string * Member.t)) :
    list (string * Member.t) :=
  match k with
  | Some k => map_delete k m
  | None => m
  end.

(** ** The server *)

Section Server.
Variable E : env.

Local Open Scope js_scope.

(** *** Primitives of the runtime *)

(** [Date.now()] *)
Definition Date_now : M Z :=
  fun w => (Ok (clock E (ticks w)), with_ticks (S (ticks w)) w).

(** [crypto.randomBytes(n)] *)
Definition randomBytes (n : nat) : M (list byte) :=
  fun w => (Ok (map (entropy E) (seq (drawn w) n)), with_drawn (drawn w + n)%nat w).

(** [crypto.randomUUID()] *)
Definition randomUUID : M string :=
  fun w => (Ok (uuid E (minted w)), with_minted (S (minted w)) w).

(** [res.write(c)] *)
Definition res_write (res : handle) (c : chunk) : M unit :=
  fun w =>
    if throws E res c then (Throw WriteError, w)
    else (Ok tt, with_wire (wire w ++ [(res, c)]) w).

(** [new Date(t).toISOString()]: on an invalid date [toISOString] throws. *)
Definition toISOString (t : Z) : M Z :=
  if valid_time t then ret t else throw RangeError.

Definition log (l : logline) : M unit :=
  fun w => (Ok tt, with_console (console w ++ [l]) w).

(** [rooms.get(code)], [rooms.has(code)], [rooms.set(code, room)],
    [rooms.delete(code)] *)
Definition rooms_get (code : option string) : M (option ref) :=
  fun w => (Ok (match code with Some c => rooms w !! c | None => None end), w).

Definition rooms_has (code : string) : M bool :=
  fun w => (Ok (match rooms w !! code with Some _ => true | None => false end), w).

Definition rooms_set (code : string) (room : ref) : M unit :=
  fun w => (Ok tt, with_rooms (<[code := room]> (rooms w)) w).

Definition rooms_delete (code : string) : M unit :=
  fun w => (Ok tt, with_rooms (delete code (rooms w)) w).

(** An object literal: a new room object. *)
Definition new_room (r : Room.t) : M ref :=
  fun w => (Ok (length (heap w)), with_heap (heap w ++ [r]) w).

(** Reading the fields of [room]. *)
Definition deref (room : ref) : M Room.t :=
  fun w =>
    match heap w !! room with
    | Some r => (Ok r, w)
    | None => (Throw Dangling, w)
    end.

(** Writing to [room]: a field assignment or a call of a mutating method
    on [room.members] or [room.streams]. *)
Definition mutate (room : ref) (f : Room.t -> Room.t) : M unit :=
  fun w =>
    match heap w !! room with
    | Some r => (Ok tt, with_heap (<[room := f r]> (heap w)) w)
    | None => (Throw Dangling, w)
    end.

(** [req.on("close", ...)] *)
Definition on_close (c : closure) : M unit :=
  fun w => (Ok tt, with_listeners (listeners w ++ [c]) w).

(** *** Helpers *)

Definition sendSSE (res : handle) (event : string) (data : payload) : M unit :=
  try_catch
    (res_write res (EventLine event) ;;
     res_write res (DataLine data))
    (fun err => log (LogSSEError event)).

Definition broadcast (room : ref) (event : string) (data : payload) : M unit :=
  let* r := deref room in
  log (LogBroadcast (Room.code r) event) ;;
  for_of (Room.streams r) (fun res => sendSSE res event data).

Definition generateRoomCode : M string :=
  let* bs := randomBytes 3 in
  ret (toUpperCase (to_hex bs)).

Definition snapshot_of (r : Room.t) : snapshot :=
  {| snap_createdAt := Room.createdAt r;
     snap_startTime := Room.startTime r;
     snap_previousStartTime := Room.previousStartTime r;
     snap_code := Room.code r;
     snap_members := map_values (Room.members r) |}.

(** *** SSE endpoint *)

(** The listener of [close] installed by [app.get("/events")]. *)
Definition events_close (c : closure) : M unit :=
  let code := cl_code c in
  let memberId := cl_memberId c in
  let room := cl_room c in
  let res := cl_res c in
  log (LogSSEDisconnected code) ;;
  mutate room (fun r => Room.with_streams (set_delete res (Room.streams r)) r) ;;
  let* r := deref room in
  (if truthy_string memberId && has_member memberId (Room.members r) then
     match get_member memberId (Room.members r) with
     | Some member =>
         mutate room (fun r =>
           Room.with_members (delete_member memberId (Room.members r)) r) ;;
         log (LogDisconnectRemoved code (Member.name member)) ;;
         broadcast room "member-left" (PMemberLeft memberId)
     | None =>
         mutate room (fun r =>
           Room.with_members (delete_member memberId (Room.members r)) r) ;;
         throw TypeError
     end
   else ret tt) ;;
  let* r := deref room in
  if (length (Room.members r) =? 0)%nat && (length (Room.streams r) =? 0)%nat then
    log (LogCleanup code) ;;
    rooms_delete code
  else ret tt.

(** [app.get("/events", ...)] with [req.query = {code, memberId}]. *)
Definition get_events (code memberId : option string) (res : handle) : M response :=
  let* found := rooms_get code in
  match code, found with
  | Some c, Some room =>
      log (LogSSEConnected c memberId) ;;
      mutate room (fun r => Room.with_streams (set_add res (Room.streams r)) r) ;;
      let* r := deref room in
      sendSSE res "init" (PInit (snapshot_of r)) ;;
      on_close (Closure c memberId room res) ;;
      ret EventStream
  | _, _ =>
      log (LogSSENotFound code) ;;
      ret (Status 404)
  end.

(** The transport reports that the connection of [res] has ended: the
    listener of its request runs, once. *)
Definition close (res : handle) : M unit :=
  fun w =>
    match List.find (fun c => Nat.eqb (cl_res c) res) (listeners w) with
    | Some c =>
        events_close c
          (with_listeners
             (List.filter (fun c' => negb (Nat.eqb (cl_res c') res)) (listeners w)) w)
    | None => (Ok tt, w)
    end.

(** *** API endpoints *)

(** [app.post("/rooms", ...)] with [req.body = {roomCode}]. *)
Definition post_rooms (roomCode : option string) : M response :=
  let* roomCode :=
    match roomCode with
    | Some requested =>
        if negb (truthy_string roomCode) then generateRoomCode
        else
          let normalized := strip_non_alnum (toUpperCase requested) in
          if negb (truthy_string (Some normalized)) then generateRoomCode
          else ret normalized
    | None => generateRoomCode
    end in
  let* taken := rooms_has roomCode in
  if taken then
    log (LogCreateFailed roomCode) ;;
    ret (Json 400 (ErrorMsg "Room code already exists"))
  else
    let* createdAt := Date_now in
    let* startTime := Date_now in
    let* previousStartTime := Date_now in
    let* room := new_room (Room.mk roomCode createdAt startTime previousStartTime [] []) in
    rooms_set roomCode room ;;
    log (LogRoomCreated roomCode) ;;
    let* createdAt' := Date_now in
    ret (Json 200 (Created roomCode createdAt')).

(** [app.post("/rooms/:code/join", ...)] with
    [req.body = {memberId, name, timezone, locale}]. *)
Definition post_join (code : string) (memberId : option string)
    (name timezone locale : string) : M response :=
  let* found := rooms_get (Some code) in
  match found with
  | None =>
      log (LogJoinFailed code) ;;
      ret (Status 404)
  | Some room =>
      let* r := deref room in
      let* member :=
        if truthy_string memberId && has_member memberId (Room.members r) then
          match get_member memberId (Room.members r) with
          | Some member =>
              log (LogReconnected code (Member.name member) (Member.id member)) ;;
              ret member
          | None => throw TypeError
          end
        else
          let* id := randomUUID in
          let* joinedAt := Date_now in
          let member := Member.mk id name timezone locale joinedAt in
          mutate room (fun r =>
            Room.with_members (map_set (Member.id member) member (Room.members r)) r) ;;
          log (LogJoined code name (Member.id member)) ;;
          broadcast room "member-joined" (PMember member) ;;
          ret member in
      let* r := deref room in
      ret (Json 200 (Joined member (snapshot_of r)))
  end.

(** [app.post("/rooms/:code/reset", ...)] with [req.body = {startTime}].
    [room.startTime] is a number, on which [Number] is the identity. *)
Definition post_reset (code : string) (startTime : option Z) : M response :=
  let* found := rooms_get (Some code) in
  match found with
  | None => ret (Status 404)
  | Some room =>
      let* now := Date_now in
      let* r := deref room in
      let currentStart := Room.startTime r in
      let isExpired := (currentStart <=? now)%Z in
      (if isExpired then mutate room (Room.with_previousStartTime currentStart)
       else ret tt) ;;
      mutate room (Room.with_startTime (or_number startTime now)) ;;
      let* r := deref room in
      let* iso := toISOString (Room.startTime r) in
      log (LogTimerReset code iso) ;;
      let* r := deref room in
      broadcast room "timer-update"
        (PTimer (Room.startTime r) (Room.previousStartTime r)) ;;
      let* r := deref room in
      ret (Json 200 (ResetTo (Room.startTime r)))
  end.

(** [app.post("/rooms/:code/leave", ...)] with [req.body = {memberId}]. *)
Definition post_leave (code : string) (memberId : option string) : M response :=
  let* found := rooms_get (Some code) in
  (match found with
   | Some room =>
       let* r := deref room in
       if has_member memberId (Room.members r) then
         match get_member memberId (Room.members r) with
         | Some member =>
             mutate room (fun r =>
           Room.with_members (delete_member memberId (Room.members r)) r) ;;
             log (LogMemberLeft code (Member.name member) memberId) ;;
             broadcast room "member-left" (PMemberLeft memberId)
         | None =>
             mutate room (fun r =>
           Room.with_members (delete_member memberId (Room.members r)) r) ;;
             throw TypeError
         end
       else ret tt
   | None => ret tt
   end) ;;
  ret (Status 204).

(** Express around a route: an exception that leaves the handler is
    answered by the default error handler with status 500. *)
Definition express (handler : M response) (w : world) : response * world :=
  match handler w with
  | (Ok r, w') => (r, w')
  | (Throw _, w') => (Status 500, w')
  end.

End Server.

(** ** What a send puts on the wire *)

(** The chunks [sendSSE] delivers: the writes before the first one that
    throws. *)
Definition emit (E : env) (res : handle) (event : string) (data : payload) :
    list (handle * chunk) :=
  if throws E res (EventLine event) then []
  else if throws E res (DataLine data) then [(res, EventLine event)]
  else [(res, EventLine event); (res, DataLine data)].

(** The lines [sendSSE] logs: one if a write threw. *)
Definition complain (E : env) (res : handle) (event : string) (data : payload) :
    list logline :=
  if throws E res (EventLine event) || throws E res (DataLine data)
  then [LogSSEError event] else [].

(** Appending to the wire and to the console. *)
Definition tell (ws : list (handle * chunk)) (ls : list logline) (w : world) : world :=
  with_console (console w ++ ls) (with_wire (wire w ++ ws) w).

(** ** The room after a reset: the banking rule, then the new start *)

Definition banked (now : Z) (r : Room.t) : Room.t :=
  if Room.startTime r <=? now
  then Room.with_previousStartTime (Room.startTime r) r
  else r.

Definition restarted (startTime : option Z) (now : Z) (r : Room.t) : Room.t :=
  Room.with_startTime (or_number startTime now) (banked now r).

(** ** The room after one of its streams has closed *)

(** Whether the listener finds the member its stream was opened for. *)
Definition member_bound (c : closure) (r : Room.t) : bool :=
  truthy_string (cl_memberId c) && has_member (cl_memberId c) (Room.members r).

Definition closed_room (c : closure) (r : Room.t) : Room.t :=
  let r1 := Room.with_streams (set_delete (cl_res c) (Room.streams r)) r in
  if member_bound c r
  then Room.with_members (delete_member (cl_memberId c) (Room.members r1)) r1
  else r1.

(** The test that guards [rooms.delete(code)]. *)
Definition deserted (r : Room.t) : bool :=
  (length (Room.members r) =? 0)%nat && (length (Room.streams r) =? 0)%nat.

(** ** The code of a new room *)

(** What the create route does to a requested code. *)
Definition normalize (requested : string) : string :=
  strip_non_alnum (toUpperCase requested).

(** What [generateRoomCode] returns in [w]. *)
Definition generated_code (E : env) (w : world) : string :=
  toUpperCase (to_hex (map (entropy E) (seq (drawn w) 3))).

(** Whether the create route calls [generateRoomCode]. *)
Definition needs_random (roomCode : option string) : bool :=
  match roomCode with
  | Some requested => String.eqb requested "" || String.eqb (normalize requested) ""
  | None => true
  end.

(** The code under which the create route looks for and stores the room. *)
Definition chosen_code (E : env) (roomCode : option string) (w : world) : string :=
  match roomCode with
  | Some requested =>
      if needs_random roomCode then generated_code E w else normalize requested
  | None => generated_code E w
  end.

(** ** The states the server can be in *)

(** What reaches the server: a request on one of the five routes, or the
    end of a stream's connection.  The fields of a body or a query have the
    types the page sends them with: a string or nothing for [roomCode],
    [code] and [memberId], strings for [name], [timezone] and [locale], an
    integer or nothing for [startTime].  A body with a field of another
    JSON type (a number for [roomCode], on which [toUpperCase] is not a
    function) is not a request of this type, and what the routes do with it
    is not stated here. *)
Inductive request :=
| GetEvents (code memberId : option string) (res : handle)
| Close (res : handle)
| PostRooms (roomCode : option string)
| PostJoin (code : string) (memberId : option string) (name timezone locale : string)
| PostReset (code : string) (startTime : option Z)
| PostLeave (code : string) (memberId : option string).

Definition after (E : env) (q : request) (w : world) : world :=
  match q with
  | GetEvents code memberId res => snd (express (get_events E code memberId res) w)
  | Close res => snd (close E res w)
  | PostRooms roomCode => snd (express (post_rooms E roomCode) w)
  | PostJoin code memberId name timezone locale =>
      snd (express (post_join E code memberId name timezone locale) w)
  | PostReset code startTime => snd (express (post_reset E code startTime) w)
  | PostLeave code memberId => snd (express (post_leave E code memberId) w)
  end.

(** The exception a request ends with, if any. *)
Definition exn_of {A} (o : outcome A) : option exn :=
  match o with
  | Ok _ => None
  | Throw e => Some e
  end.

Definition raises (E : env) (q : request) (w : world) : option exn :=
  match q with
  | GetEvents code memberId res => exn_of (fst (get_events E code memberId res w))
  | Close res => exn_of (fst (close E res w))
  | PostRooms roomCode => exn_of (fst (post_rooms E roomCode w))
  | PostJoin code memberId name timezone locale =>
      exn_of (fst (post_join E code memberId name timezone locale w))
  | PostReset code startTime => exn_of (fst (post_reset E code startTime w))
  | PostLeave code memberId => exn_of (fst (post_leave E code memberId w))
  end.

Inductive reachable (E : env) : world -> Prop :=
| reachable_boot : reachable E boot
| reachable_after q w : reachable E w -> reachable E (after E q w).

(** The registry holds room objects under their own code; a listener holds
    a room object and the code it was found under; the key of a member is
    an id that [crypto.randomUUID] has returned. *)
Record consistent (E : env) (h : list Room.t) (rs : gmap string ref)
    (ls : list closure) (n : nat) : Prop := Consistent {
  registered_rooms :
    forall c room, rs !! c = Some room ->
      exists r, h !! room = Some r /\ Room.code r = c;
  listening_rooms :
    forall c, c ∈ ls ->
      exists r, h !! cl_room c = Some r /\ Room.code r = cl_code c;
  minted_ids :
    forall room r k m, h !! room = Some r -> (k, m) ∈ Room.members r ->
      exists i, (i < n)%nat /\ k = uuid E i
}.

Definition invariant (E : env) (w : world) : Prop :=
  consistent E (heap w) (rooms w) (listeners w) (minted w).

(** ** Sample environments and states *)

(** A clock that advances by a millisecond at every reading, and streams
    whose writes succeed. *)
Definition demo_env : env :=
  Env (fun n => 1700000000000 + Z.of_nat n)%Z
      (fun n => x2a)
      (fun n => "member-" +:+ pretty n)
      (fun _ _ => false).

(** A room has been created under the code [LOBBY]. *)
Definition lobby : world := after demo_env (PostRooms (Some "lobby")) boot.

(** The lobby, reset to a start in the future. *)
Definition scheduled : world :=
  after demo_env (PostReset "LOBBY" (Some 1800000000000)) lobby.

(** A clock whose third reading is a millisecond after the first two. *)
Definition midtick_env : env :=
  Env (fun n => if (n <? 2)%nat then 1700000000000 else 1700000000001)
      (entropy demo_env) (uuid demo_env) (throws demo_env).

(** Alice has joined the lobby. *)
Definition lounge : world :=
  after demo_env (PostJoin "LOBBY" None "Alice" "UTC" "en") lobby.

(** Streams 1, 2 and 3 are open on the lobby; the writes of stream 2 throw. *)
Definition flaky_env : env :=
  Env (clock demo_env) (entropy demo_env) (uuid demo_env)
      (fun res _ => Nat.eqb res 2).

Definition hall : world :=
  after flaky_env (GetEvents (Some "LOBBY") None 3)
    (after flaky_env (GetEvents (Some "LOBBY") None 2)
       (after flaky_env (GetEvents (Some "LOBBY") None 1) lobby)).

(** ** Room codes *)

(** The characters [toString("hex").toUpperCase()] is made of. *)
Definition is_hex_upper (c : ascii) : bool :=
  let n := nat_of_ascii c in
  is_digit c || ((65 <=? n) && (n <=? 70))%nat.

(** ** What a request changes *)

(** The change a request makes to the rooms, the registry, the listeners,
    the wire and the count of minted ids, branch by branch. *)
Inductive change (E : env) : request -> world -> world -> Prop :=
| change_nothing q w w' :
    heap w' = heap w -> rooms w' = rooms w -> listeners w' = listeners w ->
    wire w' = wire w -> minted w' = minted w ->
    change E q w w'
| change_open c memberId res room r w w' :
    rooms w !! c = Some room ->
    heap w !! room = Some r ->
    heap w' = <[room := Room.with_streams (set_add res (Room.streams r)) r]> (heap w) ->
    rooms w' = rooms w ->
    listeners w' = listeners w ++ [Closure c memberId room res] ->
    wire w' = wire w ++ emit E res "init"
                (PInit (snapshot_of (Room.with_streams (set_add res (Room.streams r)) r))) ->
    minted w' = minted w ->
    change E (GetEvents (Some c) memberId res) w w'
| change_close res c r w w' :
    List.find (fun c => Nat.eqb (cl_res c) res) (listeners w) = Some c ->
    heap w !! cl_room c = Some r ->
    heap w' = <[cl_room c := closed_room c r]> (heap w) ->
    rooms w' = (if deserted (closed_room c r) then delete (cl_code c) (rooms w)
                else rooms w) ->
    listeners w' = List.filter (fun c' => negb (Nat.eqb (cl_res c') res)) (listeners w) ->
    wire w' = wire w ++
              (if member_bound c r
               then flat_map (fun res' => emit E res' "member-left"
                                (PMemberLeft (cl_memberId c)))
                      (Room.streams (closed_room c r))
               else []) ->
    minted w' = minted w ->
    change E (Close res) w w'
| change_create roomCode w w' :
    rooms w !! chosen_code E roomCode w = None ->
    heap w' = heap w ++ [Room.mk (chosen_code E roomCode w) (clock E (ticks w))
                           (clock E (S (ticks w))) (clock E (S (S (ticks w)))) [] []] ->
    rooms w' = <[chosen_code E roomCode w := length (heap w)]> (rooms w) ->
    listeners w' = listeners w -> wire w' = wire w -> minted w' = minted w ->
    change E (PostRooms roomCode) w w'
| change_join code memberId name timezone locale room r w w' :
    rooms w !! code = Some room ->
    heap w !! room = Some r ->
    truthy_string memberId && has_member memberId (Room.members r) = false ->
    let member :=
      Member.mk (uuid E (minted w)) name timezone locale (clock E (ticks w)) in
    heap w' = <[room := Room.with_members
                          (map_set (uuid E (minted w)) member (Room.members r)) r]> (heap w) ->
    rooms w' = rooms w -> listeners w' = listeners w ->
    wire w' = wire w ++ flat_map (fun res => emit E res "member-joined" (PMember member))
                          (Room.streams r) ->
    minted w' = S (minted w) ->
    change E (PostJoin code memberId name timezone locale) w w'
| change_reset code startTime room r w w' :
    rooms w !! code = Some room ->
    heap w !! room = Some r ->
    let r' := restarted startTime (clock E (ticks w)) r in
    heap w' = <[room := r']> (heap w) ->
    rooms w' = rooms w -> listeners w' = listeners w ->
    wire w' = wire w ++
              (if valid_time (Room.startTime r')
               then flat_map (fun res => emit E res "timer-update"
                                (PTimer (Room.startTime r') (Room.previousStartTime r')))
                      (Room.streams r')
               else []) ->
    minted w' = minted w ->
    change E (PostReset code startTime) w w'
| change_leave code memberId room r member w w' :
    rooms w !! code = Some room ->
    heap w !! room = Some r ->
    get_member memberId (Room.members r) = Some member ->
    heap w' = <[room := Room.with_members
                          (delete_member memberId (Room.members r)) r]> (heap w) ->
    rooms w' = rooms w -> listeners w' = listeners w ->
    wire w' = wire w ++ flat_map (fun res => emit E res "member-left" (PMemberLeft memberId))
                          (Room.streams r) ->
    minted w' = minted w ->
    change E (PostLeave code memberId) w w'.

(** A code as the registry holds them: not empty, made of capital letters
    and digits. *)
Definition is_room_code (c : string) : bool :=
  negb (String.eqb c "")
  && forallb (fun ch => is_upper ch || is_digit ch) (list_ascii_of_string c).

(** Alice watches the lobby through stream 1. *)
Definition watched : world :=
  after demo_env (GetEvents (Some "LOBBY") (Some "member-0") 1) lounge.

(** A second stream, 2, bound to no member, is open on the lobby. *)
Definition gallery : world :=
  after demo_env (GetEvents (Some "LOBBY") None 2) watched.

(** ** Rooms as the handlers keep them *)

(** The keys of the member map are distinct and each is the id of its
    member; the streams are distinct. *)
Definition tidy (r : Room.t) : Prop :=
  NoDup (map fst (Room.members r))
  /\ (forall k v, (k, v) ∈ Room.members r -> Member.id v = k)
  /\ NoDup (Room.streams r).

(** ** The page: formatting an elapsed time *)

(** [s.padStart(n, fill)] with a one-character filler. *)
Definition padStart (n : nat) (fill : ascii) (s : string) : string :=
  string_of_list_ascii (replicate (n - String.length s) fill) +:+ s.

(** [formatTime(ms)] of the page script, on an integer number of
    milliseconds: [Math.floor(a / b)] is the floor of the quotient, [a % b]
    the remainder with the sign of [a], and [n.toString()] the decimal
    numeral of [n].  This is the code's arithmetic for the integers a
    number holds exactly, those of absolute value below [2 ^ 53]
    ([safe_integer]); beyond them the code's numbers round and, from
    [1e21], print with an exponent. *)
Definition safe_integer (n : Z) : bool := (- 2 ^ 53 <? n) && (n <? 2 ^ 53).

Definition formatTime (ms : Z) : string :=
  let hours := padStart 2 "0" (pretty (ms / 3600000)) in
  let minutes := padStart 2 "0" (pretty (Z.rem ms 3600000 / 60000)) in
  let seconds := padStart 2 "0" (pretty (Z.rem ms 60000 / 1000)) in
  let milliseconds := padStart 3 "0" (pretty (Z.rem ms 1000)) in
  hours +:+ ":" +:+ minutes +:+ ":" +:+ seconds +:+ "." +:+ milliseconds.

(** A decimal digit, and numerals of two and three digits. *)
Definition digit (n : Z) : ascii := ascii_of_nat (48 + Z.to_nat n).

Definition two_digits (n : Z) : string :=
  String (digit (n / 10)) (String (digit (n mod 10)) "").

Definition three_digits (n : Z) : string :=
  String (digit (n / 100)) (two_digits (n mod 100)).

(** ** The page: the time zone most members are in *)

(** [arr.sort(cmp)]: the sort is stable, so it is the insertion of each
    element, in turn, behind the elements it does not come before. *)
Fixpoint sort_insert {A} (cmp : A -> A -> Z) (x : A) (l : list A) : list A :=
  match l with
  | [] => [x]
  | y :: l' => if cmp x y <? 0 then x :: y :: l' else y :: sort_insert cmp x l'
  end.

Definition Array_sort {A} (cmp : A -> A -> Z) (l : list A) : list A :=
  fold_left (fun sorted x => sort_insert cmp x sorted) l [].

(** [counts[tz] = (counts[tz] || 0) + 1], on the object [counts] as the
    list of its properties in the order of their creation. *)
Definition count_zone (counts : list (string * Z)) (tz : string) : list (string * Z) :=
  map_set tz (or_number (map_get tz counts) 0 + 1) counts.

(** [getMajorityTimezone(members)] of the page script.  [Object.entries]
    lists the properties of [counts] in the order of their creation, which
    is the case for keys that are not array indices; and [counts[tz]] reads
    an own property, which is the case for keys that [Object.prototype] does
    not have.  The names of time zones ([UTC], [Europe/Paris]) are such
    keys: they begin with a capital letter ([zone_name]).  For other keys
    (["7"], ["__proto__"]) this function is not the code's, and statements
    about it carry [zone_name] for every member. *)
Definition getMajorityTimezone (members : list Member.t) : option string :=
  if (length members =? 0)%nat then None
  else
    let counts := fold_left count_zone (map Member.timezone members) [] in
    let sorted := Array_sort (fun a b => b.2 - a.2) counts in
    match sorted with
    | [] => None
    | first :: _ => Some first.1
    end.

Definition zone_name (tz : string) : bool :=
  match tz with
  | String c _ => is_upper c
  | EmptyString => false
  end.

(** How many of the members are in a zone. *)
Definition members_in (tz : string) (members : list Member.t) : Z :=
  Z.of_nat (length (List.filter (fun m => String.eqb (Member.timezone m) tz) members)).

(** The entry that is first in the sorted array, found in one pass: the
    first entry with the highest count. *)
Definition leader (best : option (string * Z)) (x : string * Z) : option (string * Z) :=
  match best with
  | None => Some x
  | Some y => if y.2 <? x.2 then Some x else Some y
  end.

(** The counts after the zones [zs], from the counts [acc]; and how often a
    zone is among [zs]. *)
Definition tally (zs : list string) (acc : list (string * Z)) : list (string * Z) :=
  fold_left count_zone zs acc.

Definition seen (z : string) (zs : list string) : Z :=
  Z.of_nat (length (List.filter (fun z' => String.eqb z' z) zs)).

(** ** The page: the room as a viewer holds it *)

(** [roomCreatedAt] and [members] of [setupRoomUI]. *)
Record page := Page {
  roomCreatedAt : option Z;
  page_members : list (string * Member.t)
}.

(** The listeners [setupRoomUI] adds to its [EventSource], on the parsed
    [e.data].  The server sends [init] with a snapshot, [member-joined] with
    a member and [member-left] with a member id; on data of another shape a
    listener throws, and the page is [None]. *)
Definition on_init (data : payload) (p : page) : option page :=
  match data with
  | PInit s =>
      Some (Page (Some (snap_createdAt s))
              (fold_left (fun members m => map_set (Member.id m) m members)
                 (snap_members s) []))
  | _ => None
  end.

Definition on_member_joined (data : payload) (p : page) : option page :=
  match data with
  | PMember m => Some (Page (roomCreatedAt p) (map_set (Member.id m) m (page_members p)))
  | _ => None
  end.

Definition on_member_left (data : payload) (p : page) : option page :=
  match data with
  | PMemberLeft memberId =>
      Some (Page (roomCreatedAt p) (delete_member memberId (page_members p)))
  | _ => None
  end.

(** An event reaches the listener added under its name, if there is one. *)
Definition dispatch (event : string) (data : payload) (p : page) : option page :=
  if String.eqb event "init" then on_init data p
  else if String.eqb event "member-joined" then on_member_joined data p
  else if String.eqb event "member-left" then on_member_left data p
  else Some p.

(** The [EventSource] reading the stream: an [event:] line names the event
    to come, a [data:] line, which ends in a blank line, dispatches it;
    without a name the event is a [message]. *)
Definition hear (st : option string * option page) (c : chunk) :
    option string * option page :=
  match c with
  | EventLine event => (Some event, st.2)
  | DataLine data =>
      (None,
       match st.2 with
       | Some p => dispatch (match st.1 with Some event => event | None => "message" end) data p
       | None => None
       end)
  end.

Definition page_after (p0 : page) (chunks : list chunk) : option string * option page :=
  fold_left hear chunks (None, Some p0).

(** What has been written to a stream. *)
Definition received (res : handle) (written : list (handle * chunk)) : list chunk :=
  map snd (List.filter (fun x => Nat.eqb x.1 res) written).

(** The room as its page should show it. *)
Definition view (r : Room.t) : page :=
  Page (Some (Room.createdAt r)) (Room.members r).

(** A stream request comes with a response object of its own: one the
    server has not written to, that no listener holds and that is in no
    room's streams. *)
Definition unknown_handle (res : handle) (w : world) : Prop :=
  (res ∉ map fst (wire w))
  /\ (forall c, c ∈ listeners w -> cl_res c <> res)
  /\ (forall room r, heap w !! room = Some r -> res ∉ Room.streams r).

Inductive served (E : env) : world -> Prop :=
| served_boot : served E boot
| served_after q w :
    served E w ->
    (forall code memberId res, q = GetEvents code memberId res -> unknown_handle res w) ->
    served E (after E q w).

(** Open streams and listeners go together, one listener to a stream; and
    a stream whose writes succeed has carried the room to its page. *)
Record in_touch (E : env) (w : world) : Prop := InTouch {
  touch_handles : NoDup (map cl_res (listeners w));
  touch_attached :
    forall c, c ∈ listeners w ->
      exists r, heap w !! cl_room c = Some r /\ cl_res c ∈ Room.streams r;
  touch_listened :
    forall room r h, heap w !! room = Some r -> h ∈ Room.streams r ->
      exists c, c ∈ listeners w /\ cl_res c = h /\ cl_room c = room;
  touch_view :
    forall c r p0,
      c ∈ listeners w ->
      (forall ch, throws E (cl_res c) ch = false) ->
      heap w !! cl_room c = Some r ->
      page_after p0 (received (cl_res c) (wire w)) = (None, Some (view r))
}.

(** Bob joins the lobby while streams 1 and 2 are open, and Alice leaves. *)
Definition party : world :=
  after demo_env (PostLeave "LOBBY" (Some "member-0"))
    (after demo_env (PostJoin "LOBBY" None "Bob" "Europe/Paris" "fr") gallery).

(** [unknown_handle], computed. *)
Definition unknown_handleb (res : handle) (w : world) : bool :=
  forallb (fun x => negb (Nat.eqb x.1 res)) (wire w)
  && forallb (fun c => negb (Nat.eqb (cl_res c) res)) (listeners w)
  && forallb (fun r => forallb (fun h => negb (Nat.eqb h res)) (Room.streams r)) (heap w).

(** ** The page: its first state and its stopwatch *)

(** [roomCreatedAt] and [members] as [setupRoomUI] first sets them, from the
    [roomState] it is given, if any. *)
Definition initial_page (initialRoomState : option snapshot) : page :=
  match initialRoomState with
  | Some s =>
      Page (Some (snap_createdAt s))
        (fold_left (fun members m => map_set (Member.id m) m members) (snap_members s) [])
  | None => Page None []
  end.

(** What [initRoomPage] hands to [setupRoomUI] from the answer of the join
    route: the member and the page's first state; nothing if the answer is
    not [ok].  The join route sends no other body with an [ok] status. *)
Definition joined_page (resp : response) : option (Member.t * page) :=
  match resp with
  | Json status (Joined member roomState) =>
      if ((200 <=? status) && (status <=? 299))%nat
      then Some (member, initial_page (Some roomState))
      else None
  | _ => None
  end.

(** The text [tick] puts in the stopwatch element at the time [now];
    [None] if it leaves the stopwatch alone, [roomCreatedAt] being [null] or
    [0]. *)
Definition stopwatch (now : Z) (p : page) : option string :=
  match roomCreatedAt p with
  | Some createdAt =>
      if createdAt =? 0 then None else Some (formatTime (now - createdAt))
  | None => None
  end.

(** The party, after a reset to a start in the future. *)
Definition afterparty : world :=
  after demo_env (PostReset "LOBBY" (Some 1800000000000)) party.

(** ** The index page and the way into a room *)

Definition is_alnum (c : ascii) : bool := is_upper c || is_lower c || is_digit c.

(** A code of letters, digits, hyphens and underscores. *)
Definition plain_code (code : string) : bool :=
  forallb (fun c => is_alnum c || Ascii.eqb c "-" || Ascii.eqb c "_")
    (list_ascii_of_string code).


(** The code [joinRoom] puts in the address of the room page, for the
    trimmed contents of the two fields: none without a name or a code. *)
Definition joinRoom (name roomCode : string) : option string :=
  let roomCode := toUpperCase roomCode in
  if String.eqb name "" then None
  else if String.eqb roomCode "" then None
  else Some roomCode.

(** The request [initRoomPage] sends for the [code] and [name] of its
    address: none if one is missing, else a join without a member id.  The
    code goes into the path of the request as it is, and the route takes it
    out of the path decoded: the route's code is this code when it is made
    of letters, digits, hyphens and underscores ([plain_code]), which the
    address carries and the route decodes unchanged; for another code
    ([LO%42BY]) the request that arrives is not the one given here. *)
Definition initRoomPage (code name timezone locale : string) : option request :=
  if String.eqb code "" || String.eqb name "" then None
  else Some (PostJoin code None name timezone locale).

(** ** Properties of the runtime *)

Lemma tell_nil w : tell [] [] w = w.
Proof. destruct w; unfold tell, with_console, with_wire; cbn. by rewrite !app_nil_r. Qed.

Lemma tell_tell ws ls ws' ls' w :
  tell ws' ls' (tell ws ls w) = tell (ws ++ ws') (ls ++ ls') w.
Proof. destruct w; unfold tell, with_console, with_wire; cbn. by rewrite !app_assoc. Qed.

Lemma sendSSE_run E res event data w :
  sendSSE E res event data w
  = (Ok tt, tell (emit E res event data) (complain E res event data) w).
Proof.
  unfold sendSSE, try_catch, bind, res_write, log, emit, complain, tell.
  destruct (throws E res (EventLine event)) eqn:H1; cbn.
  - destruct w; cbn. by rewrite app_nil_r.
  - destruct (throws E res (DataLine data)) eqn:H2; cbn.
    + destruct w; reflexivity.
    + destruct w; cbn. by rewrite <- app_assoc, app_nil_r.
Qed.

Lemma for_of_sendSSE_run E event data hs w :
  for_of hs (fun res => sendSSE E res event data) w
  = (Ok tt, tell (flat_map (fun res => emit E res event data) hs)
                 (flat_map (fun res => complain E res event data) hs) w).
Proof.
  revert w. induction hs as [|h hs IH]; intros w; cbn.
  - by rewrite tell_nil.
  - unfold bind. rewrite sendSSE_run, IH. by rewrite tell_tell.
Qed.

Lemma broadcast_run E room r event data w :
  heap w !! room = Some r ->
  broadcast E room event data w
  = (Ok tt, tell (flat_map (fun res => emit E res event data) (Room.streams r))
                 (LogBroadcast (Room.code r) event
                  :: flat_map (fun res => complain E res event data) (Room.streams r)) w).
Proof.
  intros Hr. unfold broadcast, bind, deref, log. rewrite Hr.
  rewrite for_of_sendSSE_run.
  destruct w; unfold tell, with_console, with_wire; cbn.
  by rewrite <- app_assoc.
Qed.

(** ** Running the monad, one call at a time *)

Lemma bind_run {A B} (m : M A) (k : A -> M B) w a w' :
  m w = (Ok a, w') -> bind m k w = k a w'.
Proof. intros H. unfold bind. by rewrite H. Qed.

Lemma bind_throw {A B} (m : M A) (k : A -> M B) w e w' :
  m w = (Throw e, w') -> bind m k w = (Throw e, w').
Proof. intros H. unfold bind. by rewrite H. Qed.

Lemma bind_bind {A B C} (m : M A) (f : A -> M B) (g : B -> M C) w :
  bind (bind m f) g w = bind m (fun a => bind (f a) g) w.
Proof. unfold bind. by destruct (m w) as [[a|e] w']. Qed.

Lemma deref_run room r w :
  heap w !! room = Some r -> deref room w = (Ok r, w).
Proof. intros H. unfold deref. by rewrite H. Qed.

Lemma mutate_run room f r w :
  heap w !! room = Some r ->
  mutate room f w = (Ok tt, with_heap (<[room := f r]> (heap w)) w).
Proof. intros H. unfold mutate. by rewrite H. Qed.

Ltac wsimpl :=
  cbn [heap rooms listeners wire console ticks drawn minted
       with_heap with_rooms with_listeners with_wire with_console
       with_ticks with_drawn with_minted tell].

Ltac world_eq :=
  cbv [tell with_heap with_rooms with_listeners with_wire with_console
       with_ticks with_drawn with_minted
       heap rooms listeners wire console ticks drawn minted];
  rewrite <- ?app_assoc, ?app_nil_r; reflexivity.

Ltac world_eq_ex :=
  cbv [tell with_heap with_rooms with_listeners with_wire with_console
       with_ticks with_drawn with_minted
       heap rooms listeners wire console ticks drawn minted];
  rewrite <- ?app_assoc, ?(@app_nil_r (handle * chunk)); reflexivity.

Ltac solve_lookup :=
  wsimpl;
  first
    [ eassumption
    | apply list_lookup_insert_eq; rewrite ?length_insert; assumption ].

Ltac step :=
  cbv beta iota;
  rewrite ?bind_bind;
  match goal with
  | |- context [@bind ?A ?B ?m ?k ?w] =>
      erewrite (@bind_run A B m k w)
        by first
             [ eapply deref_run; solve_lookup
             | eapply mutate_run; solve_lookup
             | eapply broadcast_run; solve_lookup
             | apply sendSSE_run
             | reflexivity ]
  end.

Lemma post_reset_run E code startTime w room r :
  rooms w !! code = Some room ->
  heap w !! room = Some r ->
  let now := clock E (ticks w) in
  let r' := restarted startTime now r in
  let w' := with_heap (<[room := r']> (heap w)) (with_ticks (S (ticks w)) w) in
  post_reset E code startTime w
  = if valid_time (Room.startTime r')
    then (Ok (Json 200 (ResetTo (Room.startTime r'))),
          tell (flat_map (fun res => emit E res "timer-update"
                            (PTimer (Room.startTime r') (Room.previousStartTime r')))
                  (Room.streams r'))
               (LogTimerReset code (Room.startTime r')
                :: LogBroadcast (Room.code r') "timer-update"
                :: flat_map (fun res => complain E res "timer-update"
                               (PTimer (Room.startTime r') (Room.previousStartTime r')))
                     (Room.streams r')) w')
    else (Throw RangeError, w').
Proof.
  intros Hc Hr now r' w'.
  assert (Hlt : (room < length (heap w))%nat) by (eapply lookup_lt_Some; eauto).
  unfold post_reset.
  step. cbn [rooms_get]. rewrite Hc. step. step.
  assert (Hbank : (if Room.startTime r <=? clock E (ticks w)
                   then mutate room (Room.with_previousStartTime (Room.startTime r))
                   else ret tt) (with_ticks (S (ticks w)) w)
                  = (Ok tt, with_heap (<[room := banked now r]> (heap w))
                              (with_ticks (S (ticks w)) w))).
  { unfold banked. fold now. destruct (Room.startTime r <=? now).
    - erewrite mutate_run by solve_lookup. reflexivity.
    - unfold ret. f_equal. unfold with_heap. cbn. rewrite list_insert_id by done. reflexivity. }
  rewrite (bind_run _ _ _ _ _ Hbank).
  step. step. wsimpl. rewrite list_insert_insert_eq.
  change (Room.with_startTime (or_number startTime (clock E (ticks w))) (banked now r)) with r'.
  unfold toISOString. destruct (valid_time (Room.startTime r')) eqn:Hv.
  - step. step. step. step. step. unfold ret, w'. world_eq.
  - unfold bind, throw, w'. world_eq.
Qed.

(** ** The reset route *)

Lemma express_world h w : snd (express h w) = snd (h w).
Proof. unfold express. by destruct (h w) as [[?|?] ?]. Qed.

Lemma post_reset_world E code startTime w room r :
  rooms w !! code = Some room ->
  heap w !! room = Some r ->
  let w' := snd (express (post_reset E code startTime) w) in
  heap w' = <[room := restarted startTime (clock E (ticks w)) r]> (heap w)
  /\ rooms w' = rooms w
  /\ listeners w' = listeners w.
Proof.
  intros Hc Hr w'. unfold w'.
  rewrite express_world, (post_reset_run E code startTime w room r Hc Hr).
  by destruct (valid_time _).
Qed.

(** C1: on a reset of an existing room, with [now] the reading of the clock
    and [currentStart] the room's [startTime] at the call: if
    [currentStart <= now] the room's [previousStartTime] becomes
    [currentStart], and if [currentStart > now] it is left as it was; the
    equal case counts as expired. *)
Theorem reset_banks_expired_start E code startTime w room r :
  rooms w !! code = Some room ->
  heap w !! room = Some r ->
  let now := clock E (ticks w) in
  let currentStart := Room.startTime r in
  let w' := snd (express (post_reset E code startTime) w) in
  exists r',
    rooms w' !! code = Some room /\ heap w' !! room = Some r'
    /\ (currentStart <= now -> Room.previousStartTime r' = currentStart)
    /\ (currentStart > now -> Room.previousStartTime r' = Room.previousStartTime r).
Proof.
  intros Hc Hr now currentStart w'.
  destruct (post_reset_world E code startTime w room r Hc Hr) as (Hh & Hrs & _).
  fold w' in Hh, Hrs. fold now in Hh.
  exists (restarted startTime now r). rewrite Hh, Hrs.
  split; [done|]. split.
  { apply list_lookup_insert_eq. eapply lookup_lt_Some; eauto. }
  unfold restarted, banked, currentStart. cbn.
  destruct (Z.leb_spec (Room.startTime r) now); cbn; split; intros; (done || lia).
Qed.

Lemma reset_banks_expired_start_witness :
  (exists r',
      heap (snd (express (post_reset demo_env "LOBBY" (Some 1800000000000)) lobby)) !! 0%nat
      = Some r'
      /\ Room.previousStartTime r' = 1700000000001)
  /\ (exists r',
        heap (snd (express (post_reset demo_env "LOBBY" None) scheduled)) !! 0%nat = Some r'
        /\ Room.previousStartTime r' = 1700000000001).
Proof.
  split.
  - destruct (reset_banks_expired_start demo_env "LOBBY" (Some 1800000000000) lobby 0%nat
                (Room.mk "LOBBY" 1700000000000 1700000000001 1700000000002 [] [])
                eq_refl eq_refl) as (r' & _ & Hr' & Hexpired & _).
    exists r'. split; [exact Hr'|]. apply Hexpired. vm_compute. discriminate.
  - destruct (reset_banks_expired_start demo_env "LOBBY" None scheduled 0%nat
                (Room.mk "LOBBY" 1700000000000 1800000000000 1700000000001 [] [])
                eq_refl eq_refl) as (r' & _ & Hr' & _ & Hpending).
    exists r'. split; [exact Hr'|]. apply Hpending. vm_compute. reflexivity.
Defined.

(** C10: a reset of an existing room changes at most that room's
    [startTime] and [previousStartTime]: its [code], [createdAt], member map
    and stream set are as before, every other room object is untouched, and
    the registry is the same. *)
Theorem reset_frame E code startTime w room r :
  rooms w !! code = Some room ->
  heap w !! room = Some r ->
  let w' := snd (express (post_reset E code startTime) w) in
  (exists r',
      heap w' !! room = Some r'
      /\ Room.code r' = Room.code r
      /\ Room.createdAt r' = Room.createdAt r
      /\ Room.members r' = Room.members r
      /\ Room.streams r' = Room.streams r)
  /\ (forall other, other <> room -> heap w' !! other = heap w !! other)
  /\ length (heap w') = length (heap w)
  /\ rooms w' = rooms w
  /\ listeners w' = listeners w.
Proof.
  intros Hc Hr w'.
  destruct (post_reset_world E code startTime w room r Hc Hr) as (Hh & Hrs & Hls).
  fold w' in Hh, Hrs, Hls. rewrite Hh, Hrs, Hls.
  split; [|split; [|split]].
  - eexists. split.
    + apply list_lookup_insert_eq. eapply lookup_lt_Some; eauto.
    + unfold restarted, banked. by destruct (_ <=? _).
  - intros other Hne. by apply list_lookup_insert_ne.
  - apply length_insert.
  - done.
Qed.

Lemma reset_frame_witness :
  let w' := snd (express (post_reset demo_env "LOBBY" None) lobby) in
  (exists r',
      heap w' !! 0%nat = Some r'
      /\ Room.code r' = "LOBBY"
      /\ Room.createdAt r' = 1700000000000
      /\ Room.members r' = []
      /\ Room.streams r' = [])
  /\ (forall other, other <> 0%nat -> heap w' !! other = heap lobby !! other)
  /\ length (heap w') = length (heap lobby)
  /\ rooms w' = rooms lobby
  /\ listeners w' = listeners lobby.
Proof.
  exact (reset_frame demo_env "LOBBY" None lobby 0%nat
           (Room.mk "LOBBY" 1700000000000 1700000000001 1700000000002 [] [])
           eq_refl eq_refl).
Defined.

Lemma post_reset_startTime E code startTime w room r :
  rooms w !! code = Some room ->
  heap w !! room = Some r ->
  exists r',
    heap (snd (express (post_reset E code startTime) w)) !! room = Some r'
    /\ Room.startTime r' = or_number startTime (clock E (ticks w)).
Proof.
  intros Hc Hr.
  destruct (post_reset_world E code startTime w room r Hc Hr) as (Hh & _).
  rewrite Hh. eexists. split.
  - apply list_lookup_insert_eq. eapply lookup_lt_Some; eauto.
  - reflexivity.
Qed.

Lemma or_number_provided z now : z <> 0 -> or_number (Some z) now = z.
Proof. intros Hz. unfold or_number, truthy_number. by destruct (Z.eqb_spec z 0). Qed.

Lemma or_number_absent now : or_number None now = now.
Proof. reflexivity. Qed.

Lemma or_number_zero now : or_number (Some 0) now = now.
Proof. reflexivity. Qed.

(** C5, at a request [{startTime: 0}]: the room on which the reset was
    called has [startTime] equal to the reading of the clock, not to the
    requested 0. *)
Theorem reset_to_zero_takes_the_clock :
  let w' := snd (express (post_reset demo_env "LOBBY" (Some 0)) lobby) in
  clock demo_env (ticks lobby) = 1700000000004
  /\ (Room.startTime <$> heap w' !! 0%nat) = Some 1700000000004
  /\ (Room.startTime <$> heap w' !! 0%nat) <> Some 0.
Proof. vm_compute. repeat split; discriminate. Qed.

(** ** Broadcasting *)

Lemma emit_addressed E res event data x :
  x ∈ emit E res event data -> x.1 = res.
Proof.
  unfold emit. destruct (throws E res (EventLine event)).
  - by intros ?%elem_of_nil.
  - destruct (throws E res (DataLine data));
      rewrite ?elem_of_cons, elem_of_nil; intros H; by destruct_or!; subst.
Qed.

Lemma emit_delivered E res event data :
  throws E res (EventLine event) = false ->
  throws E res (DataLine data) = false ->
  emit E res event data = [(res, EventLine event); (res, DataLine data)].
Proof. intros H1 H2. unfold emit. by rewrite H1, H2. Qed.

(** C7: a broadcast to the streams of a room returns normally whatever
    writes throw, changes no room and no registry entry, and puts on the
    wire, for every stream in turn, what that stream's own writes accept;
    so a stream whose writes succeed receives the event even if the writes
    of every other stream throw, and the handler that called [broadcast]
    goes on with what follows the call. *)
Theorem broadcast_isolates_write_failures E room r event data w :
  heap w !! room = Some r ->
  exists w',
    broadcast E room event data w = (Ok tt, w')
    /\ heap w' = heap w
    /\ rooms w' = rooms w
    /\ (forall (B : Type) (k : unit -> M B),
          bind (broadcast E room event data) k w = k tt w')
    /\ wire w' = wire w ++ flat_map (fun res => emit E res event data) (Room.streams r)
    /\ (forall res,
          res ∈ Room.streams r ->
          throws E res (EventLine event) = false ->
          throws E res (DataLine data) = false ->
          exists before after,
            wire w' = before ++ [(res, EventLine event); (res, DataLine data)] ++ after).
Proof.
  intros Hr. eexists. split; [by apply broadcast_run|].
  split; [done|]. split; [done|].
  split; [intros B k; by apply bind_run, broadcast_run|].
  split; [done|].
  intros res Hin H1 H2. cbn.
  apply list_elem_of_split in Hin as (l1 & l2 & ->).
  rewrite flat_map_app. cbn. rewrite (emit_delivered E res event data H1 H2).
  eexists (wire w ++ flat_map _ l1), _.
  by rewrite <- !app_assoc.
Qed.

Lemma broadcast_isolates_write_failures_witness :
  exists w',
    broadcast flaky_env 0%nat "timer-update" (PTimer 5 4) hall = (Ok tt, w')
    /\ heap w' = heap hall
    /\ rooms w' = rooms hall
    /\ (forall (B : Type) (k : unit -> M B),
          bind (broadcast flaky_env 0%nat "timer-update" (PTimer 5 4)) k hall = k tt w')
    /\ wire w' = wire hall ++ flat_map (fun res => emit flaky_env res "timer-update" (PTimer 5 4))
                               [1%nat; 2%nat; 3%nat]
    /\ (forall res,
          res ∈ [1%nat; 2%nat; 3%nat] ->
          throws flaky_env res (EventLine "timer-update") = false ->
          throws flaky_env res (DataLine (PTimer 5 4)) = false ->
          exists before after,
            wire w' = before ++ [(res, EventLine "timer-update"); (res, DataLine (PTimer 5 4))]
                        ++ after).
Proof.
  exact (broadcast_isolates_write_failures flaky_env 0%nat
           (Room.mk "LOBBY" 1700000000000 1700000000001 1700000000002 []
              [1%nat; 2%nat; 3%nat])
           "timer-update" (PTimer 5 4) hall eq_refl).
Defined.

Example broadcast_past_a_dead_stream :
  wire (snd (broadcast flaky_env 0%nat "timer-update" (PTimer 5 4) (with_wire [] hall)))
  = [(1%nat, EventLine "timer-update"); (1%nat, DataLine (PTimer 5 4));
     (3%nat, EventLine "timer-update"); (3%nat, DataLine (PTimer 5 4))].
Proof. reflexivity. Qed.

(** ** The stream endpoint *)

Lemma elem_of_set_add x s : x ∈ set_add x s.
Proof.
  unfold set_add. destruct (existsb (Nat.eqb x) s) eqn:Hex.
  - apply existsb_exists in Hex as (y & Hy & ->%Nat.eqb_eq). by apply list_elem_of_In.
  - apply elem_of_app. right. by apply list_elem_of_singleton.
Qed.

Lemma get_events_missing E code memberId res w :
  match code with Some c => rooms w !! c | None => None end = None ->
  get_events E code memberId res w
  = (Ok (Status 404), tell [] [LogSSENotFound code] w).
Proof.
  intros Hc. unfold get_events. step. cbn [rooms_get]. rewrite Hc.
  assert (forall (k : M response), match code with Some _ => k | None => k end = k) as ->
    by (by destruct code).
  step. unfold ret. world_eq.
Qed.

Lemma get_events_run E c memberId res w room r :
  rooms w !! c = Some room ->
  heap w !! room = Some r ->
  let r' := Room.with_streams (set_add res (Room.streams r)) r in
  get_events E (Some c) memberId res w
  = (Ok EventStream,
     with_listeners (listeners w ++ [Closure c memberId room res])
       (tell (emit E res "init" (PInit (snapshot_of r')))
             (LogSSEConnected c memberId :: complain E res "init" (PInit (snapshot_of r')))
             (with_heap (<[room := r']> (heap w)) w))).
Proof.
  intros Hc Hr r'.
  assert (Hlt : (room < length (heap w))%nat) by (eapply lookup_lt_Some; eauto).
  unfold get_events. step. cbn [rooms_get]. rewrite Hc.
  step. step. step. fold r'. step. step. unfold ret. world_eq.
Qed.

Lemma received_app res a b : received res (a ++ b) = received res a ++ received res b.
Proof. unfold received. by rewrite List.filter_app, map_app. Qed.

Lemma received_none res written : res ∉ map fst written -> received res written = [].
Proof.
  unfold received. induction written as [|[h c] written IH]; cbn; [done|].
  intros [Hne Hin]%not_elem_of_cons. destruct (Nat.eqb_spec h res); [done|by apply IH].
Qed.

Lemma received_emit_other E res h event data :
  h <> res -> received h (emit E res event data) = [].
Proof.
  intros Hne. apply received_none. intros Hin.
  apply list_elem_of_fmap in Hin as (x & -> & Hx). by apply emit_addressed in Hx.
Qed.




(** ** Membership *)

Lemma has_member_get k (m : list (string * Member.t)) :
  has_member k m = true -> exists member, get_member k m = Some member.
Proof.
  destruct k as [k|]; [|done]. unfold has_member, get_member, map_has.
  destruct (map_get k m); [eauto|done].
Qed.

Lemma get_member_has k (m : list (string * Member.t)) member :
  get_member k m = Some member -> has_member k m = true.
Proof.
  destruct k as [k|]; [|done]. unfold has_member, get_member, map_has.
  by intros ->.
Qed.

Lemma post_leave_absent E code memberId w room r :
  rooms w !! code = Some room ->
  heap w !! room = Some r ->
  has_member memberId (Room.members r) = false ->
  post_leave E code memberId w = (Ok (Status 204), w).
Proof.
  intros Hc Hr Hm. unfold post_leave. step. cbn [rooms_get]. rewrite Hc.
  step. rewrite Hm. step. reflexivity.
Qed.

Lemma post_leave_present E code memberId w room r member :
  rooms w !! code = Some room ->
  heap w !! room = Some r ->
  get_member memberId (Room.members r) = Some member ->
  let r' := Room.with_members (delete_member memberId (Room.members r)) r in
  post_leave E code memberId w
  = (Ok (Status 204),
     tell (flat_map (fun res => emit E res "member-left" (PMemberLeft memberId))
             (Room.streams r))
          (LogMemberLeft code (Member.name member) memberId
           :: LogBroadcast (Room.code r) "member-left"
           :: flat_map (fun res => complain E res "member-left" (PMemberLeft memberId))
                (Room.streams r))
          (with_heap (<[room := r']> (heap w)) w)).
Proof.
  intros Hc Hr Hm r'.
  assert (Hlt : (room < length (heap w))%nat) by (eapply lookup_lt_Some; eauto).
  unfold post_leave. step. cbn [rooms_get]. rewrite Hc.
  step. rewrite (get_member_has _ _ _ Hm), Hm.
  repeat step. unfold ret. world_eq.
Qed.

Lemma post_leave_no_room E code memberId w :
  rooms w !! code = None ->
  post_leave E code memberId w = (Ok (Status 204), w).
Proof.
  intros Hc. unfold post_leave. step. cbn [rooms_get]. rewrite Hc. step. reflexivity.
Qed.

(** C9: a leave on an existing room with a member id that is not one of its
    members changes nothing, broadcasts nothing and is answered 204, the
    answer also given when the member was there and has been removed. *)
Theorem leave_of_a_stranger_is_a_noop E code memberId w room r :
  rooms w !! code = Some room ->
  heap w !! room = Some r ->
  (has_member memberId (Room.members r) = false ->
   express (post_leave E code memberId) w = (Status 204, w))
  /\ (has_member memberId (Room.members r) = true ->
      exists w',
        express (post_leave E code memberId) w = (Status 204, w')
        /\ heap w' !! room
           = Some (Room.with_members (delete_member memberId (Room.members r)) r)).
Proof.
  intros Hc Hr. split; intros Hm.
  - unfold express. by rewrite (post_leave_absent E code memberId w room r).
  - destruct (has_member_get _ _ Hm) as [member Hg].
    unfold express. rewrite (post_leave_present E code memberId w room r member) by done.
    eexists. split; [done|]. cbn.
    apply list_lookup_insert_eq. eapply lookup_lt_Some; eauto.
Qed.

Lemma leave_of_a_stranger_is_a_noop_witness :
  express (post_leave demo_env "LOBBY" (Some "nobody")) lounge = (Status 204, lounge)
  /\ exists w',
       express (post_leave demo_env "LOBBY" (Some "member-0")) lounge = (Status 204, w')
       /\ heap w' !! 0%nat
          = Some (Room.mk "LOBBY" 1700000000000 1700000000001 1700000000002 [] []).
Proof.
  split.
  - exact (proj1 (leave_of_a_stranger_is_a_noop demo_env "LOBBY" (Some "nobody") lounge 0%nat
                    (Room.mk "LOBBY" 1700000000000 1700000000001 1700000000002
                       [("member-0", Member.mk "member-0" "Alice" "UTC" "en" 1700000000004)] [])
                    eq_refl eq_refl) eq_refl).
  - exact (proj2 (leave_of_a_stranger_is_a_noop demo_env "LOBBY" (Some "member-0") lounge 0%nat
                    (Room.mk "LOBBY" 1700000000000 1700000000001 1700000000002
                       [("member-0", Member.mk "member-0" "Alice" "UTC" "en" 1700000000004)] [])
                    eq_refl eq_refl) eq_refl).
Defined.

Lemma map_set_fresh {V} k (v : V) m :
  map_has k m = false -> map_set k v m = m ++ [(k, v)].
Proof.
  unfold map_has. induction m as [|[k' v'] m IH]; cbn; [done|].
  destruct (String.eqb k' k); [done|]. intros H. by rewrite IH.
Qed.

Lemma post_join_missing E code memberId name timezone locale w :
  rooms w !! code = None ->
  post_join E code memberId name timezone locale w
  = (Ok (Status 404), tell [] [LogJoinFailed code] w).
Proof.
  intros Hc. unfold post_join. step. cbn [rooms_get]. rewrite Hc.
  repeat step. unfold ret. world_eq.
Qed.

Lemma post_join_reconnect E code memberId name timezone locale w room r member :
  rooms w !! code = Some room ->
  heap w !! room = Some r ->
  truthy_string memberId = true ->
  get_member memberId (Room.members r) = Some member ->
  post_join E code memberId name timezone locale w
  = (Ok (Json 200 (Joined member (snapshot_of r))),
     tell [] [LogReconnected code (Member.name member) (Member.id member)] w).
Proof.
  intros Hc Hr Ht Hm. unfold post_join. step. cbn [rooms_get]. rewrite Hc.
  step. rewrite Ht, (get_member_has _ _ _ Hm), Hm. cbn [andb].
  repeat step. unfold ret. world_eq.
Qed.

Lemma post_join_fresh E code memberId name timezone locale w room r :
  rooms w !! code = Some room ->
  heap w !! room = Some r ->
  truthy_string memberId && has_member memberId (Room.members r) = false ->
  let member := Member.mk (uuid E (minted w)) name timezone locale (clock E (ticks w)) in
  let r' := Room.with_members (map_set (Member.id member) member (Room.members r)) r in
  post_join E code memberId name timezone locale w
  = (Ok (Json 200 (Joined member (snapshot_of r'))),
     tell (flat_map (fun res => emit E res "member-joined" (PMember member)) (Room.streams r))
          (LogJoined code name (Member.id member)
           :: LogBroadcast (Room.code r) "member-joined"
           :: flat_map (fun res => complain E res "member-joined" (PMember member))
                (Room.streams r))
          (with_heap (<[room := r']> (heap w))
             (with_ticks (S (ticks w)) (with_minted (S (minted w)) w)))).
Proof.
  intros Hc Hr Hm member r'.
  assert (Hlt : (room < length (heap w))%nat) by (eapply lookup_lt_Some; eauto).
  unfold post_join. step. cbn [rooms_get]. rewrite Hc.
  step. rewrite Hm. repeat step. unfold ret. world_eq.
Qed.

(** ** Creating a room *)

Lemma strip_non_alnum_chars s c :
  In c (list_ascii_of_string (strip_non_alnum s)) -> is_upper c || is_digit c = true.
Proof.
  induction s as [|a s IH]; cbn; [done|].
  destruct (is_upper a || is_digit a) eqn:Ha; [|done].
  cbn. intros [<-|H]; [done|by apply IH].
Qed.

Lemma post_rooms_code_run E roomCode (k : string -> M response) w :
  bind (match roomCode with
        | Some requested =>
            if negb (truthy_string roomCode) then generateRoomCode E
            else
              let normalized := strip_non_alnum (toUpperCase requested) in
              if negb (truthy_string (Some normalized)) then generateRoomCode E
              else ret normalized
        | None => generateRoomCode E
        end) k w
  = k (chosen_code E roomCode w)
      (if needs_random roomCode then with_drawn (drawn w + 3) w else w).
Proof.
  unfold chosen_code, needs_random, normalize, generated_code.
  destruct roomCode as [requested|]; [|reflexivity].
  cbn [truthy_string].
  destruct (String.eqb requested "") eqn:H1; cbn [negb]; [reflexivity|].
  cbn zeta. destruct (String.eqb (strip_non_alnum (toUpperCase requested)) "");
    reflexivity.
Qed.

Lemma post_rooms_taken E roomCode w room :
  rooms w !! chosen_code E roomCode w = Some room ->
  post_rooms E roomCode w
  = (Ok (Json 400 (ErrorMsg "Room code already exists")),
     tell [] [LogCreateFailed (chosen_code E roomCode w)]
       (if needs_random roomCode then with_drawn (drawn w + 3) w else w)).
Proof.
  intros Hc. unfold post_rooms. rewrite post_rooms_code_run.
  step. unfold rooms_has.
  assert (rooms (if needs_random roomCode then with_drawn (drawn w + 3) w else w)
          = rooms w) as -> by (by destruct (needs_random roomCode)).
  rewrite Hc. repeat step. unfold ret. world_eq.
Qed.

Lemma post_rooms_created E roomCode w :
  rooms w !! chosen_code E roomCode w = None ->
  let code := chosen_code E roomCode w in
  let room := Room.mk code (clock E (ticks w)) (clock E (S (ticks w)))
                (clock E (S (S (ticks w)))) [] [] in
  post_rooms E roomCode w
  = (Ok (Json 200 (Created code (clock E (S (S (S (ticks w))))))),
     tell [] [LogRoomCreated code]
       (with_rooms (<[code := length (heap w)]> (rooms w))
          (with_heap (heap w ++ [room])
             (with_ticks (S (S (S (S (ticks w)))))
                (if needs_random roomCode then with_drawn (drawn w + 3) w else w))))).
Proof.
  intros Hc code room. unfold post_rooms. rewrite post_rooms_code_run.
  step. unfold rooms_has.
  assert (rooms (if needs_random roomCode then with_drawn (drawn w + 3) w else w)
          = rooms w) as -> by (by destruct (needs_random roomCode)).
  rewrite Hc. fold code.
  destruct (needs_random roomCode);
    repeat (step; wsimpl); unfold ret; world_eq.
Qed.


Lemma chosen_code_requested E requested w :
  chosen_code E (Some requested) w
  = if String.eqb (normalize requested) "" then generated_code E w
    else normalize requested.
Proof.
  unfold chosen_code, needs_random.
  destruct (String.eqb_spec requested "") as [->|_]; [reflexivity|].
  by destruct (String.eqb (normalize requested) "").
Qed.

Example normalize_sample : normalize "lob-by 7!" = "LOBBY7".
Proof. reflexivity. Qed.

Example generated_code_sample : generated_code demo_env boot = "2A2A2A".
Proof. reflexivity. Qed.

(** C4, as stated, fails: the lobby exists, a room is requested under
    [lobby], and the answer is 400 with the registry as it was; no room is
    created under a generated code. *)
Lemma create_with_a_taken_code_is_refused :
  express (post_rooms demo_env (Some "lobby")) lobby
  = (Json 400 (ErrorMsg "Room code already exists"),
     tell [] [LogCreateFailed "LOBBY"] lobby)
  /\ ~ (exists code createdAt w',
          express (post_rooms demo_env (Some "lobby")) lobby
          = (Json 200 (Created code createdAt), w')).
Proof.
  assert (H : express (post_rooms demo_env (Some "lobby")) lobby
              = (Json 400 (ErrorMsg "Room code already exists"),
                 tell [] [LogCreateFailed "LOBBY"] lobby)) by reflexivity.
  split; [exact H|]. intros (code & createdAt & w' & H'). rewrite H in H'. discriminate.
Qed.

(** C4, amended: the requested code, of ASCII characters, is normalized to
    its letters, in upper case, and digits; an empty result is replaced by a
    generated code; if the code so chosen is taken, the answer is 400 and
    neither the registry nor any room changes; otherwise the room is created
    under that code.  The requested code is ASCII text because that is where
    [toUpperCase] is the upper-casing of the route. *)
Theorem create_normalizes_then_refuses_or_creates E requested w :
  ascii_text requested = true ->
  let normalized := strip_non_alnum (toUpperCase requested) in
  let code := if String.eqb normalized "" then generated_code E w else normalized in
  (forall c, In c (list_ascii_of_string normalized) -> is_upper c || is_digit c = true)
  /\ (forall room,
        rooms w !! code = Some room ->
        exists w',
          express (post_rooms E (Some requested)) w
          = (Json 400 (ErrorMsg "Room code already exists"), w')
          /\ rooms w' = rooms w /\ heap w' = heap w)
  /\ (rooms w !! code = None ->
      exists w' createdAt r,
        express (post_rooms E (Some requested)) w = (Json 200 (Created code createdAt), w')
        /\ rooms w' = <[code := length (heap w)]> (rooms w)
        /\ heap w' = heap w ++ [r]
        /\ Room.code r = code).
Proof.
  intros _ normalized code.
  assert (Hcode : chosen_code E (Some requested) w = code)
    by apply chosen_code_requested.
  split; [apply strip_non_alnum_chars|]. split.
  - intros room Hc. rewrite <- Hcode in Hc.
    unfold express. rewrite (post_rooms_taken E (Some requested) w room Hc).
    eexists. split; [by rewrite Hcode|].
    by destruct (needs_random (Some requested)).
  - intros Hc. rewrite <- Hcode in Hc.
    unfold express. rewrite (post_rooms_created E (Some requested) w Hc).
    rewrite Hcode. eexists _, _, _. split; [done|].
    by destruct (needs_random (Some requested)).
Qed.

Lemma create_normalizes_then_refuses_or_creates_witness :
  (exists w',
     express (post_rooms demo_env (Some "lob-by")) lobby
     = (Json 400 (ErrorMsg "Room code already exists"), w')
     /\ rooms w' = rooms lobby /\ heap w' = heap lobby)
  /\ (exists w' createdAt r,
        express (post_rooms demo_env (Some "d e n")) lobby
        = (Json 200 (Created "DEN" createdAt), w')
        /\ rooms w' = <["DEN" := 1%nat]> (rooms lobby)
        /\ heap w' = heap lobby ++ [r]
        /\ Room.code r = "DEN")
  /\ (exists w' createdAt r,
        express (post_rooms demo_env (Some "?!")) lobby
        = (Json 200 (Created "2A2A2A" createdAt), w')
        /\ rooms w' = <["2A2A2A" := 1%nat]> (rooms lobby)
        /\ heap w' = heap lobby ++ [r]
        /\ Room.code r = "2A2A2A").
Proof.
  split; [|split].
  - exact (proj1 (proj2 (create_normalizes_then_refuses_or_creates demo_env "lob-by" lobby
                           eq_refl))
             0%nat eq_refl).
  - exact (proj2 (proj2 (create_normalizes_then_refuses_or_creates demo_env "d e n" lobby
                           eq_refl))
             eq_refl).
  - exact (proj2 (proj2 (create_normalizes_then_refuses_or_creates demo_env "?!" lobby
                           eq_refl))
             eq_refl).
Defined.

Lemma post_rooms_timestamps E roomCode w :
  rooms w !! chosen_code E roomCode w = None ->
  exists r,
    heap (snd (express (post_rooms E roomCode) w)) !! length (heap w) = Some r
    /\ rooms (snd (express (post_rooms E roomCode) w)) !! chosen_code E roomCode w
       = Some (length (heap w))
    /\ Room.createdAt r = clock E (ticks w)
    /\ Room.startTime r = clock E (S (ticks w))
    /\ Room.previousStartTime r = clock E (S (S (ticks w)))
    /\ Room.members r = [] /\ Room.streams r = [].
Proof.
  intros Hc. unfold express. rewrite (post_rooms_created E roomCode w Hc).
  eexists. cbn. split; [|split].
  - destruct (needs_random roomCode); cbn; by rewrite lookup_app_r, Nat.sub_diag.
  - destruct (needs_random roomCode); cbn; by rewrite lookup_insert_eq.
  - done.
Qed.

(** C8, at a create during which the millisecond clock advances between
    the second and the third reading: the room is stored with
    [previousStartTime] one millisecond after [createdAt] and [startTime];
    its member map and stream set are empty. *)
Theorem create_reads_the_clock_for_each_field :
  let w := snd (express (post_rooms midtick_env (Some "lobby")) boot) in
  rooms w !! "LOBBY" = Some 0%nat
  /\ heap w !! 0%nat
     = Some (Room.mk "LOBBY" 1700000000000 1700000000000 1700000000001 [] [])
  /\ (Room.previousStartTime <$> heap w !! 0%nat) <> (Room.createdAt <$> heap w !! 0%nat).
Proof. vm_compute. repeat split; discriminate. Qed.

(** ** Closing a stream, and the rooms nobody is in *)

Lemma events_close_run E c w r :
  heap w !! cl_room c = Some r ->
  let r' := closed_room c r in
  exists ls,
    events_close E c w
    = (Ok tt,
       tell (if member_bound c r
             then flat_map (fun res => emit E res "member-left" (PMemberLeft (cl_memberId c)))
                    (Room.streams r')
             else [])
            ls
            (with_rooms (if deserted r' then delete (cl_code c) (rooms w) else rooms w)
               (with_heap (<[cl_room c := r']> (heap w)) w))).
Proof.
  intros Hr r'.
  assert (Hlt : (cl_room c < length (heap w))%nat) by (eapply lookup_lt_Some; eauto).
  unfold events_close. cbv zeta. step. step. step.
  unfold r', closed_room, member_bound.
  cbn [Room.members Room.with_streams].
  destruct (truthy_string (cl_memberId c) && has_member (cl_memberId c) (Room.members r))
    eqn:Hb.
  - apply andb_prop in Hb as [_ Hh].
    destruct (has_member_get _ _ Hh) as [member Hm]. rewrite Hm.
    step. step. step. wsimpl. rewrite list_insert_insert_eq.
    set (r2 := Room.with_members _ _).
    step. unfold deserted.
    destruct ((length (Room.members r2) =? 0)%nat && (length (Room.streams r2) =? 0)%nat).
    + repeat step. unfold rooms_delete. eexists. world_eq_ex.
    + unfold ret. eexists. world_eq_ex.
  - step. set (r2 := Room.with_streams _ _).
    step. unfold deserted.
    destruct ((length (Room.members r2) =? 0)%nat && (length (Room.streams r2) =? 0)%nat).
    + repeat step. unfold rooms_delete. eexists. world_eq_ex.
    + unfold ret. eexists. world_eq_ex.
Qed.

Lemma close_run E res w c :
  List.find (fun c => Nat.eqb (cl_res c) res) (listeners w) = Some c ->
  close E res w
  = events_close E c
      (with_listeners
         (List.filter (fun c' => negb (Nat.eqb (cl_res c') res)) (listeners w)) w).
Proof. intros H. unfold close. by rewrite H. Qed.

Lemma close_idle E res w :
  List.find (fun c => Nat.eqb (cl_res c) res) (listeners w) = None ->
  close E res w = (Ok tt, w).
Proof. intros H. unfold close. by rewrite H. Qed.

Lemma deserted_spec r :
  deserted r = true <-> Room.members r = [] /\ Room.streams r = [].
Proof.
  unfold deserted. rewrite andb_true_iff, !Nat.eqb_eq.
  split; intros [H1 H2].
  - split; [by destruct (Room.members r)|by destruct (Room.streams r)].
  - by rewrite H1, H2.
Qed.

(** The disconnect path: once the listener of a closed stream has run, a
    room left without members and without streams is no longer in the
    registry under the code the stream was opened with. *)
Lemma close_deletes_the_deserted_room E res w c r :
  List.find (fun c => Nat.eqb (cl_res c) res) (listeners w) = Some c ->
  heap w !! cl_room c = Some r ->
  exists w' r',
    close E res w = (Ok tt, w')
    /\ heap w' !! cl_room c = Some r'
    /\ r' = closed_room c r
    /\ (Room.members r' = [] -> Room.streams r' = [] -> rooms w' !! cl_code c = None).
Proof.
  intros Hf Hr. rewrite (close_run E res w c Hf).
  destruct (events_close_run E c
              (with_listeners
                 (List.filter (fun c' => negb (Nat.eqb (cl_res c') res)) (listeners w)) w)
              r Hr) as [ls Hrun].
  rewrite Hrun. eexists _, _. split; [done|]. cbn. split; [|split; [done|]].
  - apply list_lookup_insert_eq. eapply lookup_lt_Some; eauto.
  - intros Hm Hs. assert (deserted (closed_room c r) = true) as ->
      by (by apply deserted_spec).
    apply lookup_delete_eq.
Qed.

(** C2, at the requests create [lobby], join as Alice, leave as Alice, with
    no stream ever opened: the room has no member and no stream, and the
    registry still resolves its code. *)
Theorem leave_keeps_the_deserted_room :
  let w := snd (express (post_leave demo_env "LOBBY" (Some "member-0")) lounge) in
  (Room.members <$> heap w !! 0%nat) = Some []
  /\ (Room.streams <$> heap w !! 0%nat) = Some []
  /\ rooms w !! "LOBBY" = Some 0%nat
  /\ fst (rooms_get (Some "LOBBY") w) = Ok (Some 0%nat).
Proof. vm_compute. repeat split. Qed.

(** The same room, had Alice watched it through a stream and closed it
    instead: the listener deletes the entry. *)
Example disconnect_collects_the_room :
  let w1 := snd (express (get_events demo_env (Some "LOBBY") (Some "member-0") 1) lounge) in
  let w2 := snd (close demo_env 1 w1) in
  rooms w1 !! "LOBBY" = Some 0%nat
  /\ (Room.members <$> heap w2 !! 0%nat) = Some []
  /\ (Room.streams <$> heap w2 !! 0%nat) = Some []
  /\ rooms w2 !! "LOBBY" = None.
Proof. vm_compute. repeat split. Qed.

(** ** The invariant of the reachable states *)

Section Consistency.
Variable E : env.

Lemma elem_of_map_delete {V} k (m : list (string * V)) x :
  x ∈ map_delete k m -> x ∈ m.
Proof.
  induction m as [|[k' v'] m IH]; cbn; [done|].
  rewrite elem_of_cons. destruct (String.eqb k' k); [by right|].
  rewrite elem_of_cons. intros [->|H]; [by left|]. right. by apply IH.
Qed.

Lemma elem_of_map_set {V} k (v : V) m x :
  x ∈ map_set k v m -> x = (k, v) \/ x ∈ m.
Proof.
  induction m as [|[k' v'] m IH]; cbn.
  - intros ->%list_elem_of_singleton. by left.
  - rewrite (elem_of_cons m). destruct (String.eqb k' k); rewrite elem_of_cons.
    + intros [->|H]; [by left|]. right. by right.
    + intros [->|H]; [right; by left|].
      destruct (IH H) as [->|H']; [by left|]. right. by right.
Qed.

Lemma consistent_boot : consistent E [] ∅ [] 0.
Proof.
  split.
  - intros c room H. by rewrite lookup_empty in H.
  - intros c H. by apply elem_of_nil in H.
  - intros room r k m H. by rewrite lookup_nil in H.
Qed.

Lemma consistent_update h rs ls n room r r' :
  consistent E h rs ls n ->
  h !! room = Some r ->
  Room.code r' = Room.code r ->
  (forall x, x ∈ Room.members r' -> x ∈ Room.members r) ->
  consistent E (<[room := r']> h) rs ls n.
Proof.
  intros [H1 H2 H3] Hr Hcode Hsub.
  assert (Hlt : (room < length h)%nat) by (eapply lookup_lt_Some; eauto).
  assert (Hlook : forall i x, h !! i = Some x ->
            exists x', <[room := r']> h !! i = Some x' /\ Room.code x' = Room.code x).
  { intros i x Hi. destruct (decide (i = room)) as [->|Hne].
    - rewrite list_lookup_insert_eq by done. exists r'. split; [done|]. congruence.
    - rewrite list_lookup_insert_ne by done. eauto. }
  split.
  - intros c room' Hc. destruct (H1 c room' Hc) as (x & Hx & <-).
    destruct (Hlook room' x Hx) as (x' & ? & ?). eauto.
  - intros c Hc. destruct (H2 c Hc) as (x & Hx & <-).
    destruct (Hlook (cl_room c) x Hx) as (x' & ? & ?). eauto.
  - intros room' x k m Hx Hk. destruct (decide (room' = room)) as [->|Hne].
    + rewrite list_lookup_insert_eq in Hx by done. injection Hx as <-.
      eapply H3; eauto.
    + rewrite list_lookup_insert_ne in Hx by done. eapply H3; eauto.
Qed.

Lemma consistent_listen h rs ls n c memberId room res r :
  consistent E h rs ls n ->
  h !! room = Some r ->
  Room.code r = c ->
  consistent E h rs (ls ++ [Closure c memberId room res]) n.
Proof.
  intros [H1 H2 H3] Hr Hcode. split; [done| |done].
  intros c' [Hc|Hc%list_elem_of_singleton]%elem_of_app; [by apply H2|].
  subst c'. cbn. eauto.
Qed.

Lemma consistent_unlisten h rs ls n (f : closure -> bool) :
  consistent E h rs ls n ->
  consistent E h rs (List.filter f ls) n.
Proof.
  intros [H1 H2 H3]. split; [done| |done].
  intros c Hc. apply H2. apply list_elem_of_In in Hc. apply filter_In in Hc as [Hc _].
  by apply list_elem_of_In.
Qed.

Lemma consistent_delete h rs ls n c :
  consistent E h rs ls n ->
  consistent E h (delete c rs) ls n.
Proof.
  intros [H1 H2 H3]. split; [|done|done].
  intros c' room Hc. apply lookup_delete_Some in Hc as [_ Hc]. by apply H1.
Qed.

Lemma consistent_create h rs ls n r :
  consistent E h rs ls n ->
  Room.members r = [] ->
  consistent E (h ++ [r]) (<[Room.code r := length h]> rs) ls n.
Proof.
  intros [H1 H2 H3] Hm. split.
  - intros c room Hc. destruct (decide (Room.code r = c)) as [<-|Hne].
    + rewrite lookup_insert_eq in Hc. injection Hc as <-.
      exists r. by rewrite lookup_app_r, Nat.sub_diag.
    + rewrite lookup_insert_ne in Hc by done.
      destruct (H1 c room Hc) as (x & Hx & ?). exists x.
      split; [|done]. rewrite lookup_app_l; [done|]. eapply lookup_lt_Some; eauto.
  - intros c Hc. destruct (H2 c Hc) as (x & Hx & ?). exists x.
    split; [|done]. rewrite lookup_app_l; [done|]. eapply lookup_lt_Some; eauto.
  - intros room x k m Hx Hk.
    destruct (decide (room < length h)%nat) as [Hlt|Hge].
    + rewrite lookup_app_l in Hx by done. eapply H3; eauto.
    + rewrite lookup_app_r in Hx by lia.
      destruct (room - length h)%nat; cbn in Hx; [|done].
      injection Hx as <-. rewrite Hm in Hk. by apply elem_of_nil in Hk.
Qed.

Lemma consistent_join h rs ls n room r member :
  consistent E h rs ls n ->
  h !! room = Some r ->
  consistent E
    (<[room := Room.with_members (map_set (uuid E n) member (Room.members r)) r]> h)
    rs ls (S n).
Proof.
  intros [H1 H2 H3] Hr.
  assert (Hlt : (room < length h)%nat) by (eapply lookup_lt_Some; eauto).
  assert (Hlook : forall i x, h !! i = Some x ->
            exists x', <[room := Room.with_members
                                   (map_set (uuid E n) member (Room.members r)) r]> h !! i
                       = Some x' /\ Room.code x' = Room.code x).
  { intros i x Hi. destruct (decide (i = room)) as [->|Hne].
    - rewrite list_lookup_insert_eq by done. eexists. split; [done|]. cbn. congruence.
    - rewrite list_lookup_insert_ne by done. eauto. }
  split.
  - intros c room' Hc. destruct (H1 c room' Hc) as (x & Hx & <-).
    destruct (Hlook room' x Hx) as (x' & ? & ?). eauto.
  - intros c Hc. destruct (H2 c Hc) as (x & Hx & <-).
    destruct (Hlook (cl_room c) x Hx) as (x' & ? & ?). eauto.
  - intros room' x k m Hx Hk. destruct (decide (room' = room)) as [->|Hne].
    + rewrite list_lookup_insert_eq in Hx by done. injection Hx as <-.
      cbn in Hk. apply elem_of_map_set in Hk as [[= -> _]|Hk].
      * exists n. split; [lia|done].
      * destruct (H3 room r k m Hr Hk) as (i & ? & ?). exists i. split; [lia|done].
    + rewrite list_lookup_insert_ne in Hx by done.
      destruct (H3 room' x k m Hx Hk) as (i & ? & ?). exists i. split; [lia|done].
Qed.

End Consistency.

Lemma post_reset_missing E code startTime w :
  rooms w !! code = None ->
  post_reset E code startTime w = (Ok (Status 404), w).
Proof. intros Hc. unfold post_reset. step. cbn [rooms_get]. by rewrite Hc. Qed.

Lemma elem_of_delete_member k m x :
  x ∈ delete_member k m -> x ∈ m.
Proof. destruct k; [apply elem_of_map_delete|done]. Qed.

Lemma closed_room_code c r : Room.code (closed_room c r) = Room.code r.
Proof. unfold closed_room. by destruct (member_bound c r). Qed.

Lemma closed_room_members c r x :
  x ∈ Room.members (closed_room c r) -> x ∈ Room.members r.
Proof.
  unfold closed_room. destruct (member_bound c r); cbn; [|done].
  apply elem_of_delete_member.
Qed.

Lemma restarted_code startTime now r : Room.code (restarted startTime now r) = Room.code r.
Proof. unfold restarted, banked. by destruct (_ <=? _). Qed.

Lemma restarted_members startTime now r :
  Room.members (restarted startTime now r) = Room.members r.
Proof. unfold restarted, banked. by destruct (_ <=? _). Qed.

(** Every request keeps the invariant. *)
Lemma invariant_after E q w : invariant E w -> invariant E (after E q w).
Proof.
  intros Hinv. pose proof Hinv as [H1 H2 H3].
  destruct q as [code memberId res|res|roomCode|code memberId name timezone locale
                |code startTime|code memberId]; unfold after; rewrite ?express_world.
  - (* GET /events *)
    destruct (match code with Some c => rooms w !! c | None => None end) as [room|] eqn:Hc.
    + destruct code as [c|]; [|done].
      destruct (H1 c room Hc) as (r & Hr & Hcode).
      rewrite (get_events_run E c memberId res w room r Hc Hr). unfold invariant; cbn.
      eapply consistent_listen;
        [eapply consistent_update; eauto| |].
      * apply list_lookup_insert_eq. eapply lookup_lt_Some; eauto.
      * done.
    + by rewrite (get_events_missing E code memberId res w Hc).
  - (* close *)
    destruct (List.find (fun c => Nat.eqb (cl_res c) res) (listeners w)) as [c|] eqn:Hf.
    + rewrite (close_run E res w c Hf).
      apply find_some in Hf as [Hin _]. apply list_elem_of_In in Hin.
      destruct (H2 c Hin) as (r & Hr & Hcode).
      destruct (events_close_run E c
                  (with_listeners
                     (List.filter (fun c' => negb (Nat.eqb (cl_res c') res)) (listeners w)) w)
                  r Hr) as [ls ->].
      unfold invariant; cbn.
      assert (consistent E (<[cl_room c := closed_room c r]> (heap w)) (rooms w)
                (List.filter (fun c' => negb (Nat.eqb (cl_res c') res)) (listeners w))
                (minted w)) as Hgoal.
      { apply consistent_unlisten. eapply consistent_update; eauto.
        - apply closed_room_code.
        - apply closed_room_members. }
      destruct (deserted (closed_room c r)); cbn; [by apply consistent_delete|done].
    + by rewrite (close_idle E res w Hf).
  - (* POST /rooms *)
    destruct (rooms w !! chosen_code E roomCode w) as [room|] eqn:Hc.
    + rewrite (post_rooms_taken E roomCode w room Hc).
      unfold invariant. by destruct (needs_random roomCode).
    + rewrite (post_rooms_created E roomCode w Hc).
      unfold invariant.
      destruct (needs_random roomCode); cbn;
        by apply (consistent_create E _ _ _ _ (Room.mk (chosen_code E roomCode w) _ _ _ [] [])).
  - (* POST /rooms/:code/join *)
    destruct (rooms w !! code) as [room|] eqn:Hc.
    + destruct (H1 code room Hc) as (r & Hr & Hcode).
      destruct (truthy_string memberId && has_member memberId (Room.members r)) eqn:Hb.
      * apply andb_prop in Hb as [Ht Hh].
        destruct (has_member_get _ _ Hh) as [member Hm].
        by rewrite (post_join_reconnect E code memberId name timezone locale w room r member).
      * rewrite (post_join_fresh E code memberId name timezone locale w room r) by done.
        unfold invariant; cbn. by apply consistent_join.
    + by rewrite (post_join_missing E code memberId name timezone locale w Hc).
  - (* POST /rooms/:code/reset *)
    destruct (rooms w !! code) as [room|] eqn:Hc.
    + destruct (H1 code room Hc) as (r & Hr & Hcode).
      rewrite (post_reset_run E code startTime w room r Hc Hr).
      assert (consistent E
                (<[room := restarted startTime (clock E (ticks w)) r]> (heap w))
                (rooms w) (listeners w) (minted w)) as Hgoal.
      { eapply consistent_update; eauto.
        - apply restarted_code.
        - intros x. by rewrite restarted_members. }
      by destruct (valid_time _).
    + by rewrite (post_reset_missing E code startTime w Hc).
  - (* POST /rooms/:code/leave *)
    destruct (rooms w !! code) as [room|] eqn:Hc.
    + destruct (H1 code room Hc) as (r & Hr & Hcode).
      destruct (has_member memberId (Room.members r)) eqn:Hh.
      * destruct (has_member_get _ _ Hh) as [member Hm].
        rewrite (post_leave_present E code memberId w room r member) by done.
        unfold invariant; cbn. eapply consistent_update; eauto.
        intros x. apply elem_of_delete_member.
      * by rewrite (post_leave_absent E code memberId w room r).
    + by rewrite (post_leave_no_room E code memberId w Hc).
Qed.

Lemma reachable_invariant E w : reachable E w -> invariant E w.
Proof.
  induction 1 as [|q w _ IH]; [apply consistent_boot|by apply invariant_after].
Qed.

(** ** Joining *)

Lemma map_has_false {V} k (m : list (string * V)) :
  (forall k' v, (k', v) ∈ m -> k' <> k) -> map_has k m = false.
Proof.
  unfold map_has. induction m as [|[k' v'] m IH]; cbn; intros H; [done|].
  destruct (String.eqb_spec k' k) as [Heq|Hne].
  - exfalso. apply (H k' v'); [|done]. apply elem_of_cons. by left.
  - apply IH. intros k'' v Hin. apply (H k'' v). apply elem_of_cons. by right.
Qed.

(** In a reachable state the next id of a generator that has not repeated
    itself is the key of no member. *)
Lemma next_uuid_is_new E w room r :
  reachable E w ->
  heap w !! room = Some r ->
  (forall i, (i < minted w)%nat -> uuid E i <> uuid E (minted w)) ->
  map_has (uuid E (minted w)) (Room.members r) = false.
Proof.
  intros Hreach Hr Hnew. apply map_has_false. intros k v Hin.
  destruct (minted_ids _ _ _ _ _ (reachable_invariant E w Hreach) room r k v Hr Hin)
    as (i & Hi & ->).
  by apply Hnew.
Qed.

(** C3: a join on a room of a reachable state.  If a member id is supplied
    and is the key of a member of the room, the answer carries that member
    as stored, no room changes and nothing goes on the wire.  Otherwise an
    id is drawn from [crypto.randomUUID]; provided the generator has not
    returned that id before, it is the key of no member of the room, the
    new member is added to the room's members under it, and [member-joined]
    with the member is broadcast to the streams of the room. *)
Theorem join_reconnects_or_mints E code memberId name timezone locale w room r :
  reachable E w ->
  rooms w !! code = Some room ->
  heap w !! room = Some r ->
  (forall member,
      truthy_string memberId = true ->
      get_member memberId (Room.members r) = Some member ->
      exists w',
        post_join E code memberId name timezone locale w
        = (Ok (Json 200 (Joined member (snapshot_of r))), w')
        /\ heap w' = heap w /\ rooms w' = rooms w /\ wire w' = wire w)
  /\ (truthy_string memberId && has_member memberId (Room.members r) = false ->
      (forall i, (i < minted w)%nat -> uuid E i <> uuid E (minted w)) ->
      let member :=
        Member.mk (uuid E (minted w)) name timezone locale (clock E (ticks w)) in
      let r' := Room.with_members (Room.members r ++ [(Member.id member, member)]) r in
      exists w',
        post_join E code memberId name timezone locale w
        = (Ok (Json 200 (Joined member (snapshot_of r'))), w')
        /\ map_has (Member.id member) (Room.members r) = false
        /\ heap w' = <[room := r']> (heap w)
        /\ rooms w' = rooms w
        /\ wire w' = wire w ++ flat_map (fun res => emit E res "member-joined" (PMember member))
                                 (Room.streams r)).
Proof.
  intros Hreach Hc Hr. split.
  - intros member Ht Hm. eexists. split; [by eapply post_join_reconnect|].
    cbn. by rewrite app_nil_r.
  - intros Hb Hnew member r'.
    pose proof (next_uuid_is_new E w room r Hreach Hr Hnew) as Hfresh.
    rewrite (post_join_fresh E code memberId name timezone locale w room r Hc Hr Hb).
    cbn [Member.id]. rewrite (map_set_fresh _ _ _ Hfresh).
    eexists. split; [reflexivity|]. split; [exact Hfresh|done].
Qed.

Lemma lounge_reachable : reachable demo_env lounge.
Proof. repeat constructor. Qed.

Lemma demo_uuid_new i : (i < 1)%nat -> uuid demo_env i <> uuid demo_env 1.
Proof. intros Hi. assert (i = 0%nat) as -> by lia. discriminate. Qed.

Lemma join_reconnects_or_mints_witness :
  (exists w',
     post_join demo_env "LOBBY" (Some "member-0") "Alice" "UTC" "en" lounge
     = (Ok (Json 200 (Joined (Member.mk "member-0" "Alice" "UTC" "en" 1700000000004)
                        (Snapshot 1700000000000 1700000000001 1700000000002 "LOBBY"
                           [Member.mk "member-0" "Alice" "UTC" "en" 1700000000004]))), w')
     /\ heap w' = heap lounge /\ rooms w' = rooms lounge /\ wire w' = wire lounge)
  /\ (exists w',
        post_join demo_env "LOBBY" None "Bob" "CET" "de" lounge
        = (Ok (Json 200 (Joined (Member.mk "member-1" "Bob" "CET" "de" 1700000000005)
                           (Snapshot 1700000000000 1700000000001 1700000000002 "LOBBY"
                              [Member.mk "member-0" "Alice" "UTC" "en" 1700000000004;
                               Member.mk "member-1" "Bob" "CET" "de" 1700000000005]))), w')
        /\ map_has "member-1"
             [("member-0", Member.mk "member-0" "Alice" "UTC" "en" 1700000000004)] = false
        /\ heap w'
           = <[0%nat := Room.mk "LOBBY" 1700000000000 1700000000001 1700000000002
                          [("member-0", Member.mk "member-0" "Alice" "UTC" "en" 1700000000004);
                           ("member-1", Member.mk "member-1" "Bob" "CET" "de" 1700000000005)]
                          []]> (heap lounge)
        /\ rooms w' = rooms lounge
        /\ wire w' = wire lounge ++ []).
Proof.
  split.
  - exact (proj1 (join_reconnects_or_mints demo_env "LOBBY" (Some "member-0")
                    "Alice" "UTC" "en" lounge 0%nat
                    (Room.mk "LOBBY" 1700000000000 1700000000001 1700000000002
                       [("member-0", Member.mk "member-0" "Alice" "UTC" "en" 1700000000004)] [])
                    lounge_reachable eq_refl eq_refl)
             (Member.mk "member-0" "Alice" "UTC" "en" 1700000000004) eq_refl eq_refl).
  - exact (proj2 (join_reconnects_or_mints demo_env "LOBBY" None
                    "Bob" "CET" "de" lounge 0%nat
                    (Room.mk "LOBBY" 1700000000000 1700000000001 1700000000002
                       [("member-0", Member.mk "member-0" "Alice" "UTC" "en" 1700000000004)] [])
                    lounge_reachable eq_refl eq_refl)
             eq_refl demo_uuid_new).
Defined.

(** ** What reachable states rule out *)

(** X4: from a reachable state no request whose fields have the types the
    page sends them with (a string or nothing for [roomCode], [code] and
    [memberId], an integer or nothing for [startTime]: the requests of
    [request]) meets a dangling reference, an absent member or an escaping
    write error: the one exception a handler can end with on such a request
    is the [RangeError] of the reset route, when the new start time is not a
    valid date.  Bodies with fields of other JSON types are outside this
    statement. *)
Lemma reachable_raises E q w :
  reachable E w ->
  raises E q w = None
  \/ (exists code startTime,
        q = PostReset code startTime
        /\ valid_time (or_number startTime (clock E (ticks w))) = false
        /\ raises E q w = Some RangeError).
Proof.
  intros Hreach. pose proof (reachable_invariant E w Hreach) as [H1 H2 H3].
  destruct q as [code memberId res|res|roomCode|code memberId name timezone locale
                |code startTime|code memberId]; unfold raises.
  - left.
    destruct (match code with Some c => rooms w !! c | None => None end) as [room|] eqn:Hc.
    + destruct code as [c|]; [|done].
      destruct (H1 c room Hc) as (r & Hr & Hcode).
      by rewrite (get_events_run E c memberId res w room r Hc Hr).
    + by rewrite (get_events_missing E code memberId res w Hc).
  - left.
    destruct (List.find (fun c => Nat.eqb (cl_res c) res) (listeners w)) as [c|] eqn:Hf.
    + rewrite (close_run E res w c Hf).
      apply find_some in Hf as [Hin _]. apply list_elem_of_In in Hin.
      destruct (H2 c Hin) as (r & Hr & Hcode).
      by destruct (events_close_run E c
                     (with_listeners
                        (List.filter (fun c' => negb (Nat.eqb (cl_res c') res)) (listeners w)) w)
                     r Hr) as [ls ->].
    + by rewrite (close_idle E res w Hf).
  - left.
    destruct (rooms w !! chosen_code E roomCode w) as [room|] eqn:Hc.
    + by rewrite (post_rooms_taken E roomCode w room Hc).
    + by rewrite (post_rooms_created E roomCode w Hc).
  - left.
    destruct (rooms w !! code) as [room|] eqn:Hc.
    + destruct (H1 code room Hc) as (r & Hr & Hcode).
      destruct (truthy_string memberId && has_member memberId (Room.members r)) eqn:Hb.
      * apply andb_prop in Hb as [Ht Hh].
        destruct (has_member_get _ _ Hh) as [member Hm].
        by rewrite (post_join_reconnect E code memberId name timezone locale w room r member).
      * by rewrite (post_join_fresh E code memberId name timezone locale w room r).
    + by rewrite (post_join_missing E code memberId name timezone locale w Hc).
  - destruct (rooms w !! code) as [room|] eqn:Hc.
    + destruct (H1 code room Hc) as (r & Hr & Hcode).
      rewrite (post_reset_run E code startTime w room r Hc Hr).
      destruct (valid_time _) eqn:Hv; [by left|].
      right. by exists code, startTime.
    + left. by rewrite (post_reset_missing E code startTime w Hc).
  - left.
    destruct (rooms w !! code) as [room|] eqn:Hc.
    + destruct (H1 code room Hc) as (r & Hr & Hcode).
      destruct (has_member memberId (Room.members r)) eqn:Hh.
      * destruct (has_member_get _ _ Hh) as [member Hm].
        by rewrite (post_leave_present E code memberId w room r member).
      * by rewrite (post_leave_absent E code memberId w room r).
    + by rewrite (post_leave_no_room E code memberId w Hc).
Qed.

(** X8: in a reachable state, once the listener of a closed stream has
    run, a room left without members and streams is in the registry under
    no code at all. *)
Lemma close_unregisters_the_deserted_room E res w c :
  reachable E w ->
  List.find (fun c => Nat.eqb (cl_res c) res) (listeners w) = Some c ->
  exists r',
    heap (after E (Close res) w) !! cl_room c = Some r'
    /\ (Room.members r' = [] -> Room.streams r' = [] ->
        forall code, rooms (after E (Close res) w) !! code <> Some (cl_room c)).
Proof.
  intros Hreach Hf. pose proof (reachable_invariant E w Hreach) as [H1 H2 H3].
  pose proof Hf as Hin. apply find_some in Hin as [Hin _]. apply list_elem_of_In in Hin.
  destruct (H2 c Hin) as (r & Hr & Hcode).
  destruct (close_deletes_the_deserted_room E res w c r Hf Hr)
    as (w' & r' & Hrun & Hr' & -> & Hgone).
  unfold after. rewrite Hrun. cbn [snd]. exists (closed_room c r). split; [done|].
  intros Hm Hs code Hcode'.
  assert (Hrooms : rooms w' !! code = Some (cl_room c) -> rooms w !! code = Some (cl_room c)).
  { rewrite (close_run E res w c Hf) in Hrun.
    destruct (events_close_run E c
                (with_listeners
                   (List.filter (fun c' => negb (Nat.eqb (cl_res c') res)) (listeners w)) w)
                r Hr) as [ls Hrun'].
    rewrite Hrun' in Hrun. injection Hrun as <-. cbn.
    destruct (deserted (closed_room c r)); cbn; [|done].
    by intros [_ ?]%lookup_delete_Some. }
  destruct (H1 code (cl_room c) (Hrooms Hcode')) as (x & Hx & Hxc).
  rewrite Hr in Hx. injection Hx as <-.
  rewrite Hcode in Hxc. subst code. rewrite (Hgone Hm Hs) in Hcode'. discriminate.
Qed.

(** When the clock does not advance during a create, the three timestamps
    of the new room are the creation instant. *)
Lemma create_on_a_still_clock E roomCode w now :
  rooms w !! chosen_code E roomCode w = None ->
  clock E (ticks w) = now ->
  clock E (S (ticks w)) = now ->
  clock E (S (S (ticks w))) = now ->
  exists r,
    heap (after E (PostRooms roomCode) w) !! length (heap w) = Some r
    /\ Room.createdAt r = now /\ Room.startTime r = now /\ Room.previousStartTime r = now
    /\ Room.members r = [] /\ Room.streams r = [].
Proof.
  intros Hc <- H2 H3.
  destruct (post_rooms_timestamps E roomCode w Hc) as (r & Hr & _ & Ha & Hb & Hd & Hm & Hs).
  exists r. unfold after. rewrite Hr, Ha, Hb, Hd, H2, H3. by rewrite Hm, Hs.
Qed.

(** ** Generated codes *)

Lemma toUpperCase_length s : String.length (toUpperCase s) = String.length s.
Proof. induction s as [|c s IH]; cbn; [done|by rewrite IH]. Qed.

Lemma to_hex_length bs : String.length (to_hex bs) = (2 * length bs)%nat.
Proof. induction bs as [|b bs IH]; cbn; [done|rewrite IH; lia]. Qed.

Lemma hex_of_byte_upper b :
  is_hex_upper (upper_char (hex_digit (Byte.to_N b / 16)%N)) = true
  /\ is_hex_upper (upper_char (hex_digit (Byte.to_N b mod 16)%N)) = true.
Proof. destruct b; vm_compute; done. Qed.

Lemma to_hex_upper_chars bs c :
  In c (list_ascii_of_string (toUpperCase (to_hex bs))) -> is_hex_upper c = true.
Proof.
  induction bs as [|b bs IH]; cbn; [done|].
  destruct (hex_of_byte_upper b) as [Hhi Hlo].
  intros [<-|[<-|H]]; [done|done|by apply IH].
Qed.

Lemma is_hex_upper_alnum c : is_hex_upper c = true -> is_upper c || is_digit c = true.
Proof.
  unfold is_hex_upper, is_upper. destruct (is_digit c); [by rewrite orb_true_r|].
  cbn. intros [H1 H2]%andb_prop. rewrite orb_false_r.
  apply andb_true_intro. split; [done|].
  apply Nat.leb_le in H2. apply Nat.leb_le. lia.
Qed.

(** X1: [generateRoomCode] takes three bytes of entropy and returns six
    characters, each a digit or a letter from A to F. *)
Theorem generateRoomCode_six_hex_characters E w :
  exists code,
    generateRoomCode E w = (Ok code, with_drawn (drawn w + 3) w)
    /\ String.length code = 6%nat
    /\ (forall c, In c (list_ascii_of_string code) -> is_hex_upper c = true).
Proof.
  eexists. split; [reflexivity|]. split.
  - by rewrite toUpperCase_length, to_hex_length, length_map, length_seq.
  - apply to_hex_upper_chars.
Qed.

(** ** Every request, as a change *)

Lemma after_change E q w : invariant E w -> change E q w (after E q w).
Proof.
  intros [H1 H2 H3].
  destruct q as [code memberId res|res|roomCode|code memberId name timezone locale
                |code startTime|code memberId]; unfold after; rewrite ?express_world.
  - destruct (match code with Some c => rooms w !! c | None => None end) as [room|] eqn:Hc.
    + destruct code as [c|]; [|done].
      destruct (H1 c room Hc) as (r & Hr & Hcode).
      rewrite (get_events_run E c memberId res w room r Hc Hr).
      by eapply change_open.
    + rewrite (get_events_missing E code memberId res w Hc).
      apply change_nothing; try done. cbn. by rewrite app_nil_r.
  - destruct (List.find (fun c => Nat.eqb (cl_res c) res) (listeners w)) as [c|] eqn:Hf.
    + rewrite (close_run E res w c Hf).
      pose proof Hf as Hin. apply find_some in Hin as [Hin _].
      apply list_elem_of_In in Hin.
      destruct (H2 c Hin) as (r & Hr & Hcode).
      destruct (events_close_run E c
                  (with_listeners
                     (List.filter (fun c' => negb (Nat.eqb (cl_res c') res)) (listeners w)) w)
                  r Hr) as [ls ->].
      by eapply change_close.
    + rewrite (close_idle E res w Hf). by apply change_nothing.
  - destruct (rooms w !! chosen_code E roomCode w) as [room|] eqn:Hc.
    + rewrite (post_rooms_taken E roomCode w room Hc).
      apply change_nothing; destruct (needs_random roomCode); cbn; by rewrite ?app_nil_r.
    + rewrite (post_rooms_created E roomCode w Hc).
      apply change_create; [done|..]; destruct (needs_random roomCode); cbn;
        by rewrite ?app_nil_r.
  - destruct (rooms w !! code) as [room|] eqn:Hc.
    + destruct (H1 code room Hc) as (r & Hr & Hcode).
      destruct (truthy_string memberId && has_member memberId (Room.members r)) eqn:Hb.
      * apply andb_prop in Hb as [Ht Hh].
        destruct (has_member_get _ _ Hh) as [member Hm].
        rewrite (post_join_reconnect E code memberId name timezone locale w room r member)
          by done.
        apply change_nothing; try done. cbn. by rewrite app_nil_r.
      * rewrite (post_join_fresh E code memberId name timezone locale w room r) by done.
        by eapply change_join.
    + rewrite (post_join_missing E code memberId name timezone locale w Hc).
      apply change_nothing; try done. cbn. by rewrite app_nil_r.
  - destruct (rooms w !! code) as [room|] eqn:Hc.
    + destruct (H1 code room Hc) as (r & Hr & Hcode).
      rewrite (post_reset_run E code startTime w room r Hc Hr).
      eapply change_reset; [done|done|..]; cbv zeta;
        destruct (valid_time _); cbn; by rewrite ?app_nil_r.
    + rewrite (post_reset_missing E code startTime w Hc). by apply change_nothing.
  - destruct (rooms w !! code) as [room|] eqn:Hc.
    + destruct (H1 code room Hc) as (r & Hr & Hcode).
      destruct (has_member memberId (Room.members r)) eqn:Hh.
      * destruct (has_member_get _ _ Hh) as [member Hm].
        rewrite (post_leave_present E code memberId w room r member) by done.
        by eapply change_leave.
      * rewrite (post_leave_absent E code memberId w room r) by done.
        by apply change_nothing.
    + rewrite (post_leave_no_room E code memberId w Hc). by apply change_nothing.
Qed.

(** ** The codes in the registry *)

Lemma reachable_change E q w : reachable E w -> change E q w (after E q w).
Proof. intros H. by apply after_change, reachable_invariant. Qed.

Lemma generated_code_six_hex E w :
  String.length (generated_code E w) = 6%nat
  /\ (forall c, In c (list_ascii_of_string (generated_code E w)) -> is_hex_upper c = true).
Proof.
  unfold generated_code. split.
  - by rewrite toUpperCase_length, to_hex_length, length_map, length_seq.
  - apply to_hex_upper_chars.
Qed.

Lemma chosen_code_is_room_code E roomCode w :
  is_room_code (chosen_code E roomCode w) = true.
Proof.
  assert (Hgen : is_room_code (generated_code E w) = true).
  { destruct (generated_code_six_hex E w) as (Hlen & Hch).
    unfold is_room_code. apply andb_true_intro. split.
    - destruct (generated_code E w); [done|done].
    - apply forallb_forall. intros c Hc. by apply is_hex_upper_alnum, Hch. }
  unfold chosen_code. destruct roomCode as [requested|]; [|done].
  destruct (needs_random (Some requested)) eqn:Hn; [done|].
  unfold needs_random in Hn. apply orb_false_elim in Hn as [_ Hn].
  unfold is_room_code. rewrite Hn. cbn.
  apply forallb_forall. intros c Hc. by apply (strip_non_alnum_chars (toUpperCase requested)).
Qed.

Lemma reachable_room_codes E w :
  reachable E w ->
  forall c room, rooms w !! c = Some room -> is_room_code c = true.
Proof.
  induction 1 as [|q w Hw IH]; [intros c room H; cbn in H; by rewrite lookup_empty in H|].
  pose proof (reachable_change E q w Hw) as Hch.
  remember (after E q w) as w' eqn:Hw'. clear Hw'.
  intros c1 room1.
  destruct Hch as [q w w' _ Hr _ _ _
                  |c memberId res room r w w' _ _ _ Hr _ _ _
                  |res c r w w' _ _ _ Hr _ _ _
                  |roomCode w w' _ _ Hr _ _ _
                  |code memberId name timezone locale room r w w' _ _ _ member _ Hr _ _ _
                  |code startTime room r w w' _ _ r' _ Hr _ _ _
                  |code memberId room r member w w' _ _ _ _ Hr _ _ _];
    rewrite Hr; try apply IH.
  - destruct (deserted (closed_room c r)); [|apply IH].
    intros [_ H]%lookup_delete_Some. by eapply IH.
  - destruct (decide (chosen_code E roomCode w = c1)) as [<-|Hne].
    + intros _. apply chosen_code_is_room_code.
    + rewrite lookup_insert_ne by done. apply IH.
Qed.

(** X2: in every reachable state a code in the registry is not empty and
    made of capital letters and digits, the room it names carries that code,
    and no other code names the same room. *)
Theorem registry_codes_are_well_formed E w c room :
  reachable E w ->
  rooms w !! c = Some room ->
  is_room_code c = true
  /\ (exists r, heap w !! room = Some r /\ Room.code r = c)
  /\ (forall c', rooms w !! c' = Some room -> c' = c).
Proof.
  intros Hw Hc. pose proof (reachable_invariant E w Hw) as [H1 _ _].
  split; [by eapply reachable_room_codes|].
  split; [by apply H1|].
  intros c' Hc'. destruct (H1 c room Hc) as (r & Hr & <-).
  destruct (H1 c' room Hc') as (r' & Hr' & <-). congruence.
Qed.

Lemma registry_codes_are_well_formed_witness :
  is_room_code "LOBBY" = true
  /\ (exists r, heap lounge !! 0%nat = Some r /\ Room.code r = "LOBBY")
  /\ (forall c', rooms lounge !! c' = Some 0%nat -> c' = "LOBBY").
Proof.
  exact (registry_codes_are_well_formed demo_env lounge "LOBBY" 0%nat
           lounge_reachable eq_refl).
Defined.

(** ** More on creating, resetting and routes on a missing room *)

(** X3: a create that succeeds, with no requested code or with one of ASCII
    characters, leaves every room object and every entry of the registry as
    it was, and adds one entry, under a code that was free, for one new room
    object. *)
Theorem create_keeps_the_other_rooms E roomCode w :
  ascii_code roomCode = true ->
  rooms w !! chosen_code E roomCode w = None ->
  let w' := snd (express (post_rooms E roomCode) w) in
  (forall c room, rooms w !! c = Some room -> rooms w' !! c = Some room)
  /\ (forall room r, heap w !! room = Some r -> heap w' !! room = Some r)
  /\ rooms w' !! chosen_code E roomCode w = Some (length (heap w))
  /\ length (heap w') = S (length (heap w))
  /\ (forall c, c <> chosen_code E roomCode w -> rooms w' !! c = rooms w !! c).
Proof.
  intros _ Hc w'. unfold w', express. rewrite (post_rooms_created E roomCode w Hc).
  assert (Hh : forall X, heap (if needs_random roomCode then with_drawn X w else w) = heap w)
    by (intros X; by destruct (needs_random roomCode)).
  assert (Hr : forall X, rooms (if needs_random roomCode then with_drawn X w else w) = rooms w)
    by (intros X; by destruct (needs_random roomCode)).
  cbn. repeat split.
  - intros c room Hcr. rewrite lookup_insert_ne; [done|]. congruence.
  - intros room r Hrr. apply lookup_app_l_Some. done.
  - by rewrite lookup_insert_eq.
  - rewrite length_app. cbn. lia.
  - intros c Hne. by rewrite lookup_insert_ne.
Qed.

Lemma create_keeps_the_other_rooms_witness :
  let w' := snd (express (post_rooms demo_env (Some "den")) lounge) in
  (forall c room, rooms lounge !! c = Some room -> rooms w' !! c = Some room)
  /\ (forall room r, heap lounge !! room = Some r -> heap w' !! room = Some r)
  /\ rooms w' !! "DEN" = Some 1%nat
  /\ length (heap w') = 2%nat
  /\ (forall c, c <> "DEN" -> rooms w' !! c = rooms lounge !! c).
Proof.
  exact (create_keeps_the_other_rooms demo_env (Some "den") lounge eq_refl eq_refl).
Defined.

(** X5: a reset whose new start time is not a valid date ends in the
    [RangeError] of [toISOString]: the answer is 500, the room already has
    the new [startTime] (and the banked [previousStartTime]), and nothing
    is written to any stream. *)
Theorem reset_to_an_invalid_date E code startTime w room r :
  rooms w !! code = Some room ->
  heap w !! room = Some r ->
  valid_time (or_number startTime (clock E (ticks w))) = false ->
  exists w',
    express (post_reset E code startTime) w = (Status 500, w')
    /\ heap w' !! room = Some (restarted startTime (clock E (ticks w)) r)
    /\ Room.startTime (restarted startTime (clock E (ticks w)) r)
       = or_number startTime (clock E (ticks w))
    /\ wire w' = wire w
    /\ console w' = console w.
Proof.
  intros Hc Hr Hv. unfold express.
  rewrite (post_reset_run E code startTime w room r Hc Hr).
  cbn [Room.startTime restarted Room.with_startTime]. rewrite Hv.
  eexists. split; [done|]. cbn. split; [|done].
  apply list_lookup_insert_eq. eapply lookup_lt_Some; eauto.
Qed.

Lemma reset_to_an_invalid_date_witness :
  exists w',
    express (post_reset demo_env "LOBBY" (Some 9000000000000000)) hall = (Status 500, w')
    /\ heap w' !! 0%nat
       = Some (Room.mk "LOBBY" 1700000000000 9000000000000000 1700000000001 []
                 [1%nat; 2%nat; 3%nat])
    /\ 9000000000000000 = 9000000000000000
    /\ wire w' = wire hall
    /\ console w' = console hall.
Proof.
  exact (reset_to_an_invalid_date demo_env "LOBBY" (Some 9000000000000000) hall 0%nat
           (Room.mk "LOBBY" 1700000000000 1700000000001 1700000000002 []
              [1%nat; 2%nat; 3%nat])
           eq_refl eq_refl eq_refl).
Defined.

(** X6: a reset whose new start time is a valid date answers 200 with
    that start time and broadcasts [timer-update], carrying the room's new
    [startTime] and [previousStartTime], to every stream of the room. *)
Theorem reset_answers_and_broadcasts E code startTime w room r :
  rooms w !! code = Some room ->
  heap w !! room = Some r ->
  valid_time (or_number startTime (clock E (ticks w))) = true ->
  let r' := restarted startTime (clock E (ticks w)) r in
  exists w',
    express (post_reset E code startTime) w
    = (Json 200 (ResetTo (or_number startTime (clock E (ticks w)))), w')
    /\ heap w' !! room = Some r'
    /\ wire w' = wire w ++ flat_map
                   (fun res => emit E res "timer-update"
                      (PTimer (Room.startTime r') (Room.previousStartTime r')))
                   (Room.streams r).
Proof.
  intros Hc Hr Hv r'. unfold express.
  rewrite (post_reset_run E code startTime w room r Hc Hr).
  cbn [Room.startTime restarted Room.with_startTime]. rewrite Hv.
  eexists. split; [done|]. cbn. split.
  - apply list_lookup_insert_eq. eapply lookup_lt_Some; eauto.
  - unfold r', restarted, banked. by destruct (_ <=? _).
Qed.

Lemma reset_answers_and_broadcasts_witness :
  exists w',
    express (post_reset flaky_env "LOBBY" None) hall = (Json 200 (ResetTo 1700000000004), w')
    /\ heap w' !! 0%nat
       = Some (Room.mk "LOBBY" 1700000000000 1700000000004 1700000000001 []
                 [1%nat; 2%nat; 3%nat])
    /\ wire w' = wire hall ++ flat_map
                   (fun res => emit flaky_env res "timer-update"
                      (PTimer 1700000000004 1700000000001))
                   [1%nat; 2%nat; 3%nat].
Proof.
  exact (reset_answers_and_broadcasts flaky_env "LOBBY" None hall 0%nat
           (Room.mk "LOBBY" 1700000000000 1700000000001 1700000000002 []
              [1%nat; 2%nat; 3%nat])
           eq_refl eq_refl eq_refl).
Defined.

(** X7: on a code that is not in the registry, join and reset answer 404
    and leave answers 204; none of them touches a room, the registry, the
    listeners or the wire. *)
Theorem routes_on_a_missing_room E code w :
  rooms w !! code = None ->
  (forall memberId name timezone locale,
      exists w',
        express (post_join E code memberId name timezone locale) w = (Status 404, w')
        /\ heap w' = heap w /\ rooms w' = rooms w
        /\ listeners w' = listeners w /\ wire w' = wire w)
  /\ (forall startTime, express (post_reset E code startTime) w = (Status 404, w))
  /\ (forall memberId, express (post_leave E code memberId) w = (Status 204, w)).
Proof.
  intros Hc. split; [|split].
  - intros memberId name timezone locale. unfold express.
    rewrite (post_join_missing E code memberId name timezone locale w Hc).
    eexists. split; [done|]. cbn. by rewrite app_nil_r.
  - intros startTime. unfold express. by rewrite (post_reset_missing E code startTime w Hc).
  - intros memberId. unfold express. by rewrite (post_leave_no_room E code memberId w Hc).
Qed.

Lemma routes_on_a_missing_room_witness :
  (forall memberId name timezone locale,
      exists w',
        express (post_join demo_env "NOWHERE" memberId name timezone locale) lounge
        = (Status 404, w')
        /\ heap w' = heap lounge /\ rooms w' = rooms lounge
        /\ listeners w' = listeners lounge /\ wire w' = wire lounge)
  /\ (forall startTime,
        express (post_reset demo_env "NOWHERE" startTime) lounge = (Status 404, lounge))
  /\ (forall memberId,
        express (post_leave demo_env "NOWHERE" memberId) lounge = (Status 204, lounge)).
Proof. exact (routes_on_a_missing_room demo_env "NOWHERE" lounge eq_refl). Defined.

(** ** More on closing a stream *)

Lemma watched_reachable : reachable demo_env watched.
Proof. repeat constructor. Qed.

Lemma reachable_raises_witness :
  (raises demo_env (PostLeave "LOBBY" (Some "member-0")) watched = None
   \/ (exists code startTime,
         PostLeave "LOBBY" (Some "member-0") = PostReset code startTime
         /\ valid_time (or_number startTime (clock demo_env (ticks watched))) = false
         /\ raises demo_env (PostLeave "LOBBY" (Some "member-0")) watched = Some RangeError))
  /\ (raises demo_env (PostReset "LOBBY" (Some 9000000000000000)) watched = None
      \/ (exists code startTime,
            PostReset "LOBBY" (Some 9000000000000000) = PostReset code startTime
            /\ valid_time (or_number startTime (clock demo_env (ticks watched))) = false
            /\ raises demo_env (PostReset "LOBBY" (Some 9000000000000000)) watched
               = Some RangeError)).
Proof.
  split.
  - exact (reachable_raises demo_env (PostLeave "LOBBY" (Some "member-0")) watched
             watched_reachable).
  - exact (reachable_raises demo_env (PostReset "LOBBY" (Some 9000000000000000)) watched
             watched_reachable).
Defined.

Lemma close_unregisters_the_deserted_room_witness :
  exists r',
    heap (after demo_env (Close 1) watched) !! 0%nat = Some r'
    /\ (Room.members r' = [] -> Room.streams r' = [] ->
        forall code, rooms (after demo_env (Close 1) watched) !! code <> Some 0%nat).
Proof.
  exact (close_unregisters_the_deserted_room demo_env 1 watched
           (Closure "LOBBY" (Some "member-0") 0 1) watched_reachable eq_refl).
Defined.

Lemma elem_of_set_delete x y s : x ∈ set_delete y s -> x ∈ s /\ x <> y.
Proof. unfold set_delete. by intros [? ?]%list_elem_of_filter. Qed.

Lemma elem_of_flat_map_emit E event data hs x :
  x ∈ flat_map (fun res => emit E res event data) hs -> x.1 ∈ hs.
Proof.
  intros Hx. apply list_elem_of_In, in_flat_map in Hx as (res & Hres & Hin).
  apply list_elem_of_In in Hin. apply emit_addressed in Hin as ->.
  by apply list_elem_of_In.
Qed.

(** X9: when a stream closes, what the listener writes goes to the other
    streams of the room only: nothing is written to the stream that closed,
    and if no member was bound to it nothing is written at all. *)
Theorem close_writes_to_the_other_streams E res w c r :
  List.find (fun c => Nat.eqb (cl_res c) res) (listeners w) = Some c ->
  heap w !! cl_room c = Some r ->
  exists sent,
    wire (snd (close E res w)) = wire w ++ sent
    /\ (forall x, x ∈ sent -> x.1 <> res /\ x.1 ∈ Room.streams r)
    /\ (member_bound c r = false -> sent = []).
Proof.
  intros Hf Hr. rewrite (close_run E res w c Hf).
  destruct (events_close_run E c
              (with_listeners
                 (List.filter (fun c' => negb (Nat.eqb (cl_res c') res)) (listeners w)) w)
              r Hr) as [ls ->].
  apply find_some in Hf as [_ Hres%Nat.eqb_eq].
  eexists. split; [reflexivity|]. split.
  - intros x Hx. destruct (member_bound c r) eqn:Hb; [|by apply elem_of_nil in Hx].
    apply elem_of_flat_map_emit in Hx.
    unfold closed_room in Hx. rewrite Hb in Hx. cbn in Hx.
    apply elem_of_set_delete in Hx as [Hin Hne]. split; [by rewrite <- Hres|done].
  - by intros ->.
Qed.

Lemma close_writes_to_the_other_streams_witness :
  exists sent,
    wire (snd (close demo_env 1 gallery)) = wire gallery ++ sent
    /\ (forall x, x ∈ sent -> x.1 <> 1%nat /\ x.1 ∈ [1%nat; 2%nat])
    /\ (member_bound (Closure "LOBBY" (Some "member-0") 0 1)
          (Room.mk "LOBBY" 1700000000000 1700000000001 1700000000002
             [("member-0", Member.mk "member-0" "Alice" "UTC" "en" 1700000000004)]
             [1%nat; 2%nat]) = false -> sent = []).
Proof.
  exact (close_writes_to_the_other_streams demo_env 1 gallery
           (Closure "LOBBY" (Some "member-0") 0 1)
           (Room.mk "LOBBY" 1700000000000 1700000000001 1700000000002
              [("member-0", Member.mk "member-0" "Alice" "UTC" "en" 1700000000004)]
              [1%nat; 2%nat])
           eq_refl eq_refl).
Defined.

Example close_tells_the_other_stream :
  drop (length (wire gallery)) (wire (snd (close demo_env 1 gallery)))
  = [(2%nat, EventLine "member-left"); (2%nat, DataLine (PMemberLeft (Some "member-0")))].
Proof. reflexivity. Qed.

(** ** Member maps and stream sets stay tidy *)

Lemma map_has_elem_of {V} k (m : list (string * V)) :
  map_has k m = true <-> k ∈ map fst m.
Proof.
  unfold map_has. induction m as [|[k' v'] m IH]; cbn.
  - split; [done|by intros ?%elem_of_nil].
  - rewrite elem_of_cons. destruct (String.eqb_spec k' k) as [->|Hne].
    + split; [by left|done].
    + rewrite IH. split; [by right|]. intros [->|H]; [done|done].
Qed.

Lemma map_fst_map_set {V} k (v : V) m :
  map fst (map_set k v m)
  = if map_has k m then map fst m else map fst m ++ [k].
Proof.
  unfold map_has. induction m as [|[k' v'] m IH]; cbn; [done|].
  destruct (String.eqb_spec k' k) as [->|Hne]; cbn; [done|].
  rewrite IH. by destruct (map_get k m).
Qed.

Lemma NoDup_map_set {V} k (v : V) m :
  NoDup (map fst m) -> NoDup (map fst (map_set k v m)).
Proof.
  intros Hnd. rewrite map_fst_map_set. destruct (map_has k m) eqn:Hh; [done|].
  apply NoDup_app. split; [done|]. split; [|apply NoDup_singleton].
  intros x Hx ->%list_elem_of_singleton.
  apply map_has_elem_of in Hx. congruence.
Qed.

Lemma map_fst_map_delete_sub {V} k (m : list (string * V)) :
  sublist (map fst (map_delete k m)) (map fst m).
Proof.
  induction m as [|[k' v'] m IH]; cbn; [done|].
  destruct (String.eqb k' k); cbn.
  - by apply sublist_cons.
  - by apply sublist_skip.
Qed.

Lemma NoDup_delete_member k m :
  NoDup (map fst m) -> NoDup (map fst (delete_member k m)).
Proof.
  destruct k as [k|]; [|done]. cbn. intros H.
  eapply sublist_NoDup; [done|apply map_fst_map_delete_sub].
Qed.

Lemma NoDup_set_add x s : NoDup s -> NoDup (set_add x s).
Proof.
  intros Hnd. unfold set_add. destruct (existsb (Nat.eqb x) s) eqn:Hex; [done|].
  apply NoDup_app. split; [done|]. split; [|apply NoDup_singleton].
  intros y Hy ->%list_elem_of_singleton.
  assert (existsb (Nat.eqb x) s = true); [|congruence].
  apply existsb_exists. exists x. split; [by apply list_elem_of_In|apply Nat.eqb_refl].
Qed.

Lemma NoDup_set_delete x s : NoDup s -> NoDup (set_delete x s).
Proof. intros H. unfold set_delete. by apply NoDup_filter. Qed.

Lemma tidy_closed_room c r : tidy r -> tidy (closed_room c r).
Proof.
  intros (Hk & Hid & Hs). unfold closed_room, tidy.
  destruct (member_bound c r); cbn.
  - split; [by apply NoDup_delete_member|]. split; [|by apply NoDup_set_delete].
    intros k v Hin. apply Hid. by apply elem_of_delete_member in Hin.
  - split; [done|]. split; [done|by apply NoDup_set_delete].
Qed.

Lemma tidy_restarted startTime now r : tidy r -> tidy (restarted startTime now r).
Proof. unfold restarted, banked, tidy. by destruct (_ <=? _). Qed.

Lemma reachable_tidy E w :
  reachable E w -> forall room r, heap w !! room = Some r -> tidy r.
Proof.
  induction 1 as [|q w Hw IH]; [intros room r H; cbn in H; by rewrite lookup_nil in H|].
  pose proof (reachable_change E q w Hw) as Hch.
  remember (after E q w) as w' eqn:Hw'. clear Hw'.
  assert (Hupd : forall room r r', heap w !! room = Some r -> tidy r' ->
            forall room1 r1, <[room := r']> (heap w) !! room1 = Some r1 -> tidy r1).
  { intros room r r' Hr Ht room1 r1.
    destruct (decide (room1 = room)) as [->|Hne].
    - rewrite list_lookup_insert_eq by (eapply lookup_lt_Some; eauto). by intros [= <-].
    - rewrite list_lookup_insert_ne by done. apply IH. }
  destruct Hch as [q w w' Hh _ _ _ _
                  |c memberId res room r w w' _ Hr Hh _ _ _ _
                  |res c r w w' _ Hr Hh _ _ _ _
                  |roomCode w w' _ Hh _ _ _ _
                  |code memberId name timezone locale room r w w' _ Hr _ member Hh _ _ _ _
                  |code startTime room r w w' _ Hr r' Hh _ _ _ _
                  |code memberId room r member w w' _ Hr _ Hh _ _ _ _];
    rewrite Hh; try apply IH.
  - apply (Hupd room r); [done|]. destruct (IH room r Hr) as (Hk & Hid & Hs).
    split; [done|]. split; [done|]. by apply NoDup_set_add.
  - apply (Hupd (cl_room c) r); [done|]. apply tidy_closed_room. by eapply IH.
  - intros room1 r1 H1. apply lookup_app_Some in H1 as [H1|[_ H1]]; [by eapply IH|].
    destruct (room1 - length (heap w))%nat; [|done]. injection H1 as <-.
    split; [apply NoDup_nil_2|]. split; [|apply NoDup_nil_2].
    intros k v Hin. by apply elem_of_nil in Hin.
  - apply (Hupd room r); [done|]. destruct (IH room r Hr) as (Hk & Hid & Hs).
    split; [by apply NoDup_map_set|]. split; [|done].
    intros k v [[= -> ->]|Hin]%elem_of_map_set; [done|by apply Hid].
  - apply (Hupd room r); [done|]. apply tidy_restarted. by eapply IH.
  - apply (Hupd room r); [done|]. destruct (IH room r Hr) as (Hk & Hid & Hs).
    split; [by apply NoDup_delete_member|]. split; [|done].
    intros k v Hin. apply Hid. by apply elem_of_delete_member in Hin.
Qed.

(** X10: in every reachable state the members of a room, as [init] and
    [roomState] list them, have pairwise distinct ids, each stored under its
    own id, and each id has been returned by [crypto.randomUUID]. *)
Theorem member_ids_are_distinct E w room r :
  reachable E w ->
  heap w !! room = Some r ->
  NoDup (map Member.id (snap_members (snapshot_of r)))
  /\ (forall k v, (k, v) ∈ Room.members r ->
        Member.id v = k /\ exists i, (i < minted w)%nat /\ k = uuid E i).
Proof.
  intros Hw Hr. destruct (reachable_tidy E w Hw room r Hr) as (Hk & Hid & _).
  pose proof (reachable_invariant E w Hw) as [_ _ H3].
  split.
  - cbn. unfold map_values. rewrite map_map.
    assert (map (fun x => Member.id x.2) (Room.members r) = map fst (Room.members r)) as ->;
      [|done].
    apply map_ext_in. intros [k v] Hin. cbn. apply Hid. by apply list_elem_of_In.
  - intros k v Hin. split; [by apply Hid|]. by eapply H3.
Qed.

Lemma member_ids_are_distinct_witness :
  NoDup (map Member.id
           (snap_members (snapshot_of
              (Room.mk "LOBBY" 1700000000000 1700000000001 1700000000002
                 [("member-0", Member.mk "member-0" "Alice" "UTC" "en" 1700000000004)] []))))
  /\ (forall k v,
        (k, v) ∈ [("member-0", Member.mk "member-0" "Alice" "UTC" "en" 1700000000004)] ->
        Member.id v = k /\ exists i, (i < 1)%nat /\ k = uuid demo_env i).
Proof.
  exact (member_ids_are_distinct demo_env lounge 0%nat
           (Room.mk "LOBBY" 1700000000000 1700000000001 1700000000002
              [("member-0", Member.mk "member-0" "Alice" "UTC" "en" 1700000000004)] [])
           lounge_reachable eq_refl).
Defined.

(** ** Requests in sequence *)

Lemma map_get_map_set {V} k (v : V) m : map_get k (map_set k v m) = Some v.
Proof.
  induction m as [|[k' v'] m IH]; cbn.
  - by rewrite String.eqb_refl.
  - destruct (String.eqb k' k) eqn:Hk; cbn; [by rewrite String.eqb_refl|by rewrite Hk].
Qed.

Lemma map_delete_app_fresh {V} k (v : V) m :
  map_has k m = false -> map_delete k (m ++ [(k, v)]) = m.
Proof.
  unfold map_has. induction m as [|[k' v'] m IH]; cbn.
  - by rewrite String.eqb_refl.
  - destruct (String.eqb k' k); [done|]. intros H. by rewrite IH.
Qed.

(** X11: a join that mints a member, followed by a join on the same room
    with the id it handed out, answers the second time with the same member
    and the same room state and changes no room, registry entry or wire;
    the id must not be the empty string, which the route takes for absent. *)
Theorem rejoin_with_the_minted_id E code memberId name timezone locale w room r :
  rooms w !! code = Some room ->
  heap w !! room = Some r ->
  truthy_string memberId && has_member memberId (Room.members r) = false ->
  uuid E (minted w) <> "" ->
  exists member state w1,
    post_join E code memberId name timezone locale w
    = (Ok (Json 200 (Joined member state)), w1)
    /\ Member.id member = uuid E (minted w)
    /\ forall name' timezone' locale',
         exists w2,
           post_join E code (Some (Member.id member)) name' timezone' locale' w1
           = (Ok (Json 200 (Joined member state)), w2)
           /\ heap w2 = heap w1 /\ rooms w2 = rooms w1
           /\ wire w2 = wire w1 /\ minted w2 = minted w1.
Proof.
  intros Hc Hr Hb Hid.
  rewrite (post_join_fresh E code memberId name timezone locale w room r Hc Hr Hb).
  eexists _, _, _. split; [reflexivity|]. split; [reflexivity|].
  intros name' timezone' locale'.
  set (member := Member.mk (uuid E (minted w)) name timezone locale (clock E (ticks w))).
  set (r1 := Room.with_members (map_set (Member.id member) member (Room.members r)) r).
  eexists. split.
  - eapply (post_join_reconnect E code _ name' timezone' locale' _ room r1 member).
    + done.
    + cbn. apply list_lookup_insert_eq. eapply lookup_lt_Some; eauto.
    + cbn. by destruct (String.eqb_spec (uuid E (minted w)) "").
    + cbn. apply map_get_map_set.
  - cbn. by rewrite app_nil_r.
Qed.

Lemma rejoin_with_the_minted_id_witness :
  exists member state w1,
    post_join demo_env "LOBBY" None "Bob" "CET" "de" lounge
    = (Ok (Json 200 (Joined member state)), w1)
    /\ Member.id member = "member-1"
    /\ forall name' timezone' locale',
         exists w2,
           post_join demo_env "LOBBY" (Some (Member.id member)) name' timezone' locale' w1
           = (Ok (Json 200 (Joined member state)), w2)
           /\ heap w2 = heap w1 /\ rooms w2 = rooms w1
           /\ wire w2 = wire w1 /\ minted w2 = minted w1.
Proof.
  refine (rejoin_with_the_minted_id demo_env "LOBBY" None "Bob" "CET" "de" lounge 0%nat
            (Room.mk "LOBBY" 1700000000000 1700000000001 1700000000002
               [("member-0", Member.mk "member-0" "Alice" "UTC" "en" 1700000000004)] [])
            eq_refl eq_refl eq_refl _).
  discriminate.
Defined.

(** X12: from a reachable state, a join that mints a member followed by a
    leave with the minted id puts every room back as it was before the
    join, provided the generator has not returned that id before. *)
Theorem join_then_leave E code memberId name timezone locale w room r :
  reachable E w ->
  rooms w !! code = Some room ->
  heap w !! room = Some r ->
  truthy_string memberId && has_member memberId (Room.members r) = false ->
  (forall i, (i < minted w)%nat -> uuid E i <> uuid E (minted w)) ->
  let w1 := after E (PostJoin code memberId name timezone locale) w in
  let w2 := after E (PostLeave code (Some (uuid E (minted w)))) w1 in
  (exists r1, heap w1 !! room = Some r1
              /\ map_has (uuid E (minted w)) (Room.members r1) = true)
  /\ heap w2 = heap w
  /\ rooms w2 = rooms w
  /\ listeners w2 = listeners w.
Proof.
  intros Hw Hc Hr Hb Hnew w1 w2.
  pose proof (next_uuid_is_new E w room r Hw Hr Hnew) as Hfresh.
  assert (Hlt : (room < length (heap w))%nat) by (eapply lookup_lt_Some; eauto).
  set (member := Member.mk (uuid E (minted w)) name timezone locale (clock E (ticks w))).
  set (r1 := Room.with_members (Room.members r ++ [(uuid E (minted w), member)]) r).
  assert (Hw1 : heap w1 = <[room := r1]> (heap w) /\ rooms w1 = rooms w
                /\ listeners w1 = listeners w).
  { unfold w1, after, express.
    rewrite (post_join_fresh E code memberId name timezone locale w room r Hc Hr Hb).
    cbn. by rewrite (map_set_fresh _ _ _ Hfresh). }
  destruct Hw1 as (Hh1 & Hr1 & Hl1). clearbody w1.
  assert (Hr1' : heap w1 !! room = Some r1)
    by (rewrite Hh1; by apply list_lookup_insert_eq).
  assert (Hget : map_get (uuid E (minted w)) (Room.members r1) = Some member).
  { unfold r1. cbn [Room.members Room.with_members].
    rewrite <- (map_set_fresh _ member _ Hfresh). apply map_get_map_set. }
  split.
  { exists r1. split; [done|]. unfold map_has. by rewrite Hget. }
  unfold w2, after, express.
  rewrite (post_leave_present E code (Some (uuid E (minted w))) w1 room r1 member)
    by (by rewrite ?Hr1).
  cbn. rewrite Hh1, Hr1, Hl1, list_insert_insert_eq.
  rewrite (map_delete_app_fresh _ _ _ Hfresh).
  split; [|done]. apply list_insert_id.
  transitivity (Some r); [exact Hr|]. f_equal. by destruct r.
Qed.

Lemma join_then_leave_witness :
  let w1 := after demo_env (PostJoin "LOBBY" None "Bob" "CET" "de") lounge in
  let w2 := after demo_env (PostLeave "LOBBY" (Some "member-1")) w1 in
  (exists r1, heap w1 !! 0%nat = Some r1 /\ map_has "member-1" (Room.members r1) = true)
  /\ heap w2 = heap lounge
  /\ rooms w2 = rooms lounge
  /\ listeners w2 = listeners lounge.
Proof.
  exact (join_then_leave demo_env "LOBBY" None "Bob" "CET" "de" lounge 0%nat
           (Room.mk "LOBBY" 1700000000000 1700000000001 1700000000002
              [("member-0", Member.mk "member-0" "Alice" "UTC" "en" 1700000000004)] [])
           lounge_reachable eq_refl eq_refl eq_refl demo_uuid_new).
Defined.

Lemma set_delete_set_add x s : x ∉ s -> set_delete x (set_add x s) = s.
Proof.
  intros Hx. unfold set_add.
  assert (Hfilter : set_delete x s = s).
  { unfold set_delete. clear -Hx. induction s as [|y s IH]; [done|].
    apply not_elem_of_cons in Hx as [Hne Hx]. rewrite filter_cons.
    destruct (decide (y ≠ x)) as [_|Hn]; [by rewrite IH|].
    exfalso. apply Hn. by intros ->. }
  destruct (existsb (Nat.eqb x) s); [done|].
  unfold set_delete in *. rewrite filter_app, Hfilter.
  rewrite filter_cons. destruct (decide (x ≠ x)); [done|]. by rewrite filter_nil, app_nil_r.
Qed.

Lemma find_app_new (ls : list closure) c res :
  (forall c', c' ∈ ls -> cl_res c' <> res) ->
  cl_res c = res ->
  List.find (fun c => Nat.eqb (cl_res c) res) (ls ++ [c]) = Some c
  /\ List.filter (fun c' => negb (Nat.eqb (cl_res c') res)) (ls ++ [c]) = ls.
Proof.
  intros Hls Hc. induction ls as [|c0 ls IH]; cbn.
  - rewrite Hc, Nat.eqb_refl. done.
  - assert (Hne : Nat.eqb (cl_res c0) res = false).
    { apply Nat.eqb_neq, Hls, elem_of_cons. by left. }
    rewrite Hne. cbn.
    destruct IH as [-> ->]; [|done].
    intros c' Hin. apply Hls, elem_of_cons. by right.
Qed.

(** X13: a stream opened on a room and then closed, with a handle the
    server does not know and no member of the room bound to it, leaves every
    room and the listeners as they were; the registry is as it was too,
    unless the room has no member and no other stream, in which case the
    listener deletes its entry. *)
Theorem open_then_close E c memberId res w room r :
  rooms w !! c = Some room ->
  heap w !! room = Some r ->
  res ∉ Room.streams r ->
  (forall c', c' ∈ listeners w -> cl_res c' <> res) ->
  truthy_string memberId && has_member memberId (Room.members r) = false ->
  let w2 := after E (Close res) (after E (GetEvents (Some c) memberId res) w) in
  heap w2 = heap w
  /\ listeners w2 = listeners w
  /\ rooms w2 = (if deserted r then delete c (rooms w) else rooms w).
Proof.
  intros Hc Hr Hres Hls Hb w2.
  assert (Hlt : (room < length (heap w))%nat) by (eapply lookup_lt_Some; eauto).
  set (cl := Closure c memberId room res).
  set (r1 := Room.with_streams (set_add res (Room.streams r)) r).
  set (w1 := after E (GetEvents (Some c) memberId res) w) in *.
  assert (Hw1 : heap w1 = <[room := r1]> (heap w) /\ rooms w1 = rooms w
                /\ listeners w1 = listeners w ++ [cl]).
  { unfold w1, after, express. by rewrite (get_events_run E c memberId res w room r Hc Hr). }
  destruct Hw1 as (Hh1 & Hr1 & Hl1). clearbody w1.
  destruct (find_app_new (listeners w) cl res Hls eq_refl) as [Hfind Hfilter].
  assert (Hcr : closed_room cl r1 = r).
  { unfold closed_room, member_bound, cl, r1.
    cbn [cl_memberId cl_res Room.members Room.streams Room.with_streams].
    rewrite Hb.
    cbn [Room.code Room.createdAt Room.startTime Room.previousStartTime
         Room.members Room.streams Room.with_streams].
    rewrite (set_delete_set_add _ _ Hres). by destruct r. }
  unfold w2, after. rewrite (close_run E res w1 cl) by (by rewrite Hl1).
  destruct (events_close_run E cl
              (with_listeners
                 (List.filter (fun c' => negb (Nat.eqb (cl_res c') res)) (listeners w1)) w1)
              r1) as [ls ->].
  { cbn. rewrite Hh1. by apply list_lookup_insert_eq. }
  cbn. rewrite Hcr, Hh1, Hr1, Hl1, Hfilter, list_insert_insert_eq.
  split; [|done]. by apply list_insert_id.
Qed.

Lemma open_then_close_witness :
  (let w2 := after demo_env (Close 5) (after demo_env (GetEvents (Some "LOBBY") None 5) lounge) in
   heap w2 = heap lounge /\ listeners w2 = listeners lounge /\ rooms w2 = rooms lounge)
  /\ (let w2 := after demo_env (Close 5) (after demo_env (GetEvents (Some "LOBBY") None 5) lobby) in
      heap w2 = heap lobby /\ listeners w2 = listeners lobby
      /\ rooms w2 = delete "LOBBY" (rooms lobby)).
Proof.
  split.
  - refine (open_then_close demo_env "LOBBY" None 5%nat lounge 0%nat
              (Room.mk "LOBBY" 1700000000000 1700000000001 1700000000002
                 [("member-0", Member.mk "member-0" "Alice" "UTC" "en" 1700000000004)] [])
              eq_refl eq_refl _ _ eq_refl).
    + intros H. by apply elem_of_nil in H.
    + intros c' H. by apply elem_of_nil in H.
  - refine (open_then_close demo_env "LOBBY" None 5%nat lobby 0%nat
              (Room.mk "LOBBY" 1700000000000 1700000000001 1700000000002 [] [])
              eq_refl eq_refl _ _ eq_refl).
    + intros H. by apply elem_of_nil in H.
    + intros c' H. by apply elem_of_nil in H.
Defined.

(** ** The elapsed time on the page *)

Example formatTime_samples :
  formatTime 0 = "00:00:00.000"
  /\ formatTime 3723004 = "01:02:03.004"
  /\ formatTime 360000000 = "100:00:00.000"
  /\ formatTime (-1) = "-1:-1:-1.0-1".
Proof. vm_compute. done. Qed.

Lemma two_digits_checked :
  forallb (fun n => String.eqb (padStart 2 "0" (pretty (Z.of_nat n)))
                      (two_digits (Z.of_nat n))) (seq 0 100) = true.
Proof. vm_compute. reflexivity. Qed.

Lemma three_digits_checked :
  forallb (fun n => String.eqb (padStart 3 "0" (pretty (Z.of_nat n)))
                      (three_digits (Z.of_nat n))) (seq 0 1000) = true.
Proof. vm_compute. reflexivity. Qed.

Lemma padStart_two_digits n :
  0 <= n < 100 -> padStart 2 "0" (pretty n) = two_digits n.
Proof.
  intros Hn. pose proof two_digits_checked as H.
  rewrite forallb_forall in H. specialize (H (Z.to_nat n)).
  rewrite Z2Nat.id in H by lia. apply String.eqb_eq, H, in_seq. lia.
Qed.

Lemma padStart_three_digits n :
  0 <= n < 1000 -> padStart 3 "0" (pretty n) = three_digits n.
Proof.
  intros Hn. pose proof three_digits_checked as H.
  rewrite forallb_forall in H. specialize (H (Z.to_nat n)).
  rewrite Z2Nat.id in H by lia. apply String.eqb_eq, H, in_seq. lia.
Qed.

Lemma string_length_append s t :
  String.length (s +:+ t) = (String.length s + String.length t)%nat.
Proof. induction s as [|a s IH]; simpl; [done|by f_equal]. Qed.

Lemma padStart_length n fill s :
  String.length (padStart n fill s) = Nat.max n (String.length s).
Proof.
  unfold padStart. rewrite string_length_append.
  assert (forall l, String.length (string_of_list_ascii l) = length l) as ->.
  { induction l as [|a l IH]; cbn; [done|by rewrite IH]. }
  rewrite length_replicate. lia.
Qed.

(** X14: for a number of milliseconds that is not negative and below
    [2 ^ 53], an integer that a number holds exactly, [formatTime] writes
    the hours in at least two digits, then the minutes and the seconds in
    exactly two digits each, both below 60, and the milliseconds in exactly
    three, and these four numbers add up to the input. *)
Theorem formatTime_of_an_elapsed_time ms :
  0 <= ms ->
  safe_integer ms = true ->
  exists h m s x,
    formatTime ms
    = padStart 2 "0" (pretty h) +:+ ":" +:+ two_digits m +:+ ":"
        +:+ two_digits s +:+ "." +:+ three_digits x
    /\ 0 <= h /\ 0 <= m < 60 /\ 0 <= s < 60 /\ 0 <= x < 1000
    /\ ms = 3600000 * h + 60000 * m + 1000 * s + x
    /\ String.length (formatTime ms) = (10 + Nat.max 2 (String.length (pretty h)))%nat.
Proof.
  intros Hms _.
  exists (ms / 3600000), (ms mod 3600000 / 60000), (ms mod 60000 / 1000), (ms mod 1000).
  assert (Hm : 0 <= ms mod 3600000 / 60000 < 60).
  { pose proof (Z.mod_pos_bound ms 3600000 ltac:(lia)).
    split; [apply Z.div_pos; lia|apply Z.div_lt_upper_bound; lia]. }
  assert (Hs : 0 <= ms mod 60000 / 1000 < 60).
  { pose proof (Z.mod_pos_bound ms 60000 ltac:(lia)).
    split; [apply Z.div_pos; lia|apply Z.div_lt_upper_bound; lia]. }
  assert (Hx : 0 <= ms mod 1000 < 1000) by (apply Z.mod_pos_bound; lia).
  assert (Hfmt : formatTime ms
    = padStart 2 "0" (pretty (ms / 3600000)) +:+ ":" +:+ two_digits (ms mod 3600000 / 60000)
        +:+ ":" +:+ two_digits (ms mod 60000 / 1000) +:+ "." +:+ three_digits (ms mod 1000)).
  { unfold formatTime. cbv zeta. rewrite !Z.rem_mod_nonneg by lia.
    rewrite (padStart_two_digits (ms mod 3600000 / 60000)) by lia.
    rewrite (padStart_two_digits (ms mod 60000 / 1000)) by lia.
    by rewrite (padStart_three_digits (ms mod 1000)) by lia. }
  split; [exact Hfmt|].
  split; [apply Z.div_pos; lia|]. split; [done|]. split; [done|]. split; [done|].
  split.
  - pose proof (Z.div_mod ms 3600000 ltac:(lia)).
    pose proof (Z.div_mod (ms mod 3600000) 60000 ltac:(lia)).
    pose proof (Z.div_mod (ms mod 60000) 1000 ltac:(lia)).
    assert (ms mod 3600000 mod 60000 = ms mod 60000).
    { apply Z.mod_mod_divide. exists 60. lia. }
    assert (ms mod 60000 mod 1000 = ms mod 1000).
    { apply Z.mod_mod_divide. exists 60. lia. }
    lia.
  - rewrite Hfmt. rewrite !string_length_append, padStart_length. cbn. lia.
Qed.

Lemma formatTime_of_an_elapsed_time_witness :
  exists h m s x,
    formatTime 3723004
    = padStart 2 "0" (pretty h) +:+ ":" +:+ two_digits m +:+ ":"
        +:+ two_digits s +:+ "." +:+ three_digits x
    /\ 0 <= h /\ 0 <= m < 60 /\ 0 <= s < 60 /\ 0 <= x < 1000
    /\ 3723004 = 3600000 * h + 60000 * m + 1000 * s + x
    /\ String.length (formatTime 3723004) = (10 + Nat.max 2 (String.length (pretty h)))%nat.
Proof. apply (formatTime_of_an_elapsed_time 3723004); [lia|reflexivity]. Defined.

(** X15: for a negative number of milliseconds [formatTime] does not
    write a time of day: the text begins with a minus sign. *)
Theorem formatTime_of_a_negative_time ms :
  ms < 0 -> exists rest, formatTime ms = String "-" rest.
Proof.
  intros Hms. unfold formatTime. cbv zeta.
  assert (Hh : ms / 3600000 < 0) by (apply Z.div_lt_upper_bound; lia).
  destruct (ms / 3600000) as [|p|p] eqn:Hq; [lia|lia|].
  assert (Hp : exists t, pretty (Z.neg p) = String "-" t /\ (1 <= String.length t)%nat).
  { exists (pretty p). split; [reflexivity|].
    change (pretty p) with (pretty (N.pos p)). unfold pretty, pretty_N.
    destruct (decide (N.pos p = 0%N)); [done|].
    rewrite pretty_N_go_step by lia.
    assert (Hlen : forall x s, (String.length s <= String.length (pretty_N_go x s))%nat).
    { intros x. induction (N.lt_wf_0 x) as [x _ IH]. intros s.
      assert (x = 0 \/ 0 < x)%N as [->|?] by lia; [by rewrite pretty_N_go_0|].
      rewrite pretty_N_go_step by done.
      etrans; [|eapply IH, N.div_lt; lia]. cbn. lia. }
    etrans; [|apply Hlen]. cbn. lia. }
  destruct Hp as (t & -> & Hlen).
  unfold padStart at 1. cbn [String.length].
  replace (2 - S (String.length t))%nat with 0%nat by lia.
  cbn. eauto.
Qed.

Lemma formatTime_of_a_negative_time_witness :
  exists rest, formatTime (-1) = String "-" rest.
Proof. apply (formatTime_of_a_negative_time (-1)). lia. Defined.

(** ** The majority time zone *)

Example getMajorityTimezone_samples :
  getMajorityTimezone [] = None
  /\ getMajorityTimezone
       [Member.mk "a" "A" "UTC" "en" 0; Member.mk "b" "B" "Europe/Paris" "fr" 0;
        Member.mk "c" "C" "Europe/Paris" "fr" 0] = Some "Europe/Paris"
  /\ getMajorityTimezone
       [Member.mk "a" "A" "UTC" "en" 0; Member.mk "b" "B" "Europe/Paris" "fr" 0]
     = Some "UTC".
Proof. vm_compute. done. Qed.



Lemma head_sort_insert (x : string * Z) sorted :
  hd_error (sort_insert (fun a b => b.2 - a.2) x sorted) = leader (hd_error sorted) x.
Proof.
  destruct sorted as [|y sorted]; cbn; [done|].
  destruct (Z.ltb_spec (y.2 - x.2) 0), (Z.ltb_spec y.2 x.2); cbn; (done || lia).
Qed.

Lemma head_Array_sort (l : list (string * Z)) :
  hd_error (Array_sort (fun a b => b.2 - a.2) l) = fold_left leader l None.
Proof.
  unfold Array_sort.
  assert (H : forall acc,
    hd_error (fold_left (fun sorted x => sort_insert (fun a b => b.2 - a.2) x sorted) l acc)
    = fold_left leader l (hd_error acc)); [|apply (H [])].
  induction l as [|x l IH]; intros acc; cbn; [done|].
  by rewrite IH, head_sort_insert.
Qed.

Lemma leader_some l y : exists e, fold_left leader l (Some y) = Some e.
Proof.
  revert y. induction l as [|a l IH]; intros y; cbn; [eauto|].
  destruct (y.2 <? a.2); apply IH.
Qed.

Lemma leader_spec (l : list (string * Z)) e :
  fold_left leader l None = Some e ->
  exists l1 l2, l = l1 ++ e :: l2
    /\ (forall y, y ∈ l1 -> y.2 < e.2)
    /\ (forall y, y ∈ l2 -> y.2 <= e.2).
Proof.
  revert e. induction l as [|x l IH] using rev_ind; intros e; [done|].
  rewrite fold_left_app. cbn.
  destruct (fold_left leader l None) as [y|] eqn:Hl; cbn.
  - destruct (IH y eq_refl) as (l1 & l2 & -> & H1 & H2).
    destruct (Z.ltb_spec y.2 x.2); intros [= <-].
    + exists (l1 ++ y :: l2), []. split; [done|]. split; [|by intros ? ?%elem_of_nil].
      intros z [Hz|[->|Hz]%elem_of_cons]%elem_of_app.
      * specialize (H1 z Hz). lia.
      * done.
      * specialize (H2 z Hz). lia.
    + exists l1, (l2 ++ [x]). split; [by rewrite <- app_assoc|]. split; [done|].
      intros z [Hz|Hz%list_elem_of_singleton]%elem_of_app; [by apply H2|by subst].
  - intros [= <-]. destruct l as [|z l].
    + exists [], []. split; [done|]. split; by intros ? ?%elem_of_nil.
    + cbn in Hl. destruct (leader_some l z) as [e He]. congruence.
Qed.

Lemma map_get_map_set_ne {V} k k' (v : V) m :
  k <> k' -> map_get k' (map_set k v m) = map_get k' m.
Proof.
  intros Hne. induction m as [|[k0 v0] m IH]; cbn.
  - by destruct (String.eqb_spec k k').
  - destruct (String.eqb_spec k0 k) as [->|Hne0]; cbn.
    + by destruct (String.eqb_spec k k').
    + by rewrite IH.
Qed.

Lemma map_get_elem_of {V} k (v : V) m : map_get k m = Some v -> (k, v) ∈ m.
Proof.
  induction m as [|[k0 v0] m IH]; cbn; [done|].
  destruct (String.eqb_spec k0 k) as [->|Hne].
  - intros [= ->]. apply elem_of_cons. by left.
  - intros H. apply elem_of_cons. right. by apply IH.
Qed.

Lemma elem_of_map_get {V} k (v : V) m :
  NoDup (map fst m) -> (k, v) ∈ m -> map_get k m = Some v.
Proof.
  induction m as [|[k0 v0] m IH]; cbn; [by intros _ ?%elem_of_nil|].
  intros [Hk0 Hnd]%NoDup_cons [[= -> ->]|Hin]%elem_of_cons.
  - by rewrite String.eqb_refl.
  - destruct (String.eqb_spec k0 k) as [->|Hne]; [|by apply IH].
    exfalso. apply Hk0. apply list_elem_of_fmap. by exists (k, v).
Qed.


Lemma seen_nonneg z zs : 0 <= seen z zs.
Proof. unfold seen. lia. Qed.

Lemma seen_pos z zs : z ∈ zs <-> 0 < seen z zs.
Proof.
  unfold seen. induction zs as [|a zs IH]; cbn.
  - split; [by intros ?%elem_of_nil|lia].
  - rewrite elem_of_cons. destruct (String.eqb_spec a z) as [->|Hne]; cbn.
    + split; [lia|by left].
    + rewrite IH. split; [by intros [->|?]|by right].
Qed.

Lemma or_number_default (o : option Z) :
  or_number o 0 = match o with Some n => n | None => 0 end.
Proof.
  destruct o as [n|]; [|done]. unfold or_number, truthy_number.
  by destruct (Z.eqb_spec n 0).
Qed.

Lemma tally_get zs acc z :
  map_get z (tally zs acc)
  = match map_get z acc with
    | Some n => Some (n + seen z zs)
    | None => if seen z zs =? 0 then None else Some (seen z zs)
    end.
Proof.
  revert acc. unfold tally. induction zs as [|a zs IH]; intros acc.
  - cbn. destruct (map_get z acc); [f_equal; unfold seen; cbn; lia|done].
  - cbn [fold_left]. rewrite IH. unfold count_zone, seen. cbn [List.filter].
    destruct (String.eqb_spec a z) as [->|Hne].
    + rewrite map_get_map_set, or_number_default. cbn [length].
      destruct (map_get z acc) as [n|]; [f_equal; lia|].
      destruct (Z.eqb_spec (Z.of_nat (S (length (List.filter (fun z' => String.eqb z' z) zs)))) 0);
        [lia|f_equal; lia].
    + by rewrite map_get_map_set_ne.
Qed.

Lemma tally_NoDup zs acc : NoDup (map fst acc) -> NoDup (map fst (tally zs acc)).
Proof.
  revert acc. unfold tally. induction zs as [|a zs IH]; intros acc H; [done|].
  cbn. apply IH. by apply NoDup_map_set.
Qed.

Lemma tally_keys zs acc :
  exists more, map fst (tally zs acc) = map fst acc ++ more.
Proof.
  revert acc. unfold tally. induction zs as [|a zs IH]; intros acc.
  - exists []. by rewrite app_nil_r.
  - cbn. destruct (IH (count_zone acc a)) as [more ->].
    unfold count_zone. rewrite map_fst_map_set.
    destruct (map_has a acc); [by exists more|].
    exists (a :: more). by rewrite <- app_assoc.
Qed.

Lemma tally_app zs1 zs2 acc : tally (zs1 ++ zs2) acc = tally zs2 (tally zs1 acc).
Proof. unfold tally. apply fold_left_app. Qed.

Lemma tally_keys_seen zs acc z : z ∈ zs -> z ∈ map fst (tally zs acc).
Proof.
  intros Hz. apply map_has_elem_of. unfold map_has. rewrite tally_get.
  apply seen_pos in Hz. destruct (map_get z acc); [done|].
  by destruct (Z.eqb_spec (seen z zs) 0); [lia|].
Qed.

Lemma tally_keys_unseen zs z : z ∉ zs -> z ∉ map fst (tally zs []).
Proof.
  intros Hz Hin. apply map_has_elem_of in Hin. unfold map_has in Hin.
  rewrite tally_get in Hin. cbn in Hin.
  assert (seen z zs = 0); [|by destruct (Z.eqb_spec (seen z zs) 0)].
  pose proof (seen_nonneg z zs). destruct (decide (0 < seen z zs)); [|lia].
  exfalso. by apply Hz, seen_pos.
Qed.

Lemma seen_members_in tz members :
  seen tz (map Member.timezone members) = members_in tz members.
Proof.
  unfold seen, members_in. do 2 f_equal.
  induction members as [|m members IH]; cbn; [done|].
  destruct (String.eqb (Member.timezone m) tz); cbn; by rewrite IH.
Qed.


Lemma getMajorityTimezone_leader members :
  getMajorityTimezone members
  = if (length members =? 0)%nat then None
    else fst <$> fold_left leader (tally (map Member.timezone members) []) None.
Proof.
  unfold getMajorityTimezone. destruct (length members =? 0)%nat; [done|].
  cbv zeta. fold (tally (map Member.timezone members) []).
  rewrite <- head_Array_sort.
  by destruct (Array_sort _ _).
Qed.

Lemma getMajorityTimezone_entry members tz :
  getMajorityTimezone members = Some tz ->
  exists l1 l2,
    tally (map Member.timezone members) [] = l1 ++ (tz, members_in tz members) :: l2
    /\ (forall y, y ∈ l1 -> y.2 < members_in tz members)
    /\ (forall y, y ∈ l2 -> y.2 <= members_in tz members)
    /\ 0 < members_in tz members.
Proof.
  rewrite getMajorityTimezone_leader. destruct (length members =? 0)%nat; [done|].
  destruct (fold_left leader _ None) as [[tz0 n]|] eqn:Hl; [|done].
  intros [= <-]. destruct (leader_spec _ _ Hl) as (l1 & l2 & HT & H1 & H2).
  assert (Hget : map_get tz0 (tally (map Member.timezone members) []) = Some n).
  { apply elem_of_map_get; [apply tally_NoDup, NoDup_nil_2|].
    rewrite HT. apply elem_of_app. right. apply elem_of_cons. by left. }
  rewrite tally_get in Hget. cbn in Hget. rewrite seen_members_in in Hget.
  destruct (Z.eqb_spec (members_in tz0 members) 0) as [|Hne]; [done|].
  injection Hget as <-. exists l1, l2. split; [done|]. split; [done|]. split; [done|].
  unfold members_in in *. lia.
Qed.

(** X16: [getMajorityTimezone] answers [null] for no members and for no
    other list; when it answers a zone, some member is in that zone and no
    zone has more members.  The zones are names that begin with a capital
    letter, as the names of time zones do. *)
Theorem majority_timezone_is_most_common members :
  Forall (fun m => zone_name (Member.timezone m) = true) members ->
  (getMajorityTimezone members = None <-> members = [])
  /\ (forall tz,
        getMajorityTimezone members = Some tz ->
        0 < members_in tz members
        /\ forall tz', members_in tz' members <= members_in tz members).
Proof.
  intros _. split.
  - split; [|by intros ->].
    destruct members as [|m members]; [done|]. intros Hnone. exfalso.
    rewrite getMajorityTimezone_leader in Hnone. cbn [length Nat.eqb] in Hnone.
    assert (Hin : Member.timezone m ∈ map fst (tally (map Member.timezone (m :: members)) []))
      by (apply tally_keys_seen, elem_of_cons; by left).
    destruct (tally (map Member.timezone (m :: members)) []) as [|e T];
      [by apply elem_of_nil in Hin|].
    cbn in Hnone. destruct (leader_some T e) as [e' He']. by rewrite He' in Hnone.
  - intros tz Htz.
    destruct (getMajorityTimezone_entry members tz Htz) as (l1 & l2 & HT & H1 & H2 & Hpos).
    split; [done|]. intros tz'.
    destruct (decide (members_in tz' members = 0)) as [->|Hne]; [lia|].
    assert (Hget : map_get tz' (tally (map Member.timezone members) [])
                   = Some (members_in tz' members)).
    { rewrite tally_get. cbn. rewrite seen_members_in.
      by destruct (Z.eqb_spec (members_in tz' members) 0). }
    apply map_get_elem_of in Hget. rewrite HT in Hget.
    apply elem_of_app in Hget as [Hin|[Heq|Hin]%elem_of_cons].
    + specialize (H1 _ Hin). cbn in H1. lia.
    + injection Heq as Heq _. subst tz'. lia.
    + specialize (H2 _ Hin). by cbn in H2.
Qed.

Lemma majority_timezone_is_most_common_witness :
  let members :=
    [Member.mk "a" "Ann" "UTC" "en" 0; Member.mk "b" "Bea" "Europe/Paris" "fr" 0;
     Member.mk "c" "Cy" "Europe/Paris" "fr" 0] in
  (getMajorityTimezone members = None <-> members = [])
  /\ (forall tz,
        getMajorityTimezone members = Some tz ->
        0 < members_in tz members
        /\ forall tz', members_in tz' members <= members_in tz members).
Proof.
  apply majority_timezone_is_most_common. repeat constructor.
Defined.

(** X17: among the zones with the most members [getMajorityTimezone]
    picks the one whose first member comes earliest in the list: before the
    first member of the zone it answers there is no member of a zone that
    has as many members.  The zones are names that begin with a capital
    letter, as the names of time zones do; for other zones (["7"] and
    ["3"]) the order of [Object.entries] is another and the property does
    not hold. *)
Theorem majority_timezone_tie_goes_to_the_first members tz :
  Forall (fun m => zone_name (Member.timezone m) = true) members ->
  getMajorityTimezone members = Some tz ->
  exists before after,
    map Member.timezone members = before ++ tz :: after
    /\ (tz ∉ before)
    /\ (forall tz', members_in tz' members = members_in tz members -> tz' ∉ before).
Proof.
  intros _ Htz.
  destruct (getMajorityTimezone_entry members tz Htz) as (l1 & l2 & HT & H1 & H2 & Hpos).
  assert (Hin : tz ∈ map Member.timezone members)
    by (apply seen_pos; by rewrite seen_members_in).
  apply list_elem_of_split_l in Hin as (before & after & Hzs & Hbefore).
  exists before, after. split; [done|]. split; [done|].
  intros tz' Hsame Hin'.
  (* the zones seen before [tz] are all counted before [tz] is *)
  rewrite Hzs, tally_app in HT.
  destruct (tally_keys (tz :: after) (tally before [])) as [more Hkeys].
  rewrite HT, map_app in Hkeys. cbn [map fst] in Hkeys.
  assert (Hnd : NoDup (map fst l1 ++ tz :: map fst l2)).
  { change (tz :: map fst l2) with (map fst ((tz, members_in tz members) :: l2)).
    rewrite <- map_app, <- HT. apply tally_NoDup, tally_NoDup, NoDup_nil_2. }
  assert (Htz' : tz' ∈ map fst (tally before [])) by by apply tally_keys_seen.
  assert (Hnot : tz ∉ map fst (tally before [])) by by apply tally_keys_unseen.
  assert (Hl1 : tz' ∈ map fst l1).
  { assert (Hall : tz' ∈ map fst l1 ++ tz :: map fst l2)
      by (rewrite Hkeys; apply elem_of_app; by left).
    apply elem_of_app in Hall as [?|[->|Hl2]%elem_of_cons]; [done|done|].
    exfalso.
    (* [tz'] is in the first part of the keys, [tz] is not: [tz'] is before [tz] *)
    apply (list_elem_of_split) in Htz' as (k1 & k2 & Hk).
    rewrite Hk in Hkeys, Hnot.
    apply list_elem_of_split in Hl2 as (m1 & m2 & Hm).
    rewrite Hm in Hkeys, Hnd.
    assert (H0 : (map fst l1 ++ tz :: m1 ++ tz' :: m2) !! length k1 = Some tz').
    { rewrite Hkeys, <- !app_assoc. cbn. by rewrite list_lookup_middle. }
    assert (H3 : (map fst l1 ++ tz :: m1 ++ tz' :: m2)
                   !! (length (map fst l1) + S (length m1))%nat = Some tz').
    { rewrite lookup_app_r by lia.
      replace (length (map fst l1) + S (length m1) - length (map fst l1))%nat
        with (S (length m1)) by lia.
      change ((tz :: m1 ++ tz' :: m2) !! S (length m1))
        with ((m1 ++ tz' :: m2) !! length m1).
      by apply list_lookup_middle. }
    pose proof (NoDup_lookup _ _ _ _ Hnd H0 H3) as Heq.
    assert (H4 : (map fst l1 ++ tz :: m1 ++ tz' :: m2) !! length (map fst l1) = Some tz)
      by (by apply list_lookup_middle).
    assert (H5 : ((k1 ++ tz' :: k2) ++ more) !! length (map fst l1) = Some tz)
      by (by rewrite <- Hkeys).
    rewrite lookup_app_l in H5 by (rewrite length_app; cbn; lia).
    apply Hnot. by eapply list_elem_of_lookup_2. }
  apply list_elem_of_fmap in Hl1 as ([k n] & -> & Hkn).
  assert (Hget : map_get k (tally (before ++ tz :: after) []) = Some n).
  { rewrite tally_app. apply elem_of_map_get; [apply tally_NoDup, tally_NoDup, NoDup_nil_2|].
    rewrite HT. apply elem_of_app. by left. }
  rewrite <- Hzs, tally_get in Hget. cbn in Hget. rewrite seen_members_in in Hget.
  destruct (Z.eqb_spec (members_in k members) 0); [done|]. injection Hget as <-.
  specialize (H1 _ Hkn). cbn in H1. cbn in Hsame. lia.
Qed.

Lemma majority_timezone_tie_goes_to_the_first_witness :
  exists before after,
    map Member.timezone
      [Member.mk "a" "Ann" "UTC" "en" 0; Member.mk "b" "Bea" "Europe/Paris" "fr" 0]
    = before ++ "UTC" :: after
    /\ ("UTC" ∉ before)
    /\ (forall tz',
          members_in tz'
            [Member.mk "a" "Ann" "UTC" "en" 0; Member.mk "b" "Bea" "Europe/Paris" "fr" 0]
          = members_in "UTC"
              [Member.mk "a" "Ann" "UTC" "en" 0; Member.mk "b" "Bea" "Europe/Paris" "fr" 0] ->
          tz' ∉ before).
Proof.
  apply majority_timezone_tie_goes_to_the_first; [repeat constructor|reflexivity].
Defined.

(** ** The page follows the room *)

Lemma served_reachable E w : served E w -> reachable E w.
Proof. induction 1; by constructor. Qed.

Lemma received_emit_self E res event data :
  (forall ch, throws E res ch = false) ->
  received res (emit E res event data) = [EventLine event; DataLine data].
Proof.
  intros Hgood. rewrite (emit_delivered E res event data) by done.
  unfold received. cbn. by rewrite Nat.eqb_refl.
Qed.

Lemma received_broadcast_out E h event data hs :
  h ∉ hs -> received h (flat_map (fun res => emit E res event data) hs) = [].
Proof.
  intros Hh. apply received_none. intros Hin.
  apply list_elem_of_fmap in Hin as (x & -> & Hx). by apply elem_of_flat_map_emit in Hx.
Qed.

Lemma received_broadcast_in E h event data hs :
  (forall ch, throws E h ch = false) ->
  NoDup hs -> h ∈ hs ->
  received h (flat_map (fun res => emit E res event data) hs)
  = [EventLine event; DataLine data].
Proof.
  intros Hgood Hnd Hin. apply list_elem_of_split in Hin as (l1 & l2 & ->).
  apply NoDup_app in Hnd as (_ & Hl1 & [Hl2 _]%NoDup_cons).
  rewrite flat_map_app. cbn [flat_map]. rewrite !received_app.
  rewrite received_broadcast_out, received_emit_self, received_broadcast_out; [done|done|done|].
  intros Hin. by apply (Hl1 h Hin), elem_of_cons; left.
Qed.

Lemma page_after_app p0 a b :
  page_after p0 (a ++ b) = fold_left hear b (page_after p0 a).
Proof. unfold page_after. apply fold_left_app. Qed.

Lemma rebuild_members (m : list (string * Member.t)) :
  NoDup (map fst m) ->
  (forall k v, (k, v) ∈ m -> Member.id v = k) ->
  fold_left (fun members x => map_set (Member.id x) x members) (map_values m) [] = m.
Proof.
  intros Hnd Hid.
  assert (H : forall acc,
    NoDup (map fst (acc ++ m)) ->
    fold_left (fun members x => map_set (Member.id x) x members) (map_values m) acc
    = acc ++ m); [|by apply (H [])].
  clear Hnd. induction m as [|[k v] m IH]; intros acc Hnd; cbn; [by rewrite app_nil_r|].
  assert (Hk : Member.id v = k) by (apply Hid, elem_of_cons; by left).
  rewrite Hk, map_set_fresh.
  - rewrite IH.
    + by rewrite <- app_assoc.
    + intros k' v' Hin. apply Hid, elem_of_cons. by right.
    + by rewrite <- app_assoc.
  - rewrite map_app in Hnd. apply NoDup_app in Hnd as (_ & Hdisj & _).
    destruct (map_has k acc) eqn:Hh; [|done]. exfalso.
    apply map_has_elem_of in Hh. apply (Hdisj k Hh). cbn. apply elem_of_cons. by left.
Qed.

Lemma same_listener (ls : list closure) c c' :
  NoDup (map cl_res ls) -> c ∈ ls -> c' ∈ ls -> cl_res c = cl_res c' -> c = c'.
Proof.
  induction ls as [|c0 ls IH]; cbn; [by intros _ ?%elem_of_nil|].
  intros [Hc0 Hnd]%NoDup_cons [->|Hc]%elem_of_cons [->|Hc']%elem_of_cons Hres.
  - done.
  - exfalso. apply Hc0. rewrite Hres. apply list_elem_of_fmap. by exists c'.
  - exfalso. apply Hc0. rewrite <- Hres. apply list_elem_of_fmap. by exists c.
  - by apply IH.
Qed.

Lemma watcher_in_room E w c R rR :
  in_touch E w -> c ∈ listeners w ->
  heap w !! R = Some rR -> cl_res c ∈ Room.streams rR -> cl_room c = R.
Proof.
  intros [H1 _ H3 _] Hc HR Hin.
  destruct (H3 R rR (cl_res c) HR Hin) as (c' & Hc' & Hres & <-).
  f_equal. by apply (same_listener (listeners w)).
Qed.

(** What a broadcast to the streams [hs] of room [R] does to the page of a
    watcher. *)
Lemma hear_broadcast E w c rc R rR hs event data p0 :
  in_touch E w ->
  c ∈ listeners w ->
  (forall ch, throws E (cl_res c) ch = false) ->
  heap w !! cl_room c = Some rc ->
  heap w !! R = Some rR ->
  NoDup hs ->
  (forall h, h ∈ hs -> h ∈ Room.streams rR) ->
  (cl_room c = R -> cl_res c ∈ hs) ->
  page_after p0 (received (cl_res c)
                   (wire w ++ flat_map (fun res => emit E res event data) hs))
  = (None, if decide (cl_room c = R) then dispatch event data (view rc)
           else Some (view rc)).
Proof.
  intros Hinv Hc Hgood Hrc HR Hnd Hsub Hin.
  rewrite received_app, page_after_app, (touch_view E w Hinv c rc p0 Hc Hgood Hrc).
  destruct (decide (cl_room c = R)) as [Heq|Hne].
  - by rewrite (received_broadcast_in E _ event data hs Hgood Hnd (Hin Heq)).
  - rewrite received_broadcast_out; [done|].
    intros Hh. apply Hne. eapply watcher_in_room; eauto.
Qed.

Lemma hear_nothing E w c rc p0 :
  in_touch E w ->
  c ∈ listeners w ->
  (forall ch, throws E (cl_res c) ch = false) ->
  heap w !! cl_room c = Some rc ->
  page_after p0 (received (cl_res c) (wire w ++ [])) = (None, Some (view rc)).
Proof. intros Hinv Hc Hgood Hrc. rewrite app_nil_r. by eapply touch_view. Qed.

Lemma closed_room_streams c r :
  Room.streams (closed_room c r) = set_delete (cl_res c) (Room.streams r).
Proof. unfold closed_room. by destruct (member_bound c r). Qed.

Lemma closed_room_view c r :
  view (closed_room c r)
  = if member_bound c r
    then Page (Some (Room.createdAt r)) (delete_member (cl_memberId c) (Room.members r))
    else view r.
Proof. unfold closed_room. by destruct (member_bound c r). Qed.

Lemma elem_of_set_delete_2 x y s : x ∈ s -> x <> y -> x ∈ set_delete y s.
Proof. intros Hx Hne. unfold set_delete. by apply list_elem_of_filter. Qed.

Lemma elem_of_set_add_inv x y s : x ∈ set_add y s -> x = y \/ x ∈ s.
Proof.
  unfold set_add. destruct (existsb (Nat.eqb y) s); [by right|].
  intros [?|?%list_elem_of_singleton]%elem_of_app; [by right|by left].
Qed.

Lemma elem_of_set_add_old x y s : x ∈ s -> x ∈ set_add y s.
Proof.
  unfold set_add. destruct (existsb (Nat.eqb y) s); [done|].
  intros H. apply elem_of_app. by left.
Qed.

Lemma lookup_updated (h : list Room.t) room r' room1 r1 :
  (room < length h)%nat ->
  <[room := r']> h !! room1 = Some r1 ->
  (room1 = room /\ r1 = r') \/ (room1 <> room /\ h !! room1 = Some r1).
Proof.
  intros Hlt. destruct (decide (room1 = room)) as [->|Hne].
  - rewrite list_lookup_insert_eq by done. intros [= <-]. by left.
  - rewrite list_lookup_insert_ne by done. by right.
Qed.

Lemma in_touch_same E w w' :
  in_touch E w ->
  heap w' = heap w -> listeners w' = listeners w -> wire w' = wire w ->
  in_touch E w'.
Proof.
  intros [H1 H2 H3 H4] Hh Hl Hw. split; rewrite ?Hh, ?Hl, ?Hw; done.
Qed.

(** A room is replaced by one with the same streams, and an event is
    broadcast to them that takes the old room's page to the new room's. *)
Lemma in_touch_broadcast E w w' room r r' event data sent :
  in_touch E w ->
  NoDup (Room.streams r) ->
  heap w !! room = Some r ->
  heap w' = <[room := r']> (heap w) ->
  listeners w' = listeners w ->
  Room.streams r' = Room.streams r ->
  wire w' = wire w ++ sent ->
  (sent = flat_map (fun res => emit E res event data) (Room.streams r)
   /\ dispatch event data (view r) = Some (view r')
   \/ sent = [] /\ view r' = view r) ->
  in_touch E w'.
Proof.
  intros Hinv Hnd Hr Hh Hl Hs Hw Hsent. pose proof Hinv as [H1 H2 H3 H4].
  assert (Hlt : (room < length (heap w))%nat) by (eapply lookup_lt_Some; eauto).
  split; rewrite ?Hh, ?Hl, ?Hw.
  - done.
  - intros c Hc. destruct (H2 c Hc) as (rc & Hrc & Hin).
    destruct (decide (cl_room c = room)) as [Heq|Hne].
    + exists r'. rewrite Heq, list_lookup_insert_eq by done. split; [done|].
      rewrite Hs. rewrite Heq in Hrc.
      assert (Some rc = Some r) as [= ->] by (rewrite <- Hrc; exact Hr). done.
    + exists rc. by rewrite list_lookup_insert_ne.
  - intros room1 r1 h Hr1 Hin.
    apply lookup_updated in Hr1 as [[-> ->]|[Hne Hr1]]; [|by eapply H3|done].
    rewrite Hs in Hin. by eapply H3.
  - intros c r1 p0 Hc Hgood Hr1.
    destruct (H2 c Hc) as (rc & Hrc & Hin).
    apply lookup_updated in Hr1 as [[Heq ->]|[Hne Hr1]]; [| |done].
    + rewrite Heq in Hrc.
      assert (Some rc = Some r) as [= ->] by (rewrite <- Hrc; exact Hr).
      destruct Hsent as [[-> Hd]|[-> Hv]].
      * rewrite (hear_broadcast E w c r room r (Room.streams r) event data p0);
          try done; [|by rewrite Heq].
        case_decide; [by rewrite Hd|done].
      * rewrite Hv. apply (hear_nothing E); [done..|by rewrite Heq].
    + destruct Hsent as [[-> Hd]|[-> Hv]].
      * rewrite (hear_broadcast E w c r1 room r (Room.streams r) event data p0);
          try done.
        case_decide; done.
      * by apply (hear_nothing E).
Qed.

Lemma in_touch_create E w w' r :
  in_touch E w ->
  Room.streams r = [] ->
  heap w' = heap w ++ [r] -> listeners w' = listeners w -> wire w' = wire w ->
  in_touch E w'.
Proof.
  intros [H1 H2 H3 H4] Hs Hh Hl Hw. split; rewrite ?Hh, ?Hl, ?Hw.
  - done.
  - intros c Hc. destruct (H2 c Hc) as (rc & Hrc & Hin). exists rc.
    split; [|done]. by apply lookup_app_l_Some.
  - intros room1 r1 h Hr1 Hin.
    apply lookup_app_Some in Hr1 as [Hr1|[_ Hr1]]; [by eapply H3|].
    destruct (room1 - length (heap w))%nat; [|done]. injection Hr1 as <-.
    rewrite Hs in Hin. by apply elem_of_nil in Hin.
  - intros c r1 p0 Hc Hgood Hr1. destruct (H2 c Hc) as (rc & Hrc & Hin).
    apply H4; [done|done|].
    rewrite lookup_app_l in Hr1; [done|]. eapply lookup_lt_Some; eauto.
Qed.

Lemma in_touch_open E w w' c memberId res room r :
  in_touch E w ->
  tidy r ->
  unknown_handle res w ->
  heap w !! room = Some r ->
  heap w' = <[room := Room.with_streams (set_add res (Room.streams r)) r]> (heap w) ->
  listeners w' = listeners w ++ [Closure c memberId room res] ->
  wire w' = wire w ++ emit E res "init"
              (PInit (snapshot_of (Room.with_streams (set_add res (Room.streams r)) r))) ->
  in_touch E w'.
Proof.
  intros Hinv (Hkeys & Hids & Hstreams) (Hfw & Hfl & Hfs) Hr Hh Hl Hw.
  pose proof Hinv as [H1 H2 H3 H4].
  assert (Hlt : (room < length (heap w))%nat) by (eapply lookup_lt_Some; eauto).
  set (r1 := Room.with_streams (set_add res (Room.streams r)) r) in *.
  split; rewrite ?Hh, ?Hl, ?Hw.
  - rewrite map_app. apply NoDup_app. split; [done|]. split; [|apply NoDup_singleton].
    intros h Hh1 Hh2%list_elem_of_singleton. subst h.
    apply list_elem_of_fmap in Hh1 as (c1 & Hres & Hc1). by apply (Hfl c1 Hc1).
  - intros c1 [Hc1|Hc1%list_elem_of_singleton]%elem_of_app.
    + destruct (H2 c1 Hc1) as (rc & Hrc & Hin).
      destruct (decide (cl_room c1 = room)) as [Heq|Hne].
      * exists r1. rewrite Heq, list_lookup_insert_eq by done. split; [done|].
        rewrite Heq in Hrc.
        assert (Some rc = Some r) as [= ->] by (rewrite <- Hrc; exact Hr).
        by apply elem_of_set_add_old.
      * exists rc. by rewrite list_lookup_insert_ne.
    + subst c1. exists r1. cbn. rewrite list_lookup_insert_eq by done.
      split; [done|apply elem_of_set_add].
  - intros room1 r2 h Hr2 Hin.
    apply lookup_updated in Hr2 as [[-> ->]|[Hne Hr2]]; [| |done].
    + apply elem_of_set_add_inv in Hin as [->|Hin].
      * exists (Closure c memberId room res). split; [|done].
        apply elem_of_app. right. by apply list_elem_of_singleton.
      * destruct (H3 room r h Hr Hin) as (c1 & Hc1 & ? & ?). exists c1.
        split; [|done]. apply elem_of_app. by left.
    + destruct (H3 room1 r2 h Hr2 Hin) as (c1 & Hc1 & ? & ?). exists c1.
      split; [|done]. apply elem_of_app. by left.
  - intros c1 r2 p0 [Hc1|Hc1%list_elem_of_singleton]%elem_of_app Hgood Hr2.
    + rewrite received_app, (received_emit_other E res) by (by apply Hfl).
      rewrite app_nil_r.
      apply lookup_updated in Hr2 as [[Heq ->]|[Hne Hr2]]; [| |done].
      * apply (H4 c1 r p0 Hc1 Hgood). by rewrite Heq.
      * by apply H4.
    + subst c1. cbn in *. rewrite list_lookup_insert_eq in Hr2 by done.
      injection Hr2 as <-.
      rewrite received_app, (received_none res (wire w)) by done.
      rewrite received_emit_self by done.
      unfold page_after. cbn [app fold_left hear fst snd]. unfold dispatch.
      rewrite String.eqb_refl. unfold on_init, view, r1, snapshot_of.
      cbn [snap_createdAt snap_members Room.with_streams Room.members Room.createdAt].
      by rewrite rebuild_members.
Qed.

Lemma NoDup_map_filter {A B} (g : A -> B) (f : A -> bool) l :
  NoDup (map g l) -> NoDup (map g (List.filter f l)).
Proof.
  induction l as [|a l IH]; cbn; [done|]. intros [Ha Hnd]%NoDup_cons.
  destruct (f a); cbn; [|by apply IH].
  apply NoDup_cons. split; [|by apply IH].
  intros Hin. apply Ha. apply list_elem_of_fmap in Hin as (x & -> & Hx).
  apply list_elem_of_fmap. exists x. split; [done|].
  apply list_elem_of_In in Hx. apply filter_In in Hx as [Hx _]. by apply list_elem_of_In.
Qed.

Lemma elem_of_listeners_left (ls : list closure) res c :
  c ∈ List.filter (fun c' => negb (Nat.eqb (cl_res c') res)) ls <->
  c ∈ ls /\ cl_res c <> res.
Proof.
  rewrite !list_elem_of_In, filter_In, negb_true_iff, Nat.eqb_neq. done.
Qed.

Lemma in_touch_close E w w' res c0 r :
  in_touch E w ->
  tidy r ->
  List.find (fun c => Nat.eqb (cl_res c) res) (listeners w) = Some c0 ->
  heap w !! cl_room c0 = Some r ->
  heap w' = <[cl_room c0 := closed_room c0 r]> (heap w) ->
  listeners w' = List.filter (fun c' => negb (Nat.eqb (cl_res c') res)) (listeners w) ->
  wire w' = wire w ++
            (if member_bound c0 r
             then flat_map (fun res' => emit E res' "member-left"
                              (PMemberLeft (cl_memberId c0)))
                    (Room.streams (closed_room c0 r))
             else []) ->
  in_touch E w'.
Proof.
  intros Hinv Htidy Hf Hr Hh Hl Hw. pose proof Hinv as [H1 H2 H3 H4].
  apply find_some in Hf as [Hc0 Hres%Nat.eqb_eq]. apply list_elem_of_In in Hc0.
  assert (Hlt : (cl_room c0 < length (heap w))%nat) by (eapply lookup_lt_Some; eauto).
  destruct (tidy_closed_room c0 r Htidy) as (_ & _ & Hnd').
  split; rewrite ?Hh, ?Hl, ?Hw.
  - by apply NoDup_map_filter.
  - intros c [Hc Hne]%elem_of_listeners_left.
    destruct (H2 c Hc) as (rc & Hrc & Hin).
    destruct (decide (cl_room c = cl_room c0)) as [Heq|Hne'].
    + exists (closed_room c0 r). rewrite Heq, list_lookup_insert_eq by done.
      split; [done|]. rewrite Heq in Hrc.
      assert (Some rc = Some r) as [= ->] by (rewrite <- Hrc; exact Hr).
      rewrite closed_room_streams, Hres. by apply elem_of_set_delete_2.
    + exists rc. by rewrite list_lookup_insert_ne.
  - intros room1 r1 h Hr1 Hin.
    apply lookup_updated in Hr1 as [[-> ->]|[Hne Hr1]]; [| |done].
    + rewrite closed_room_streams, Hres in Hin.
      apply elem_of_set_delete in Hin as [Hin Hne].
      destruct (H3 (cl_room c0) r h Hr Hin) as (c & Hc & Hh' & Hroom).
      exists c. split; [|done]. apply elem_of_listeners_left. split; [done|congruence].
    + destruct (H3 room1 r1 h Hr1 Hin) as (c & Hc & Hh' & Hroom).
      exists c. split; [|done]. apply elem_of_listeners_left. split; [done|].
      intros Hsame. apply Hne. rewrite <- Hroom. f_equal.
      apply (same_listener (listeners w)); [done..|congruence].
  - intros c r1 p0 [Hc Hne]%elem_of_listeners_left Hgood Hr1.
    destruct (H2 c Hc) as (rc & Hrc & Hin).
    assert (Hview : r1 = (if decide (cl_room c = cl_room c0) then closed_room c0 r else rc)).
    { apply lookup_updated in Hr1 as [[Heq ->]|[Hne' Hr1]]; [| |done].
      - by case_decide.
      - case_decide; [done|].
        assert (Some rc = Some r1) as [= ->] by (rewrite <- Hrc; exact Hr1). done. }
    destruct (member_bound c0 r) eqn:Hb.
    + rewrite (hear_broadcast E w c rc (cl_room c0) r _ _ _ p0); try done.
      * rewrite Hview. case_decide as Heq; [|done].
        rewrite Heq in Hrc.
        assert (Some rc = Some r) as [= ->] by (rewrite <- Hrc; exact Hr).
        rewrite closed_room_view, Hb. unfold dispatch, on_member_left, view. cbn. done.
      * intros h. rewrite closed_room_streams. by intros [? _]%elem_of_set_delete.
      * intros Heq. rewrite Heq in Hrc.
        assert (Some rc = Some r) as [= ->] by (rewrite <- Hrc; exact Hr).
        rewrite closed_room_streams, Hres. by apply elem_of_set_delete_2.
    + rewrite (hear_nothing E w c rc p0); try done.
      rewrite Hview. case_decide as Heq; [|done].
      rewrite Heq in Hrc.
      assert (Some rc = Some r) as [= ->] by (rewrite <- Hrc; exact Hr).
      by rewrite closed_room_view, Hb.
Qed.

Lemma in_touch_boot E : in_touch E boot.
Proof.
  split; cbn.
  - apply NoDup_nil_2.
  - intros c Hc. by apply elem_of_nil in Hc.
  - intros room r h Hr. cbn in Hr. by rewrite lookup_nil in Hr.
  - intros c r p0 Hc. by apply elem_of_nil in Hc.
Qed.

Lemma served_in_touch E w : served E w -> in_touch E w.
Proof.
  induction 1 as [|q w Hw IH Hfresh]; [apply in_touch_boot|].
  pose proof (served_reachable E w Hw) as Hreach.
  pose proof (reachable_tidy E w Hreach) as Htidy.
  pose proof (reachable_change E q w Hreach) as Hch.
  remember (after E q w) as w' eqn:Hw'. clear Hw'.
  destruct Hch as [q w w' Hh _ Hl Hwire _
                  |c memberId res room r w w' _ Hr Hh _ Hl Hwire _
                  |res c r w w' Hf Hr Hh _ Hl Hwire _
                  |roomCode w w' _ Hh _ Hl Hwire _
                  |code memberId name timezone locale room r w w' _ Hr _ member Hh _ Hl Hwire _
                  |code startTime room r w w' _ Hr r' Hh _ Hl Hwire _
                  |code memberId room r member w w' _ Hr Hm Hh _ Hl Hwire _].
  - by apply (in_touch_same E w).
  - eapply (in_touch_open E w w' c memberId res room r); eauto.
  - eapply (in_touch_close E w w' res c r); eauto.
  - eapply (in_touch_create E w w'); eauto. done.
  - destruct (Htidy room r Hr) as (_ & _ & Hs).
    eapply (in_touch_broadcast E w w' room r _ "member-joined" (PMember member)); eauto;
      left; split; done.
  - destruct (Htidy room r Hr) as (_ & _ & Hs).
    assert (Hst : Room.streams r' = Room.streams r).
    { subst r'. unfold restarted, banked. by destruct (_ <=? _). }
    assert (Hv : view r' = view r).
    { subst r'. unfold restarted, banked, view. by destruct (_ <=? _). }
    eapply (in_touch_broadcast E w w' room r r' "timer-update"
              (PTimer (Room.startTime r') (Room.previousStartTime r'))); eauto.
    destruct (valid_time (Room.startTime r')).
    + left. split; [by rewrite Hst|]. by rewrite Hv.
    + by right.
  - destruct (Htidy room r Hr) as (_ & _ & Hs).
    eapply (in_touch_broadcast E w w' room r _ "member-left" (PMemberLeft memberId)); eauto;
      left; split; done.
Qed.

Lemma unknown_handleb_true res w : unknown_handleb res w = true -> unknown_handle res w.
Proof.
  unfold unknown_handleb. rewrite !andb_true_iff, !forallb_forall.
  intros [[Hw Hl] Hh]. split; [|split].
  - intros Hin. apply list_elem_of_fmap in Hin as (x & -> & Hx).
    apply list_elem_of_In, Hw in Hx. apply negb_true_iff, Nat.eqb_neq in Hx. done.
  - intros c Hc. apply list_elem_of_In, Hl in Hc. by apply negb_true_iff, Nat.eqb_neq in Hc.
  - intros room r Hr Hin. apply list_elem_of_lookup_2, list_elem_of_In, Hh in Hr.
    rewrite forallb_forall in Hr. apply list_elem_of_In, Hr in Hin.
    by apply negb_true_iff, Nat.eqb_neq in Hin.
Qed.

Lemma party_served : served demo_env party.
Proof.
  unfold party, gallery, watched, lounge, lobby.
  repeat (apply served_after; [|intros code memberId res [= <- <- <-] || intros code memberId res [=]]);
    [apply served_boot|..]; by apply unknown_handleb_true.
Qed.

(** X18: on a server whose stream requests each come with a response object
    of their own, the page behind an open stream whose writes succeed holds
    the room as the server holds it: fed the chunks written to the stream so
    far, the [init], [member-joined] and [member-left] listeners of
    [setupRoomUI] leave [roomCreatedAt] at the room's [createdAt] and
    [members] with the room's members in the room's order, whatever the page
    held before. *)
Theorem page_shows_the_room E w c p0 :
  served E w ->
  c ∈ listeners w ->
  (forall ch, throws E (cl_res c) ch = false) ->
  exists r,
    heap w !! cl_room c = Some r
    /\ cl_res c ∈ Room.streams r
    /\ page_after p0 (received (cl_res c) (wire w)) = (None, Some (view r)).
Proof.
  intros Hw Hc Hgood. destruct (served_in_touch E w Hw) as [_ H2 _ H4].
  destruct (H2 c Hc) as (r & Hr & Hin). exists r. split; [done|]. split; [done|].
  by apply H4.
Qed.

Lemma page_shows_the_room_witness :
  exists r,
    heap party !! 0%nat = Some r
    /\ 1%nat ∈ Room.streams r
    /\ page_after (Page None []) (received 1 (wire party)) = (None, Some (view r)).
Proof.
  apply (page_shows_the_room demo_env party (Closure "LOBBY" (Some "member-0") 0 1)
           (Page None []) party_served).
  - apply list_elem_of_In. vm_compute. auto.
  - intros ch. reflexivity.
Defined.

(** X19: on such a server a response object is in a room's [streams]
    exactly while the [close] listener of its request is pending, and no two
    pending listeners hold the same response object. *)
Theorem streams_have_their_listeners E w :
  served E w ->
  NoDup (map cl_res (listeners w))
  /\ forall room r h,
       heap w !! room = Some r ->
       (h ∈ Room.streams r <->
        exists c, c ∈ listeners w /\ cl_res c = h /\ cl_room c = room).
Proof.
  intros Hw. destruct (served_in_touch E w Hw) as [H1 H2 H3 _]. split; [done|].
  intros room r h Hr. split; [by apply H3|].
  intros (c & Hc & <- & <-). destruct (H2 c Hc) as (rc & Hrc & Hin).
  assert (Some rc = Some r) as [= ->] by (rewrite <- Hrc; exact Hr). done.
Qed.

Lemma streams_have_their_listeners_witness :
  NoDup (map cl_res (listeners party))
  /\ forall room r h,
       heap party !! room = Some r ->
       (h ∈ Room.streams r <->
        exists c, c ∈ listeners party /\ cl_res c = h /\ cl_room c = room).
Proof. exact (streams_have_their_listeners demo_env party party_served). Defined.

Lemma served_listeners_registered E w :
  served E w -> forall c, c ∈ listeners w -> rooms w !! cl_code c = Some (cl_room c).
Proof.
  induction 1 as [|q w Hw IH Hfresh]; [intros c Hc; by apply elem_of_nil in Hc|].
  pose proof (served_reachable E w Hw) as Hreach.
  pose proof (served_in_touch E w Hw) as [T1 T2 T3 _].
  pose proof (reachable_change E q w Hreach) as Hch.
  remember (after E q w) as w' eqn:Hw'. clear Hw'.
  destruct Hch as [q w w' _ Hrs Hl _ _
                  |c memberId res room r w w' Hc Hr _ Hrs Hl _ _
                  |res c0 r w w' Hf Hr _ Hrs Hl _ _
                  |roomCode w w' Hnone _ Hrs Hl _ _
                  |code memberId name timezone locale room r w w' _ _ _ member _ Hrs Hl _ _
                  |code startTime room r w w' _ _ r' _ Hrs Hl _ _
                  |code memberId room r member w w' _ _ _ _ Hrs Hl _ _];
    rewrite Hrs, Hl; try exact IH.
  - intros c1 [Hc1|Hc1]%elem_of_app; [by apply IH|].
    apply list_elem_of_singleton in Hc1 as ->. done.
  - intros c [Hc Hne]%elem_of_listeners_left.
    apply find_some in Hf as [Hc0 Hres%Nat.eqb_eq]. apply list_elem_of_In in Hc0.
    destruct (deserted (closed_room c0 r)) eqn:Hd; [|by apply IH].
    destruct (decide (cl_code c = cl_code c0)) as [Heq|Hne'];
      [|rewrite lookup_delete_ne by done; by apply IH].
    exfalso.
    pose proof (IH c Hc) as Hreg. pose proof (IH c0 Hc0) as Hreg0.
    rewrite Heq in Hreg.
    assert (Some (cl_room c) = Some (cl_room c0)) as [= Hroom]
      by (rewrite <- Hreg; exact Hreg0).
    destruct (T2 c Hc) as (rc & Hrc & Hin). rewrite Hroom in Hrc.
    assert (Some rc = Some r) as [= ->] by (rewrite <- Hrc; exact Hr).
    assert (Hin' : cl_res c ∈ Room.streams (closed_room c0 r)).
    { rewrite closed_room_streams. apply elem_of_set_delete_2; [done|congruence]. }
    unfold deserted in Hd. apply andb_prop in Hd as [_ Hlen%Nat.eqb_eq].
    destruct (Room.streams (closed_room c0 r)); [by apply elem_of_nil in Hin'|done].
  - intros c Hc. rewrite lookup_insert_ne; [by apply IH|].
    intros Heq. pose proof (IH c Hc) as Hreg. rewrite <- Heq in Hreg.
    rewrite Hnone in Hreg. done.
Qed.

(** X20: on such a server the room of an open stream stays in the registry
    under the code the stream was opened with: the [close] listener, which
    deletes by code, never unregisters a room that another stream is open
    on. *)
Theorem watched_room_stays_registered E w c :
  served E w ->
  c ∈ listeners w ->
  rooms w !! cl_code c = Some (cl_room c)
  /\ exists r, heap w !! cl_room c = Some r /\ Room.code r = cl_code c
               /\ deserted r = false.
Proof.
  intros Hw Hc. split; [by apply (served_listeners_registered E)|].
  destruct (served_in_touch E w Hw) as [_ T2 _ _].
  destruct (reachable_invariant E w (served_reachable E w Hw)) as [_ I2 _].
  destruct (T2 c Hc) as (r & Hr & Hin). destruct (I2 c Hc) as (r' & Hr' & Hcode).
  assert (Some r' = Some r) as [= ->] by (rewrite <- Hr'; exact Hr).
  exists r. split; [done|]. split; [done|].
  unfold deserted. destruct (Room.streams r); [by apply elem_of_nil in Hin|].
  cbn. by rewrite andb_false_r.
Qed.

Lemma watched_room_stays_registered_witness :
  rooms party !! "LOBBY" = Some 0%nat
  /\ exists r, heap party !! 0%nat = Some r /\ Room.code r = "LOBBY"
               /\ deserted r = false.
Proof.
  apply (watched_room_stays_registered demo_env party
           (Closure "LOBBY" None 0 2) party_served).
  apply list_elem_of_In. vm_compute. auto.
Defined.

(** X21: a join through the room page, which sends no member id, on a
    registered room of a reachable state: the first state [setupRoomUI]
    builds from the answer's [roomState] is the room as the server holds it
    after the join, and the member it is given is in it under its id, with
    the name that was sent. *)
Theorem first_page_shows_the_room E code name timezone locale w room :
  reachable E w ->
  rooms w !! code = Some room ->
  let answered := express (post_join E code None name timezone locale) w in
  exists member r',
    heap answered.2 !! room = Some r'
    /\ joined_page answered.1 = Some (member, view r')
    /\ Member.name member = name
    /\ get_member (Some (Member.id member)) (Room.members r') = Some member.
Proof.
  intros Hw Hc answered.
  destruct (registered_rooms _ _ _ _ _ (reachable_invariant E w Hw) code room Hc)
    as (r & Hr & _).
  assert (Hlt : (room < length (heap w))%nat) by (eapply lookup_lt_Some; eauto).
  pose proof (reachable_tidy E _ (reachable_after E
                (PostJoin code None name timezone locale) w Hw) room) as Htidy.
  unfold after in Htidy. fold answered in Htidy.
  unfold answered, express in *.
  rewrite (post_join_fresh E code None name timezone locale w room r Hc Hr eq_refl) in *.
  cbv zeta in *.
  set (member := Member.mk (uuid E (minted w)) name timezone locale (clock E (ticks w))) in *.
  set (r' := Room.with_members (map_set (Member.id member) member (Room.members r)) r) in *.
  assert (Hr' : heap (tell (flat_map (fun res => emit E res "member-joined" (PMember member))
                              (Room.streams r))
                        (LogJoined code name (Member.id member)
                         :: LogBroadcast (Room.code r) "member-joined"
                         :: flat_map (fun res => complain E res "member-joined" (PMember member))
                              (Room.streams r))
                        (with_heap (<[room := r']> (heap w))
                           (with_ticks (S (ticks w)) (with_minted (S (minted w)) w))))
                 !! room = Some r').
  { cbn. by apply list_lookup_insert_eq. }
  exists member, r'. split; [exact Hr'|].
  destruct (Htidy r' Hr') as (Hk & Hid & _).
  split; [|split; [done|]].
  - cbn [joined_page fst Nat.leb andb]. unfold initial_page, view. cbn [snapshot_of snap_createdAt snap_members].
    by rewrite (rebuild_members (Room.members r') Hk Hid).
  - cbn [get_member]. apply map_get_map_set.
Qed.

Lemma first_page_shows_the_room_witness :
  let answered := express (post_join demo_env "LOBBY" None "Bob" "Europe/Paris" "fr") lounge in
  exists member r',
    heap answered.2 !! 0%nat = Some r'
    /\ joined_page answered.1 = Some (member, view r')
    /\ Member.name member = "Bob"
    /\ get_member (Some (Member.id member)) (Room.members r') = Some member.
Proof.
  apply (first_page_shows_the_room demo_env "LOBBY" "Bob" "Europe/Paris" "fr" lounge 0%nat
           lounge_reachable).
  vm_compute. reflexivity.
Defined.

Lemma hear_emit_page E res h event data st :
  String.eqb event "init" = false ->
  String.eqb event "member-joined" = false ->
  String.eqb event "member-left" = false ->
  (fold_left hear (received h (emit E res event data)) st).2 = st.2.
Proof.
  intros H1 H2 H3. unfold emit, received.
  destruct (throws E res (EventLine event)); [done|].
  destruct (throws E res (DataLine data)); cbn; destruct (Nat.eqb res h); cbn; try done.
  unfold dispatch. rewrite H1, H2, H3. by destruct (st.2).
Qed.

Lemma hear_broadcast_page E h event data hs :
  String.eqb event "init" = false ->
  String.eqb event "member-joined" = false ->
  String.eqb event "member-left" = false ->
  forall st,
    (fold_left hear (received h (flat_map (fun res => emit E res event data) hs)) st).2 = st.2.
Proof.
  intros H1 H2 H3. induction hs as [|res hs IH]; intros st; [done|].
  cbn [flat_map]. rewrite received_app, fold_left_app, IH.
  by apply hear_emit_page.
Qed.

(** X22: a reset changes no page.  The page adds no listener for
    [timer-update], so in a reachable state, whatever the reset route writes
    to a stream, in full or up to a write that throws, the [roomCreatedAt]
    and [members] of the page behind it stay what they were. *)
Theorem reset_is_not_shown E code startTime w res p0 :
  reachable E w ->
  (page_after p0 (received res (wire (after E (PostReset code startTime) w)))).2
  = (page_after p0 (received res (wire w))).2.
Proof.
  intros Hw.
  pose proof (reachable_change E (PostReset code startTime) w Hw) as Hch.
  remember (after E (PostReset code startTime) w) as w' eqn:Hw'. clear Hw'.
  remember (PostReset code startTime) as q eqn:Hq.
  destruct Hch as [q w w' _ _ _ Hwire _
                  | | | |
                  |code' startTime' room r w w' _ _ r' _ _ _ Hwire _
                  |]; try discriminate.
  - by rewrite Hwire.
  - rewrite Hwire, received_app, page_after_app.
    destruct (valid_time (Room.startTime r')); [|done].
    by apply hear_broadcast_page.
Qed.

Lemma reset_is_not_shown_witness :
  (page_after (Page None [])
     (received 1 (wire (after demo_env (PostReset "LOBBY" (Some 1800000000000)) party)))).2
  = (page_after (Page None []) (received 1 (wire party))).2.
Proof.
  apply (reset_is_not_shown demo_env "LOBBY" (Some 1800000000000) party 1 (Page None [])).
  apply served_reachable, party_served.
Defined.

(** X23: the stopwatch counts from the creation of the room.  On a server
    whose stream requests each come with a response object of their own,
    behind an open stream whose writes succeed, [tick] at the time [now]
    shows [formatTime] of the time since the room's [createdAt], whatever
    resets the room has had. *)
Theorem stopwatch_counts_from_creation E w c p0 now r :
  served E w ->
  c ∈ listeners w ->
  (forall ch, throws E (cl_res c) ch = false) ->
  heap w !! cl_room c = Some r ->
  Room.createdAt r <> 0 ->
  stopwatch now <$> (page_after p0 (received (cl_res c) (wire w))).2
  = Some (Some (formatTime (now - Room.createdAt r))).
Proof.
  intros Hw Hc Hgood Hr Hnz.
  rewrite (touch_view E w (served_in_touch E w Hw) c r p0 Hc Hgood Hr).
  cbn. unfold stopwatch. cbn. by destruct (Z.eqb_spec (Room.createdAt r) 0).
Qed.

Lemma afterparty_served : served demo_env afterparty.
Proof. apply served_after; [apply party_served|]. intros code memberId res [=]. Qed.

Lemma stopwatch_counts_from_creation_witness :
  stopwatch 1700000060000
    <$> (page_after (Page None []) (received 1 (wire afterparty))).2
  = Some (Some "00:01:00.000").
Proof.
  apply (stopwatch_counts_from_creation demo_env afterparty
           (Closure "LOBBY" (Some "member-0") 0 1) (Page None []) 1700000060000
           (Room.mk "LOBBY" 1700000000000 1800000000000 1700000000001
              [("member-1", Member.mk "member-1" "Bob" "Europe/Paris" "fr" 1700000000005)]
              [1%nat; 2%nat])
           afterparty_served).
  - apply list_elem_of_In. vm_compute. auto.
  - intros ch. reflexivity.
  - vm_compute. reflexivity.
  - discriminate.
Defined.

Lemma map_has_map_delete {V} k (m : list (string * V)) :
  NoDup (map fst m) -> map_has k (map_delete k m) = false.
Proof.
  intros Hnd. apply map_has_false. intros k' v Hin ->.
  induction m as [|[k1 v1] m IH]; cbn in *; [by apply elem_of_nil in Hin|].
  apply NoDup_cons in Hnd as [Hk1 Hnd].
  destruct (String.eqb_spec k1 k) as [->|Hne].
  - apply Hk1. apply list_elem_of_fmap. by exists (k, v).
  - apply elem_of_cons in Hin as [[= -> _]|Hin]; [done|by apply IH].
Qed.

(** X24: leaving through the page is announced once.  [leaveRoom] posts to
    the leave route and then leaves the page, which ends its stream.  In a
    reachable state, for a stream opened for a member of its room: the leave
    route broadcasts [member-left] to the room's streams, and the [close]
    listener that follows finds the member gone and writes nothing; it
    takes the stream out of the room, drops out of the pending listeners,
    and, if that leaves the room with no member and no stream, deletes the
    room's code from the registry. *)
Theorem leave_then_close E code res w c r :
  reachable E w ->
  List.find (fun c => Nat.eqb (cl_res c) res) (listeners w) = Some c ->
  rooms w !! code = Some (cl_room c) ->
  heap w !! cl_room c = Some r ->
  has_member (cl_memberId c) (Room.members r) = true ->
  let w1 := after E (PostLeave code (cl_memberId c)) w in
  let w2 := after E (Close res) w1 in
  let r2 := Room.with_streams (set_delete res (Room.streams r))
              (Room.with_members (delete_member (cl_memberId c) (Room.members r)) r) in
  wire w1 = wire w ++ flat_map (fun res' => emit E res' "member-left"
                                   (PMemberLeft (cl_memberId c))) (Room.streams r)
  /\ wire w2 = wire w1
  /\ heap w2 = <[cl_room c := r2]> (heap w)
  /\ listeners w2
     = List.filter (fun c' => negb (Nat.eqb (cl_res c') res)) (listeners w)
  /\ rooms w2
     = (if (length (Room.members r2) =? 0)%nat && (length (Room.streams r2) =? 0)%nat
        then delete code (rooms w) else rooms w).
Proof.
  intros Hw Hf Hc Hr Hh w1 w2 r2.
  assert (Hlt : (cl_room c < length (heap w))%nat) by (eapply lookup_lt_Some; eauto).
  destruct (reachable_tidy E w Hw _ r Hr) as (Hk & _ & _).
  destruct (has_member_get _ _ Hh) as [member Hm].
  assert (Hcode : cl_code c = code).
  { pose proof (reachable_invariant E w Hw) as [I1 I2 _].
    pose proof Hf as Hin. apply find_some in Hin as [Hin _]. apply list_elem_of_In in Hin.
    destruct (I2 c Hin) as (rc & Hrc & <-). destruct (I1 code _ Hc) as (rc' & Hrc' & <-).
    assert (Some rc = Some rc') as [= ->] by (rewrite <- Hrc; exact Hrc'). done. }
  set (r1 := Room.with_members (delete_member (cl_memberId c) (Room.members r)) r).
  assert (Hw1 : wire w1 = wire w ++ flat_map (fun res' => emit E res' "member-left"
                                   (PMemberLeft (cl_memberId c))) (Room.streams r)
                /\ heap w1 = <[cl_room c := r1]> (heap w)
                /\ listeners w1 = listeners w
                /\ rooms w1 = rooms w).
  { unfold w1, after. rewrite express_world.
    by rewrite (post_leave_present E code (cl_memberId c) w (cl_room c) r member Hc Hr Hm). }
  destruct Hw1 as (Hwire1 & Hheap1 & Hl1 & Hrooms1). clearbody w1.
  assert (Hb : member_bound c r1 = false).
  { unfold member_bound, r1. cbn [Room.members Room.with_members].
    destruct (cl_memberId c) as [k|]; [|done]. cbn [has_member delete_member].
    by rewrite map_has_map_delete, andb_false_r. }
  assert (Hres : cl_res c = res).
  { apply find_some in Hf as [_ Hf]. by apply Nat.eqb_eq. }
  assert (Hr2 : closed_room c r1 = r2).
  { unfold closed_room. rewrite Hb. by rewrite Hres. }
  split; [done|].
  unfold w2, after. rewrite (close_run E res w1 c) by (by rewrite Hl1).
  destruct (events_close_run E c
              (with_listeners
                 (List.filter (fun c' => negb (Nat.eqb (cl_res c') res)) (listeners w1)) w1)
              r1) as [ls ->].
  { cbn. rewrite Hheap1. by apply list_lookup_insert_eq. }
  rewrite Hb, Hr2. cbn. rewrite app_nil_r. split; [done|].
  rewrite Hheap1, list_insert_insert_eq, Hl1, Hrooms1, Hcode. done.
Qed.

Lemma leave_then_close_witness :
  let w1 := after demo_env (PostLeave "LOBBY" (Some "member-0")) watched in
  let w2 := after demo_env (Close 1) w1 in
  wire w1 = wire watched ++ flat_map (fun res' => emit demo_env res' "member-left"
                                        (PMemberLeft (Some "member-0"))) [1%nat]
  /\ wire w2 = wire w1
  /\ heap w2 = <[0%nat := Room.mk "LOBBY" 1700000000000 1700000000001 1700000000002 [] []]>
               (heap watched)
  /\ listeners w2 = []
  /\ rooms w2 = delete "LOBBY" (rooms watched).
Proof.
  apply (leave_then_close demo_env "LOBBY" 1 watched (Closure "LOBBY" (Some "member-0") 0 1)
           (Room.mk "LOBBY" 1700000000000 1700000000001 1700000000002
              [("member-0", Member.mk "member-0" "Alice" "UTC" "en" 1700000000004)]
              [1%nat])
           watched_reachable); vm_compute; reflexivity.
Defined.

Lemma is_room_code_not_empty c : is_room_code c = true -> String.eqb c "" = false.
Proof. unfold is_room_code. intros [H _]%andb_prop. by apply negb_true_iff in H. Qed.

(** X25: the creator's way in.  In a reachable state, when the create route
    answers with a code, [initRoomPage] on that code and a name sends a
    join, and the join route answers it with the new member and a room state
    that carries the code, the three clock readings the create route stored,
    and the new member as the only member. *)
Theorem created_room_is_joined E roomCode w code createdAt w1 name timezone locale :
  reachable E w ->
  express (post_rooms E roomCode) w = (Json 200 (Created code createdAt), w1) ->
  name <> "" ->
  initRoomPage code name timezone locale = Some (PostJoin code None name timezone locale)
  /\ exists member,
       (express (post_join E code None name timezone locale) w1).1
       = Json 200 (Joined member
           (Snapshot (clock E (ticks w)) (clock E (S (ticks w))) (clock E (S (S (ticks w))))
              code [member]))
       /\ Member.name member = name.
Proof.
  intros Hw Hrun Hname.
  destruct (rooms w !! chosen_code E roomCode w) as [room|] eqn:Hc.
  { unfold express in Hrun. by rewrite (post_rooms_taken E roomCode w room Hc) in Hrun. }
  unfold express in Hrun. rewrite (post_rooms_created E roomCode w Hc) in Hrun.
  cbv zeta in Hrun. injection Hrun as <- _ <-.
  split.
  - unfold initRoomPage.
    rewrite (is_room_code_not_empty _ (chosen_code_is_room_code E roomCode w)).
    by destruct (String.eqb_spec name "").
  - set (code := chosen_code E roomCode w).
    set (room := Room.mk code (clock E (ticks w)) (clock E (S (ticks w)))
                   (clock E (S (S (ticks w)))) [] []).
    eexists. unfold express.
    erewrite (post_join_fresh E code None name timezone locale _ (length (heap w)) room).
    + cbn. split; reflexivity.
    + cbn. by rewrite lookup_insert_eq.
    + destruct (needs_random roomCode); cbn; by rewrite lookup_app_r, Nat.sub_diag.
    + done.
Qed.

Lemma created_room_is_joined_witness :
  initRoomPage "LOBBY" "Alice" "UTC" "en" = Some (PostJoin "LOBBY" None "Alice" "UTC" "en")
  /\ exists member,
       (express (post_join demo_env "LOBBY" None "Alice" "UTC" "en") lobby).1
       = Json 200 (Joined member
           (Snapshot 1700000000000 1700000000001 1700000000002 "LOBBY" [member]))
       /\ Member.name member = "Alice".
Proof.
  apply (created_room_is_joined demo_env (Some "lobby") boot "LOBBY" 1700000000003 lobby
           "Alice" "UTC" "en").
  - constructor.
  - vm_compute. reflexivity.
  - discriminate.
Defined.


Lemma upper_char_not_alnum c :
  is_alnum c = false -> is_upper (upper_char c) || is_digit (upper_char c) = false.
Proof.
  destruct c as [[] [] [] [] [] [] [] []]; vm_compute; auto.
Qed.






Lemma toUpperCase_keeps_symbols s ch :
  In ch (list_ascii_of_string s) -> is_alnum ch = false ->
  forallb (fun c => is_upper c || is_digit c) (list_ascii_of_string (toUpperCase s)) = false.
Proof.
  intros Hin Hch. induction s as [|c s IH]; cbn in *; [done|].
  destruct Hin as [->|Hin].
  - by rewrite (upper_char_not_alnum ch Hch).
  - rewrite (IH Hin). by rewrite andb_false_r.
Qed.

Lemma upper_char_plain c :
  is_alnum c || Ascii.eqb c "-" || Ascii.eqb c "_" = true ->
  is_alnum (upper_char c) || Ascii.eqb (upper_char c) "-" || Ascii.eqb (upper_char c) "_"
  = true.
Proof.
  destruct c as [[] [] [] [] [] [] [] []]; vm_compute; auto.
Qed.

Lemma toUpperCase_plain s : plain_code s = true -> plain_code (toUpperCase s) = true.
Proof.
  unfold plain_code. induction s as [|c s IH]; cbn; [done|].
  intros [Hc Hs]%andb_prop. by rewrite (upper_char_plain c Hc), IH.
Qed.

(** X27: the create route strips what is not a letter or a digit from a
    requested code, [joinRoom] does not.  In a reachable state, for a typed
    text of letters, digits, hyphens and underscores that holds a hyphen or
    an underscore: the code [joinRoom] makes of it is again such a code,
    which the address and the path carry to the join route unchanged; it is
    no code of the registry; and the join [initRoomPage] sends for it is
    answered 404 and changes no room, registry entry, listener or wire.
    This is so also when a room was created from that very text, which the
    create route stored without the hyphens and underscores. *)
Theorem typed_symbols_name_no_room E w name typed code timezone locale ch :
  reachable E w ->
  joinRoom name typed = Some code ->
  plain_code typed = true ->
  In ch (list_ascii_of_string typed) ->
  is_alnum ch = false ->
  plain_code code = true
  /\ rooms w !! code = None
  /\ initRoomPage code name timezone locale = Some (PostJoin code None name timezone locale)
  /\ exists w',
       express (post_join E code None name timezone locale) w = (Status 404, w')
       /\ heap w' = heap w /\ rooms w' = rooms w
       /\ listeners w' = listeners w /\ wire w' = wire w.
Proof.
  intros Hw Hjoin Hplain Hin Hch.
  unfold joinRoom in Hjoin. destruct (String.eqb_spec name "") as [|Hname]; [done|].
  destruct (String.eqb (toUpperCase typed) "") eqn:Hempty; [done|]. injection Hjoin as <-.
  assert (Hnone : rooms w !! toUpperCase typed = None).
  { destruct (rooms w !! toUpperCase typed) as [room|] eqn:Hc; [|done].
    apply (reachable_room_codes E w Hw) in Hc.
    unfold is_room_code in Hc. apply andb_prop in Hc as [_ Hc].
    by rewrite (toUpperCase_keeps_symbols typed ch Hin Hch) in Hc. }
  split; [by apply toUpperCase_plain|]. split; [done|]. split.
  - unfold initRoomPage. rewrite Hempty. by destruct (String.eqb_spec name "").
  - eexists. unfold express.
    rewrite (post_join_missing E (toUpperCase typed) None name timezone locale w Hnone).
    split; [done|]. cbn. by rewrite app_nil_r.
Qed.

Lemma typed_symbols_name_no_room_witness :
  let w := after demo_env (PostRooms (Some "tea-room")) lobby in
  rooms w !! "TEAROOM" = Some 1%nat
  /\ plain_code "TEA-ROOM" = true
  /\ rooms w !! "TEA-ROOM" = None
  /\ initRoomPage "TEA-ROOM" "Bob" "UTC" "en"
     = Some (PostJoin "TEA-ROOM" None "Bob" "UTC" "en")
  /\ exists w',
       express (post_join demo_env "TEA-ROOM" None "Bob" "UTC" "en") w = (Status 404, w')
       /\ heap w' = heap w /\ rooms w' = rooms w
       /\ listeners w' = listeners w /\ wire w' = wire w.
Proof.
  split; [vm_compute; reflexivity|].
  apply (typed_symbols_name_no_room demo_env
           (after demo_env (PostRooms (Some "tea-room")) lobby) "Bob" "tea-room" "TEA-ROOM"
           "UTC" "en" "-").
  - apply reachable_after. repeat constructor.
  - reflexivity.
  - reflexivity.
  - cbn. auto.
  - reflexivity.
Defined.

Lemma received_idle_broadcast E w res room r hs event data :
  in_touch E w ->
  (forall c, c ∈ listeners w -> cl_res c <> res) ->
  heap w !! room = Some r ->
  (forall h, h ∈ hs -> h ∈ Room.streams r) ->
  received res (flat_map (fun res' => emit E res' event data) hs) = [].
Proof.
  intros [_ _ H3 _] Hidle Hr Hsub. apply received_broadcast_out. intros Hin.
  destruct (H3 room r res Hr (Hsub res Hin)) as (c & Hc & Hres & _).
  by apply (Hidle c Hc).
Qed.

(** X28: a stream that is not open is not written to.  On a server whose
    stream requests each come with a response object of their own, no
    request writes to a response object that no pending [close] listener
    holds, other than the stream request that brings it: what has been
    written to a stream when it closes is all it will ever carry. *)
Theorem closed_streams_are_left_alone E w q res :
  served E w ->
  (forall c, c ∈ listeners w -> cl_res c <> res) ->
  (forall code memberId, q <> GetEvents code memberId res) ->
  received res (wire (after E q w)) = received res (wire w).
Proof.
  intros Hw Hidle Hq.
  pose proof (served_in_touch E w Hw) as Htouch.
  pose proof (reachable_change E q w (served_reachable E w Hw)) as Hch.
  remember (after E q w) as w' eqn:Hw'. clear Hw'.
  destruct Hch as [q w w' _ _ _ Hwire _
                  |c memberId res' room r w w' _ Hr _ _ _ Hwire _
                  |res' c r w w' Hf Hr _ _ _ Hwire _
                  |roomCode w w' _ _ _ _ Hwire _
                  |code memberId name timezone locale room r w w' _ Hr _ member _ _ _ Hwire _
                  |code startTime room r w w' _ Hr r' _ _ _ Hwire _
                  |code memberId room r member w w' _ Hr _ _ _ _ Hwire _];
    rewrite Hwire, ?received_app; try done.
  - rewrite received_emit_other; [by rewrite app_nil_r|].
    intros ->. by apply (Hq (Some c) memberId).
  - destruct (member_bound c r); [|by rewrite app_nil_r].
    rewrite (received_idle_broadcast E w res (cl_room c) r); [by rewrite app_nil_r|done..|].
    intros h. rewrite closed_room_streams. by intros [? _]%elem_of_set_delete.
  - by rewrite (received_idle_broadcast E w res room r), app_nil_r.
  - destruct (valid_time (Room.startTime r')); [|by rewrite app_nil_r].
    rewrite (received_idle_broadcast E w res room r); [by rewrite app_nil_r|done..|].
    subst r'. unfold restarted, banked. by destruct (_ <=? _).
  - by rewrite (received_idle_broadcast E w res room r), app_nil_r.
Qed.

Lemma closed_streams_are_left_alone_witness :
  received 1 (wire (after demo_env (PostJoin "LOBBY" None "Carol" "UTC" "en")
                      (after demo_env (Close 1) party)))
  = received 1 (wire (after demo_env (Close 1) party)).
Proof.
  apply (closed_streams_are_left_alone demo_env (after demo_env (Close 1) party)
           (PostJoin "LOBBY" None "Carol" "UTC" "en") 1).
  - apply served_after; [apply party_served|]. intros code memberId res [=].
  - intros c Hc. apply list_elem_of_In in Hc. vm_compute in Hc.
    destruct Hc as [<-|[]]. discriminate.
  - intros code memberId. discriminate.
Defined.
